(** * DDPG + HER agent (DDPG_HER/ddpg_agent.py): model and verified properties

    The agent drives a set of collaborators that live outside the file: the
    simulator, the actor and critic networks with autograd and Adam, the
    running normalizers, the episodic replay buffer, the hindsight sampler,
    numpy's random generator and the MPI runtime.  The collaborators are kept
    abstract (class [Collaborators]); the code of [ddpg_agent] itself is
    embedded function by function in a state-and-exception monad whose state
    is the agent's fields, the outside world and the log of external calls.

    Arithmetic is exact rational arithmetic ([Q]): float32/float64 rounding,
    infinities and NaN are outside the model. *)

From Stdlib Require Import List ZArith QArith Qminmax Lia Lqa Bool Arith.
From Stdlib Require String.
Import ListNotations.

Set Implicit Arguments.

(** ** Python exceptions and results *)

Inductive Error : Type :=
| ValueError
| IndexError
| ZeroDivisionError
| RuntimeError
| NameError
| EmptyBufferError.

Inductive Res (A : Type) : Type :=
| Ok (a : A)
| Raise (e : Error).

Arguments Ok {A} a.
Arguments Raise {A} e.

Definition res_bind {A B : Type} (r : Res A) (k : A -> Res B) : Res B :=
  match r with
  | Ok a => k a
  | Raise e => Raise e
  end.

(** ** Arrays

    A 1-D array is a list of rationals, a 2-D array a list of rows, a 3-D
    array a list of 2-D arrays.  [np.array] of a regular nested list and
    [.copy()] are the identity on these values; nested lists that are not
    regular, which [np.array] rejects, are outside the model.  A parameter
    tensor of a network is the list of its entries: the model of the tensor
    operations is exact on operands of the same shape. *)

Definition Vec := list Q.
Definition Mat := list Vec.
Definition Cube := list Mat.

Module Np.

Open Scope Q_scope.

Fixpoint map2 (f : Q -> Q -> Q) (a b : Vec) : Vec :=
  match a, b with
  | x :: a', y :: b' => f x y :: map2 f a' b'
  | _, _ => []
  end.

(** Elementwise binary operation with numpy/torch broadcasting on one axis:
    equal lengths combine pointwise, a length-1 operand is stretched,
    anything else does not broadcast.  The exception is numpy's; torch
    raises [RuntimeError] in its place. *)
Definition binop (f : Q -> Q -> Q) (a b : Vec) : Res Vec :=
  if (length a =? length b)%nat then Ok (map2 f a b)
  else match a, b with
       | [x], _ => Ok (map (f x) b)
       | _, [y] => Ok (map (fun x => f x y) a)
       | _, _ => Raise ValueError
       end.

Definition add := binop Qplus.
Definition sub := binop Qminus.

Definition scale (c : Q) (a : Vec) : Vec := map (Qmult c) a.

(** [np.clip(x, lo, hi)] and [torch.clamp(x, lo, hi)]: min(max(x, lo), hi). *)
Definition clip1 (lo hi x : Q) : Q := Qmin (Qmax x lo) hi.
Definition clip (a : Vec) (lo hi : Q) : Vec := map (clip1 lo hi) a.
Definition clip2 (m : Mat) (lo hi : Q) : Mat := map (fun r => clip r lo hi) m.

Definition sum (a : Vec) : Q := fold_right Qplus 0 a.

(** [np.mean] of a non-empty 1-D array. *)
Definition mean (a : Vec) : Q := sum a / inject_Z (Z.of_nat (length a)).

(** [.squeeze()] of the 1 x k output of a network on a single input. *)
Definition squeeze (m : Mat) : Vec := concat m.

(** [np.concatenate([a, b], axis=1)] on 2-D arrays. *)
Fixpoint concatenate1 (a b : Mat) : Res Mat :=
  match a, b with
  | [], [] => Ok []
  | r :: a', s :: b' => res_bind (concatenate1 a' b') (fun m => Ok ((r ++ s) :: m))
  | _, _ => Raise ValueError
  end.

(** [a[:, 1:, :]] on a 3-D array; [np.array([])] has one axis only. *)
Definition slice_from1 (c : Cube) : Res Cube :=
  match c with
  | [] => Raise IndexError
  | _ => Ok (map (skipn 1) c)
  end.

(** [a.shape[1]]. *)
Definition shape1 (c : Cube) : Res nat :=
  match c with
  | [] => Raise IndexError
  | ep :: _ => Ok (length ep)
  end.

(** [a[:, -1]] on a 2-D array. *)
Fixpoint last_column (m : Mat) : Res Vec :=
  match m with
  | [] => Ok []
  | r :: m' =>
      match rev r with
      | [] => Raise IndexError
      | x :: _ => res_bind (last_column m') (fun v => Ok (x :: v))
      end
  end.

Definition column_m1 (m : Mat) : Res Vec :=
  match m with
  | [] => Raise IndexError
  | _ => last_column m
  end.

(** [dst.copy_(src)]: [src] must broadcast to the shape of [dst]. *)
Definition copy_ (dst src : Vec) : Res Vec :=
  if (length src =? length dst)%nat then Ok src
  else match src with
       | [x] => Ok (map (fun _ => x) dst)
       | _ => Raise RuntimeError
       end.

End Np.

(** ** Configuration *)

Record Args : Type := {
  n_epochs : nat;
  n_cycles : nat;
  num_rollouts_per_mpi : nat;
  n_batches : nat;
  batch_size : nat;
  n_test_rollouts : nat;
  buffer_size : nat;
  replay_strategy : String.string;
  replay_k : Q;
  noise_eps : Q;
  random_eps : Q;
  clip_obs : Q;
  clip_range : Q;
  polyak : Q;
  gamma : Q;
  action_l2 : Q;
  lr_actor : Q;
  lr_critic : Q;
  cuda : bool
}.

(** [env_params]: the keys 'obs', 'goal', 'action', 'action_max',
    'max_timesteps'. *)
Record EnvParams : Type := {
  p_obs : nat;
  p_goal : nat;
  p_action : nat;
  action_max : Q;
  max_timesteps : nat
}.

(** ** Data exchanged with the collaborators *)

Record Observation : Type := {
  observation : Vec;
  achieved_goal : Vec;
  desired_goal : Vec
}.

Record Info : Type := { is_success : Q }.

(** The list [[mb_obs, mb_ag, mb_g, mb_actions]] handed to [store_episode]
    and [_update_normalizer]. *)
Record EpisodeBatch : Type := {
  mb_obs : Cube;
  mb_ag : Cube;
  mb_g : Cube;
  mb_actions : Cube
}.

(** The dictionary [buffer_temp]. *)
Record BufferTemp : Type := {
  bt_obs : Cube;
  bt_ag : Cube;
  bt_g : Cube;
  bt_actions : Cube;
  bt_obs_next : Cube;
  bt_ag_next : Cube
}.

(** The dictionary of transitions returned by the sampling function. *)
Record Transitions : Type := {
  tr_obs : Mat;
  tr_obs_next : Mat;
  tr_ag : Mat;
  tr_ag_next : Mat;
  tr_g : Mat;
  tr_actions : Mat;
  tr_r : Vec
}.

(** [her_sampler(replay_strategy, replay_k, reward_func)]. *)
Record her_sampler : Type := {
  hs_replay_strategy : String.string;
  hs_replay_k : Q;
  hs_reward_func : Vec -> Vec -> Q
}.

Definition Params := list Vec.

Inductive NetId : Type := Actor | Critic | ActorTarget | CriticTarget.
Inductive NormId : Type := ONorm | GNorm.

(** A loss is consumed by [backward()] only; it is represented by the graph
    inputs that determine it. *)
Inductive Loss : Type :=
| ActorLoss (inputs : Mat) (actions_real : Mat)
| CriticLoss (target_q_value : Vec) (real_q_value : Vec).

(** ** Log of calls on the collaborators *)

Inductive Event : Type :=
| EvCreateNet (n : NetId)
| EvSyncNetworks (n : NetId)
| EvLoadStateDict (dst src : NetId)
| EvMakeDirs
| EvEnvReset
| EvEnvStep (action : Vec) (reward : Q) (done : bool) (info : Info)
| EvStoreEpisode (b : EpisodeBatch)
| EvSampleHer (b : BufferTemp) (n : nat)
| EvNormUpdate (i : NormId) (v : Mat)
| EvNormRecompute (i : NormId)
| EvNormalize (i : NormId)
| EvBufferSample (n : nat)
| EvZeroGrad (n : NetId)
| EvBackward (l : Loss)
| EvSyncGrads (n : NetId)
| EvOptimStep (n : NetId)
| EvAllreduce (v : Q)
| EvSaveModel.

(** ** Collaborators

    Everything the agent calls but does not define.  Stateful collaborators
    outside the agent (simulator, numpy's generator, MPI runtime) advance an
    opaque [World]; the objects the agent owns have opaque state spaces of
    their own. *)

Class Collaborators : Type := {
  World : Type;
  OptimState : Type;
  Grads : Type;
  NormState : Type;
  Storage : Type;
  (* numpy.random: one draw per entry of the requested shape, for arguments
     the generator accepts (it rejects a probability outside [0, 1]) *)
  randn : World -> Q * World;
  uniform : Q -> Q -> World -> Q * World;
  binomial : nat -> Q -> World -> nat * World;
  (* DDPG_HER.actor_critic: constructors and forward passes on one input *)
  actor : EnvParams -> World -> Params * World;
  critic : EnvParams -> World -> Params * World;
  actor_forward : Params -> Vec -> Vec;
  critic_forward : Params -> Vec -> Vec -> Q;
  (* torch.autograd and torch.optim.Adam *)
  no_grads : Grads;
  backward : Loss -> Params -> Params -> Grads -> Grads -> Grads * Grads;
  Adam : Q -> OptimState;
  adam_step : OptimState -> Params -> Grads -> Params * OptimState;
  (* from_baselines.mpi_utils and mpi4py, as seen by one worker *)
  sync_grads : Grads -> World -> Grads * World;
  allreduce_SUM : Q -> World -> Q * World;
  (* from_baselines.normalizer *)
  normalizer : nat -> Q -> NormState;
  norm_update : NormState -> Mat -> NormState;
  norm_recompute_stats : NormState -> World -> NormState * World;
  norm_normalize : NormState -> Vec -> Vec;
  (* DDPG_HER.her *)
  sample_her_transitions :
    her_sampler -> BufferTemp -> nat -> World -> Transitions * World;
  (* DDPG_HER.replay_buffer: the preallocated arrays *)
  storage_new : EnvParams -> nat -> Storage;
  storage_store : Storage -> EpisodeBatch -> Storage;
  storage_draw : Storage -> nat -> World -> option BufferTemp * World
}.

Section Model.

Context {C : Collaborators}.

Open Scope Q_scope.

(** The simulator: [reset()], [step(action)] returning
    [(observation, reward, done, info)], and [compute_reward]. *)
Record Env : Type := {
  env_reset : World -> Observation * World;
  env_step : Vec -> World -> (Observation * Q * bool * Info) * World;
  compute_reward : Vec -> Vec -> Q
}.

(** The constructor arguments of [ddpg_agent] and the worker's place in
    [MPI.COMM_WORLD]. *)
Record Config : Type := {
  args : Args;
  env : Env;
  env_params : EnvParams;
  Get_rank : nat;
  Get_size : positive
}.

Record Net : Type := {
  parameters : Params;
  grad : Grads
}.

(** Modelled from the spec: DDPG_HER.replay_buffer is not part of the
    sources at hand.  The buffer owns its storage and keeps the sampling
    function it was constructed with. *)
Record replay_buffer : Type := {
  rb_storage : Storage;
  rb_sample_func : BufferTemp -> nat -> World -> Transitions * World
}.

(** The mutable attributes of the agent. *)
Record Agent : Type := {
  actor_network : Net;
  critic_network : Net;
  actor_target_network : Net;
  critic_target_network : Net;
  actor_optim : OptimState;
  critic_optim : OptimState;
  her_module : her_sampler;
  buffer : replay_buffer;
  o_norm : NormState;
  g_norm : NormState
}.

Definition set_buffer (b : replay_buffer) (s : Agent) : Agent :=
  {| actor_network := actor_network s; critic_network := critic_network s;
     actor_target_network := actor_target_network s;
     critic_target_network := critic_target_network s;
     actor_optim := actor_optim s; critic_optim := critic_optim s;
     her_module := her_module s; buffer := b;
     o_norm := o_norm s; g_norm := g_norm s |}.

Definition set_her_module (h : her_sampler) (s : Agent) : Agent :=
  {| actor_network := actor_network s; critic_network := critic_network s;
     actor_target_network := actor_target_network s;
     critic_target_network := critic_target_network s;
     actor_optim := actor_optim s; critic_optim := critic_optim s;
     her_module := h; buffer := buffer s;
     o_norm := o_norm s; g_norm := g_norm s |}.

Definition get_norm (i : NormId) (s : Agent) : NormState :=
  match i with ONorm => o_norm s | GNorm => g_norm s end.

Definition set_norm (i : NormId) (n : NormState) (s : Agent) : Agent :=
  {| actor_network := actor_network s; critic_network := critic_network s;
     actor_target_network := actor_target_network s;
     critic_target_network := critic_target_network s;
     actor_optim := actor_optim s; critic_optim := critic_optim s;
     her_module := her_module s; buffer := buffer s;
     o_norm := match i with ONorm => n | GNorm => o_norm s end;
     g_norm := match i with ONorm => g_norm s | GNorm => n end |}.

Definition get_net (i : NetId) (s : Agent) : Net :=
  match i with
  | Actor => actor_network s
  | Critic => critic_network s
  | ActorTarget => actor_target_network s
  | CriticTarget => critic_target_network s
  end.

Definition set_net (i : NetId) (n : Net) (s : Agent) : Agent :=
  {| actor_network := match i with Actor => n | _ => actor_network s end;
     critic_network := match i with Critic => n | _ => critic_network s end;
     actor_target_network :=
       match i with ActorTarget => n | _ => actor_target_network s end;
     critic_target_network :=
       match i with CriticTarget => n | _ => critic_target_network s end;
     actor_optim := actor_optim s; critic_optim := critic_optim s;
     her_module := her_module s; buffer := buffer s;
     o_norm := o_norm s; g_norm := g_norm s |}.

(** The optimizer of an online network. *)
Definition get_optim (i : NetId) (s : Agent) : OptimState :=
  match i with
  | Critic | CriticTarget => critic_optim s
  | _ => actor_optim s
  end.

Definition set_optim (i : NetId) (o : OptimState) (s : Agent) : Agent :=
  {| actor_network := actor_network s; critic_network := critic_network s;
     actor_target_network := actor_target_network s;
     critic_target_network := critic_target_network s;
     actor_optim :=
       match i with Critic | CriticTarget => actor_optim s | _ => o end;
     critic_optim :=
       match i with Critic | CriticTarget => o | _ => critic_optim s end;
     her_module := her_module s; buffer := buffer s;
     o_norm := o_norm s; g_norm := g_norm s |}.

(** A worker process: its agent, the outside world and the call log. *)
Record St : Type := {
  agent : Agent;
  world : World;
  trace : list Event
}.

(** ** The monad of agent methods *)

Definition M (A : Type) : Type := St -> Res (A * St).

Definition ret {A : Type} (a : A) : M A := fun s => Ok (a, s).

Definition bind {A B : Type} (m : M A) (k : A -> M B) : M B :=
  fun s =>
    match m s with
    | Ok (a, s') => k a s'
    | Raise e => Raise e
    end.

Definition raise {A : Type} (e : Error) : M A := fun _ => Raise e.

Definition lift {A : Type} (r : Res A) : M A :=
  fun s => match r with Ok a => Ok (a, s) | Raise e => Raise e end.

(** Reading and assigning attributes of [self]. *)
Definition gets {A : Type} (f : Agent -> A) : M A :=
  fun s => Ok (f (agent s), s).

Definition modify (f : Agent -> Agent) : M unit :=
  fun s =>
    Ok (tt, {| agent := f (agent s); world := world s; trace := trace s |}).

Definition emit (e : Event) : M unit :=
  fun s =>
    Ok (tt, {| agent := agent s; world := world s; trace := trace s ++ [e] |}).

(** A call that advances the outside world. *)
Definition call {A : Type} (f : World -> A * World) : M A :=
  fun s =>
    let (a, w) := f (world s) in
    Ok (a, {| agent := agent s; world := w; trace := trace s |}).

End Model.

Declare Scope agent_scope.
Delimit Scope agent_scope with agent.
Notation "x <- m ;; k" := (bind m (fun x => k))
  (at level 61, m at next level, right associativity) : agent_scope.
Notation "m ;; k" := (bind m (fun _ => k))
  (at level 61, right associativity) : agent_scope.

(** ** Methods of the collaborators, as called by the agent *)

Section Calls.

Context {C : Collaborators}.

Open Scope Q_scope.
Open Scope agent_scope.

(** [for i in range(n)] with the loop-carried variables [s]; the counter
    starts at [i] and [n] iterations remain. *)
Fixpoint for_from {S : Type} (i n : nat) (body : nat -> S -> M S) (s : S)
  : M S :=
  match n with
  | O => ret s
  | Datatypes.S n' => s' <- body i s ;; for_from (Datatypes.S i) n' body s'
  end.

Definition for_range {S : Type} (n : nat) (body : nat -> S -> M S) (s : S)
  : M S :=
  for_from 0 n body s.

(** An array of [n] independent draws. *)
Fixpoint draws (n : nat) (draw : World -> Q * World) : M Vec :=
  match n with
  | O => ret []
  | Datatypes.S n' => x <- call draw ;; xs <- draws n' draw ;; ret (x :: xs)
  end.

Definition reset (self : Config) : M Observation :=
  emit EvEnvReset ;; call (env_reset (env self)).

Definition step (self : Config) (action : Vec)
  : M (Observation * Q * bool * Info) :=
  r <- call (env_step (env self) action) ;;
  emit (EvEnvStep action (snd (fst (fst r))) (snd (fst r)) (snd r)) ;;
  ret r.

Definition normalize (i : NormId) (x : Mat) : M Mat :=
  emit (EvNormalize i) ;;
  n <- gets (get_norm i) ;;
  ret (map (norm_normalize n) x).

Definition normalize1 (i : NormId) (x : Vec) : M Vec :=
  emit (EvNormalize i) ;;
  n <- gets (get_norm i) ;;
  ret (norm_normalize n x).

Definition update (i : NormId) (v : Mat) : M unit :=
  emit (EvNormUpdate i v) ;;
  modify (fun s => set_norm i (norm_update (get_norm i s) v) s).

Definition recompute_stats (i : NormId) : M unit :=
  emit (EvNormRecompute i) ;;
  n <- gets (get_norm i) ;;
  n' <- call (norm_recompute_stats n) ;;
  modify (set_norm i n').

(** Modelled from the spec: [replay_buffer.store_episode] writes the batch
    into the buffer's own storage. *)
Definition store_episode (b : EpisodeBatch) : M unit :=
  emit (EvStoreEpisode b) ;;
  modify (fun s =>
    set_buffer {| rb_storage := storage_store (rb_storage (buffer s)) b;
                  rb_sample_func := rb_sample_func (buffer s) |} s).

(** Modelled from the spec: [replay_buffer.sample] draws from the stored
    episodes, forms the raw transition dictionary and passes it with the
    batch size to the injected sampling function; it fails on a buffer
    that never stored an episode. *)
Definition sample (n : nat) : M Transitions :=
  emit (EvBufferSample n) ;;
  b <- gets buffer ;;
  raw <- call (storage_draw (rb_storage b) n) ;;
  match raw with
  | None => raise EmptyBufferError
  | Some t => call (rb_sample_func b t n)
  end.

(** [self.her_module.sample_her_transitions(buffer_temp, n)]. *)
Definition her_sample (bt : BufferTemp) (n : nat) : M Transitions :=
  emit (EvSampleHer bt n) ;;
  h <- gets her_module ;;
  call (sample_her_transitions h bt n).

(** [net(x)] for an actor on a batch of inputs. *)
Definition actor_call (i : NetId) (x : Mat) : M Mat :=
  n <- gets (get_net i) ;;
  ret (map (actor_forward (parameters n)) x).

Fixpoint rows2 (f : Vec -> Vec -> Q) (x a : Mat) : Res Vec :=
  match x, a with
  | [], [] => Ok []
  | r :: x', s :: a' => res_bind (rows2 f x' a') (fun v => Ok (f r s :: v))
  | _, _ => Raise RuntimeError
  end.

(** [net(x, actions)] for a critic on a batch. *)
Definition critic_call (i : NetId) (x a : Mat) : M Vec :=
  n <- gets (get_net i) ;;
  lift (rows2 (critic_forward (parameters n)) x a).

Definition set_grad (g : Grads) (n : Net) : Net :=
  {| parameters := parameters n; grad := g |}.

Definition set_parameters (p : Params) (n : Net) : Net :=
  {| parameters := p; grad := grad n |}.

(** [optim.zero_grad()] of the optimizer of network [i]. *)
Definition zero_grad (i : NetId) : M unit :=
  emit (EvZeroGrad i) ;;
  modify (fun s => set_net i (set_grad no_grads (get_net i s)) s).

(** [loss.backward()]: accumulates into the gradients of the online
    networks the loss depends on. *)
Definition loss_backward (l : Loss) : M unit :=
  emit (EvBackward l) ;;
  modify (fun s =>
    let a := actor_network s in
    let c := critic_network s in
    let g := backward l (parameters a) (parameters c) (grad a) (grad c) in
    set_net Critic (set_grad (snd g) c) (set_net Actor (set_grad (fst g) a) s)).

(** [sync_grads(net)]. *)
Definition sync_grads_call (i : NetId) : M unit :=
  emit (EvSyncGrads i) ;;
  n <- gets (get_net i) ;;
  g <- call (sync_grads (grad n)) ;;
  modify (fun s => set_net i (set_grad g (get_net i s)) s).

(** [optim.step()] of the optimizer of network [i]. *)
Definition optim_step (i : NetId) : M unit :=
  emit (EvOptimStep i) ;;
  modify (fun s =>
    let n := get_net i s in
    let r := adam_step (get_optim i s) (parameters n) (grad n) in
    set_optim i (snd r) (set_net i (set_parameters (fst r) n) s)).

(** [MPI.COMM_WORLD.allreduce(v, op=MPI.SUM)] as seen by one worker. *)
Definition allreduce (v : Q) : M Q :=
  emit (EvAllreduce v) ;;
  call (allreduce_SUM v).

End Calls.

(** ** The agent: [class ddpg_agent] *)

Section Agent.

Context {C : Collaborators}.

Open Scope Q_scope.
Open Scope agent_scope.

Variable self : Config.

(** Python's [a / b] on floats. *)
Definition py_div (a b : Q) : Res Q :=
  if Qeq_bool b 0 then Raise ZeroDivisionError else Ok (a / b).

(** [input_preprocessing(obs, g)]; device placement ([.cuda()]) does not
    change values and is left out throughout. *)
Definition input_preprocessing (obs g : Vec) : M Mat :=
  obs_norm <- normalize1 ONorm obs ;;
  g_norm <- normalize1 GNorm g ;;
  let inputs := obs_norm ++ g_norm in
  ret [inputs].

(** [_choose_actions(pi)]. *)
Definition _choose_actions (pi : Mat) : M Vec :=
  let action := Np.squeeze pi in
  z <- draws (length action) randn ;;
  let gaussian_noise :=
    Np.scale (noise_eps (args self) * action_max (env_params self)) z in
  action <- lift (Np.add action gaussian_noise) ;;
  let action :=
    Np.clip action (- action_max (env_params self))
            (action_max (env_params self)) in
  random_actions <-
    draws (p_action (env_params self))
          (uniform (- action_max (env_params self))
                   (action_max (env_params self))) ;;
  k <- call (binomial 1 (random_eps (args self))) ;;
  let eps_greedy_noise := inject_Z (Z.of_nat k) in
  d <- lift (Np.sub random_actions action) ;;
  lift (Np.add action (Np.scale eps_greedy_noise d)).

(** [_preproc_og(o, g)]. *)
Definition _preproc_og (o g : Mat) : Mat * Mat :=
  (Np.clip2 o (- clip_obs (args self)) (clip_obs (args self)),
   Np.clip2 g (- clip_obs (args self)) (clip_obs (args self))).

(** [_update_normalizer(episode_batch)]. *)
Definition _update_normalizer (episode_batch : EpisodeBatch) : M unit :=
  mb_obs_next <- lift (Np.slice_from1 (mb_obs episode_batch)) ;;
  mb_ag_next <- lift (Np.slice_from1 (mb_ag episode_batch)) ;;
  num_transitions <- lift (Np.shape1 (mb_actions episode_batch)) ;;
  let buffer_temp :=
    {| bt_obs := mb_obs episode_batch;
       bt_ag := mb_ag episode_batch;
       bt_g := mb_g episode_batch;
       bt_actions := mb_actions episode_batch;
       bt_obs_next := mb_obs_next;
       bt_ag_next := mb_ag_next |} in
  transitions <- her_sample buffer_temp num_transitions ;;
  let og := _preproc_og (tr_obs transitions) (tr_g transitions) in
  update ONorm (fst og) ;;
  update GNorm (snd og) ;;
  recompute_stats ONorm ;;
  recompute_stats GNorm.

(** The loop of [_soft_update_target_network] over
    [zip(target.parameters(), source.parameters())]: pairs are blended in
    order, parameters without a partner are left alone.  Paired tensors
    have the same shape in every agent the constructor built (the target
    loads the state of the online network), where the blend of the
    flattened tensors is the blend of the tensors. *)
Fixpoint soft_update (target source : Params) : Res Params :=
  match target, source with
  | target_param :: target', param :: source' =>
      res_bind
        (Np.add (Np.scale (1 - polyak (args self)) param)
                (Np.scale (polyak (args self)) target_param))
        (fun blended =>
           res_bind (Np.copy_ target_param blended)
             (fun new =>
                res_bind (soft_update target' source')
                  (fun rest => Ok (new :: rest))))
  | _, _ => Ok target
  end.

(** [_soft_update_target_network(target, source)]. *)
Definition _soft_update_target_network (target source : NetId) : M unit :=
  t <- gets (get_net target) ;;
  s <- gets (get_net source) ;;
  p <- lift (soft_update (parameters t) (parameters s)) ;;
  modify (fun st => set_net target (set_parameters p (get_net target st)) st).

(** The clipped regression target of the critic (lines 237-241). *)
Definition target_q (r_tensor q_next_value : Vec) : Res Vec :=
  res_bind (Np.add r_tensor (Np.scale (gamma (args self)) q_next_value))
    (fun target_q_value =>
       res_bind (py_div 1 (1 - gamma (args self)))
         (fun clip_return =>
            Ok (Np.clip target_q_value (- clip_return) 0))).

(** [network_updating()]. *)
Definition network_updating : M unit :=
  transitions <- sample (batch_size (args self)) ;;
  let og := _preproc_og (tr_obs transitions) (tr_g transitions) in
  let og_next := _preproc_og (tr_obs_next transitions) (tr_g transitions) in
  obs_norm <- normalize ONorm (fst og) ;;
  g_norm <- normalize GNorm (snd og) ;;
  inputs_norm <- lift (Np.concatenate1 obs_norm g_norm) ;;
  obs_next_norm <- normalize ONorm (fst og_next) ;;
  g_next_norm <- normalize GNorm (snd og_next) ;;
  inputs_next_norm <- lift (Np.concatenate1 obs_next_norm g_next_norm) ;;
  let actions_tensor := tr_actions transitions in
  let r_tensor := tr_r transitions in
  actions_next <- actor_call ActorTarget inputs_next_norm ;;
  q_next_value <- critic_call CriticTarget inputs_next_norm actions_next ;;
  target_q_value <- lift (target_q r_tensor q_next_value) ;;
  real_q_value <- critic_call Critic inputs_norm actions_tensor ;;
  _ <- lift (Np.sub target_q_value real_q_value) ;;
  let critic_loss := CriticLoss target_q_value real_q_value in
  actions_real <- actor_call Actor inputs_norm ;;
  _ <- critic_call Critic inputs_norm actions_real ;;
  let actor_loss := ActorLoss inputs_norm actions_real in
  zero_grad Actor ;;
  loss_backward actor_loss ;;
  sync_grads_call Actor ;;
  optim_step Actor ;;
  zero_grad Critic ;;
  loss_backward critic_loss ;;
  sync_grads_call Critic ;;
  optim_step Critic.

(** *** [evaluation()] *)

(** Loop-carried variables of a test rollout. *)
Record TestVars : Type := {
  tv_obs : Vec;
  tv_g : Vec;
  per_success_rate : Vec
}.

(** Body of the timestep loop (lines 272-281). *)
Definition test_step (_ : nat) (v : TestVars) : M TestVars :=
  input_tensor <- input_preprocessing (tv_obs v) (tv_g v) ;;
  pi <- actor_call Actor input_tensor ;;
  let actions := Np.squeeze pi in
  r <- step self actions ;;
  let observation_new := fst (fst (fst r)) in
  let info := snd r in
  ret {| tv_obs := observation observation_new;
         tv_g := desired_goal observation_new;
         per_success_rate := per_success_rate v ++ [is_success info] |}.

(** Body of the rollout loop (lines 267-282). *)
Definition test_rollout (_ : nat) (total_success_rate : Mat) : M Mat :=
  observation0 <- reset self ;;
  v <- for_range (max_timesteps (env_params self)) test_step
         {| tv_obs := observation observation0;
            tv_g := desired_goal observation0;
            per_success_rate := [] |} ;;
  ret (total_success_rate ++ [per_success_rate v]).

(** Lines 265-284: the worker's own success rate. *)
Definition local_success_rate : M Q :=
  total_success_rate <-
    for_range (n_test_rollouts (args self)) test_rollout [] ;;
  last <- lift (Np.column_m1 total_success_rate) ;;
  ret (Np.mean last).

(** Line 286, given the value the all-reduce delivered. *)
Definition global_rate (global_success_rate : Q) : Q :=
  global_success_rate / inject_Z (Zpos (Get_size self)).

Definition evaluation : M Q :=
  local <- local_success_rate ;;
  global_success_rate <- allreduce local ;;
  ret (global_rate global_success_rate).

(** *** [training()] *)

(** Loop-carried variables of a rollout. *)
Record RolloutVars : Type := {
  ep_obs : Mat;
  ep_ag : Mat;
  ep_g : Mat;
  ep_actions : Mat;
  rv_obs : Vec;
  rv_ag : Vec
}.

(** Body of the timestep loop (lines 78-93); [g] is fixed per episode. *)
Definition rollout_step (g : Vec) (_ : nat) (v : RolloutVars)
  : M RolloutVars :=
  input_tensor <- input_preprocessing (rv_obs v) g ;;
  pi <- actor_call Actor input_tensor ;;
  action <- _choose_actions pi ;;
  r <- step self action ;;
  let observation_new := fst (fst (fst r)) in
  let obs_new := observation observation_new in
  let ag_new := achieved_goal observation_new in
  ret {| ep_obs := ep_obs v ++ [rv_obs v];
         ep_ag := ep_ag v ++ [rv_ag v];
         ep_g := ep_g v ++ [g];
         ep_actions := ep_actions v ++ [action];
         rv_obs := obs_new;
         rv_ag := ag_new |}.

(** Lines 70-95: one episode. *)
Definition rollout : M RolloutVars :=
  observation0 <- reset self ;;
  let g := desired_goal observation0 in
  v <- for_range (max_timesteps (env_params self)) (rollout_step g)
         {| ep_obs := []; ep_ag := []; ep_g := []; ep_actions := [];
            rv_obs := observation observation0;
            rv_ag := achieved_goal observation0 |} ;;
  ret {| ep_obs := ep_obs v ++ [rv_obs v];
         ep_ag := ep_ag v ++ [rv_ag v];
         ep_g := ep_g v;
         ep_actions := ep_actions v;
         rv_obs := rv_obs v;
         rv_ag := rv_ag v |}.

(** Body of the rollout loop (lines 68-99). *)
Definition collect (_ : nat) (mb : EpisodeBatch) : M EpisodeBatch :=
  ep <- rollout ;;
  ret {| mb_obs := mb_obs mb ++ [ep_obs ep];
         mb_ag := mb_ag mb ++ [ep_ag ep];
         mb_g := mb_g mb ++ [ep_g ep];
         mb_actions := mb_actions mb ++ [ep_actions ep] |}.

(** Lines 67-104: the episode batch of one cycle. *)
Definition collect_rollouts : M EpisodeBatch :=
  for_range (num_rollouts_per_mpi (args self)) collect
    {| mb_obs := []; mb_ag := []; mb_g := []; mb_actions := [] |}.

(** Body of the cycle loop (lines 67-114). *)
Definition cycle (_ : nat) (_ : unit) : M unit :=
  mb <- collect_rollouts ;;
  store_episode mb ;;
  _update_normalizer mb ;;
  for_range (n_batches (args self)) (fun _ _ => network_updating) tt ;;
  _soft_update_target_network ActorTarget Actor ;;
  _soft_update_target_network CriticTarget Critic.

(** Body of the epoch loop (lines 66-121). *)
Definition epoch (_ : nat) (to_plot : Vec) : M Vec :=
  for_range (n_cycles (args self)) cycle tt ;;
  success_rate <- evaluation ;;
  if (Get_rank self =? 0)%nat
  then emit EvSaveModel ;; ret (to_plot ++ [success_rate])
  else ret to_plot.

(** [training()].  The module never imports [plt], so the plotting code of
    the coordinator raises. *)
Definition training : M unit :=
  _ <- for_range (n_epochs (args self)) epoch [] ;;
  if (Get_rank self =? 0)%nat then raise NameError else ret tt.

End Agent.

(** ** The cohort of workers

    Every MPI process runs the same program; collectives are the only points
    where the workers exchange data.  The constructor and the evaluation are
    given for the whole cohort, the coordinator (rank 0) first. *)

Section Cohort.

Context {C : Collaborators}.

Open Scope Q_scope.
Open Scope agent_scope.

Fixpoint mapM {A B : Type} (f : A -> Res B) (l : list A) : Res (list B) :=
  match l with
  | [] => Ok []
  | a :: l' =>
      res_bind (f a) (fun b => res_bind (mapM f l') (fun bs => Ok (b :: bs)))
  end.

Definition exec (m : M unit) (s : St) : Res St :=
  match m s with
  | Ok (_, s') => Ok s'
  | Raise e => Raise e
  end.

(** The object before [__init__] ran: every attribute is a placeholder
    that the constructor overwrites; the log is empty. *)
Definition blank (self : Config) (w : World) : St :=
  let none := {| parameters := []; grad := no_grads |} in
  let h := {| hs_replay_strategy := replay_strategy (args self);
              hs_replay_k := replay_k (args self);
              hs_reward_func := compute_reward (env self) |} in
  {| agent :=
       {| actor_network := none; critic_network := none;
          actor_target_network := none; critic_target_network := none;
          actor_optim := Adam 0; critic_optim := Adam 0;
          her_module := h;
          buffer := {| rb_storage := storage_new (env_params self) 0;
                       rb_sample_func := sample_her_transitions h |};
          o_norm := normalizer 0 0; g_norm := normalizer 0 0 |};
     world := w; trace := [] |}.

(** [actor(env_params)] / [critic(env_params)] assigned to attribute [i]. *)
Definition create (self : Config) (i : NetId) : M unit :=
  emit (EvCreateNet i) ;;
  p <- call (match i with
             | Actor | ActorTarget => actor (env_params self)
             | Critic | CriticTarget => critic (env_params self)
             end) ;;
  modify (set_net i {| parameters := p; grad := no_grads |}).

(** [dst.load_state_dict(src.state_dict())]. *)
Definition load_state_dict (dst src : NetId) : M unit :=
  emit (EvLoadStateDict dst src) ;;
  modify (fun s =>
    set_net dst (set_parameters (parameters (get_net src s)) (get_net dst s)) s).

(** Lines 21-23. *)
Definition init_online (self : Config) : M unit :=
  create self Actor ;;
  create self Critic.

(** Modelled from the spec: [sync_networks(net)] of from_baselines.mpi_utils
    is not part of the sources at hand.  The coordinator's parameter values
    are broadcast to all workers and overwrite their local parameters;
    [broadcast] is what one worker receives. *)
Definition broadcast (i : NetId) (coordinator s : St) : St :=
  {| agent :=
       set_net i
         (set_parameters (parameters (get_net i (agent coordinator)))
                         (get_net i (agent s)))
         (agent s);
     world := world s;
     trace := trace s ++ [EvSyncNetworks i] |}.

Definition sync_networks (i : NetId) (cohort : list St) : list St :=
  match cohort with
  | [] => []
  | coordinator :: _ => map (broadcast i coordinator) cohort
  end.

(** Lines 27-56. *)
Definition init_rest (self : Config) : M unit :=
  create self ActorTarget ;;
  create self CriticTarget ;;
  load_state_dict ActorTarget Actor ;;
  load_state_dict CriticTarget Critic ;;
  modify (set_optim Actor (Adam (lr_actor (args self)))) ;;
  modify (set_optim Critic (Adam (lr_critic (args self)))) ;;
  modify (set_her_module
            {| hs_replay_strategy := replay_strategy (args self);
               hs_replay_k := replay_k (args self);
               hs_reward_func := compute_reward (env self) |}) ;;
  modify (fun s =>
    set_buffer
      {| rb_storage := storage_new (env_params self) (buffer_size (args self));
         rb_sample_func := sample_her_transitions (her_module s) |} s) ;;
  modify (set_norm ONorm
            (normalizer (p_obs (env_params self)) (clip_range (args self)))) ;;
  modify (set_norm GNorm
            (normalizer (p_goal (env_params self)) (clip_range (args self)))) ;;
  if (Get_rank self =? 0)%nat then emit EvMakeDirs else ret tt.

(** [ddpg_agent.__init__] run by every worker of the cohort. *)
Definition __init__ (workers : list (Config * World)) : Res (list St) :=
  res_bind
    (mapM (fun cw => exec (init_online (fst cw)) (blank (fst cw) (snd cw)))
          workers)
    (fun online =>
       let synced := sync_networks Critic (sync_networks Actor online) in
       mapM (fun cs => exec (init_rest (fst (fst cs))) (snd cs))
            (combine workers synced)).

(** [MPI.COMM_WORLD.allreduce(v, op=MPI.SUM)] over the cohort: every worker
    contributes its value and every worker receives the sum. *)
Definition MPI_SUM (contributions : list Q) : Q := Np.sum contributions.

(** [evaluation()] run by every worker of the cohort: lines 265-284 are
    local, line 285 is the collective, line 286 is local again. *)
Definition evaluation_all (cohort : list (Config * St))
  : Res (list (Q * St)) :=
  res_bind
    (mapM (fun cs => local_success_rate (fst cs) (snd cs)) cohort)
    (fun locals =>
       let global_success_rate := MPI_SUM (map fst locals) in
       Ok (map (fun x =>
                  (global_rate (fst (fst x)) global_success_rate,
                   {| agent := agent (snd (snd x));
                      world := world (snd (snd x));
                      trace := trace (snd (snd x))
                                 ++ [EvAllreduce (fst (snd x))] |}))
               (combine cohort locals))).

End Cohort.

(** ** Vocabulary of the specifications *)

Section Vocabulary.

Context {C : Collaborators}.

Open Scope Q_scope.
Open Scope agent_scope.

(** Classes of logged calls. *)
Definition is_gradient_event (e : Event) : bool :=
  match e with
  | EvBackward _ | EvSyncGrads _ | EvOptimStep _ => true
  | _ => false
  end.

Definition is_norm_mutation (e : Event) : bool :=
  match e with
  | EvNormUpdate _ _ | EvNormRecompute _ => true
  | _ => false
  end.

Definition is_rollout_event (e : Event) : bool :=
  match e with
  | EvEnvReset | EvEnvStep _ _ _ _ | EvNormalize _ => true
  | _ => false
  end.

Definition is_update_event (e : Event) : bool :=
  match e with
  | EvBufferSample _ | EvNormalize _ | EvZeroGrad _ | EvBackward _
  | EvSyncGrads _ | EvOptimStep _ => true
  | _ => false
  end.

Definition is_buffer_sample (e : Event) : bool :=
  match e with
  | EvBufferSample _ => true
  | _ => false
  end.

Definition is_critic_backward (e : Event) : bool :=
  match e with
  | EvBackward (CriticLoss _ _) => true
  | _ => false
  end.

Definition no_event (_ : Event) : bool := false.

(** The [is_success] flags of the simulator steps in a log, in order. *)
Fixpoint step_flags (l : list Event) : Vec :=
  match l with
  | [] => []
  | EvEnvStep _ _ _ i :: l' => is_success i :: step_flags l'
  | _ :: l' => step_flags l'
  end.

(** The actions handed to [env.step] in a log, in order. *)
Fixpoint step_actions (l : list Event) : Mat :=
  match l with
  | [] => []
  | EvEnvStep a _ _ _ :: l' => a :: step_actions l'
  | _ :: l' => step_actions l'
  end.

(** The flags of the steps up to the next reset. *)
Fixpoint run_flags (l : list Event) : Vec :=
  match l with
  | [] => []
  | EvEnvReset :: _ => []
  | EvEnvStep _ _ _ i :: l' => is_success i :: run_flags l'
  | _ :: l' => run_flags l'
  end.

(** The episodes of a log: one list of step flags per reset. *)
Fixpoint episodes (l : list Event) : Mat :=
  match l with
  | [] => []
  | EvEnvReset :: l' => run_flags l' :: episodes l'
  | _ :: l' => episodes l'
  end.

(** The flag of the final timestep of an episode. *)
Definition final_flag (ep : Vec) : Q := last ep 0.

(** A logged call without its arguments. *)
Inductive Call : Type :=
| CSetup
| CReset
| CStep
| CStoreEpisode
| CSampleHer
| CNormUpdate (i : NormId)
| CNormRecompute (i : NormId)
| CNormalize (i : NormId)
| CBufferSample
| CZeroGrad (n : NetId)
| CBackward
| CSyncGrads (n : NetId)
| COptimStep (n : NetId)
| CAllreduce
| CSaveModel.

Definition call_of (e : Event) : Call :=
  match e with
  | EvCreateNet _ | EvSyncNetworks _ | EvLoadStateDict _ _ | EvMakeDirs =>
      CSetup
  | EvEnvReset => CReset
  | EvEnvStep _ _ _ _ => CStep
  | EvStoreEpisode _ => CStoreEpisode
  | EvSampleHer _ _ => CSampleHer
  | EvNormUpdate i _ => CNormUpdate i
  | EvNormRecompute i => CNormRecompute i
  | EvNormalize i => CNormalize i
  | EvBufferSample _ => CBufferSample
  | EvZeroGrad n => CZeroGrad n
  | EvBackward _ => CBackward
  | EvSyncGrads n => CSyncGrads n
  | EvOptimStep n => COptimStep n
  | EvAllreduce _ => CAllreduce
  | EvSaveModel => CSaveModel
  end.

Definition NormId_eq_dec (a b : NormId) : {a = b} + {a <> b}.
Proof. decide equality. Defined.

Definition NetId_eq_dec (a b : NetId) : {a = b} + {a <> b}.
Proof. decide equality. Defined.

Definition Call_eq_dec (a b : Call) : {a = b} + {a <> b}.
Proof.
  decide equality; first [apply NormId_eq_dec | apply NetId_eq_dec].
Defined.

(** How often a call occurs in a log. *)
Definition calls (c : Call) (l : list Event) : nat :=
  count_occ Call_eq_dec (map call_of l) c.

(** [k] repeated [n] times. *)
Definition times {A : Type} (n : nat) (k : list A) : list A :=
  concat (repeat k n).

(** The calls of one episode of [T] timesteps: a reset, then per timestep
    the two normalizations of the input and the step. *)
Definition episode_calls (T : nat) : list Call :=
  CReset :: times T [CNormalize ONorm; CNormalize GNorm; CStep].

(** The calls of [network_updating]. *)
Definition update_calls : list Call :=
  [CBufferSample;
   CNormalize ONorm; CNormalize GNorm; CNormalize ONorm; CNormalize GNorm;
   CZeroGrad Actor; CBackward; CSyncGrads Actor; COptimStep Actor;
   CZeroGrad Critic; CBackward; CSyncGrads Critic; COptimStep Critic].

(** The calls of one cycle, one evaluation, one epoch and of all epochs of
    [training], as the hyperparameters fix them. *)
Definition cycle_calls (self : Config) : list Call :=
  times (num_rollouts_per_mpi (args self))
        (episode_calls (max_timesteps (env_params self)))
  ++ [CStoreEpisode; CSampleHer; CNormUpdate ONorm; CNormUpdate GNorm;
      CNormRecompute ONorm; CNormRecompute GNorm]
  ++ times (n_batches (args self)) update_calls.

Definition evaluation_calls (self : Config) : list Call :=
  times (n_test_rollouts (args self))
        (episode_calls (max_timesteps (env_params self)))
  ++ [CAllreduce].

Definition epoch_calls (self : Config) : list Call :=
  times (n_cycles (args self)) (cycle_calls self)
  ++ evaluation_calls self
  ++ (if (Get_rank self =? 0)%nat then [CSaveModel] else []).

Definition training_calls (self : Config) : list Call :=
  times (n_epochs (args self)) (epoch_calls self).

(** A parameter tensor as [copy_] sees it against a destination of [n]
    entries: a one-entry tensor is stretched. *)
Definition stretch (p : Vec) (n : nat) : Vec :=
  match p with
  | [x] => repeat x n
  | _ => p
  end.

(** What remains of a log once the reward and the done flag returned by
    [env.step] are blanked. *)
Definition erase_reward (e : Event) : Event :=
  match e with
  | EvEnvStep a _ _ i => EvEnvStep a 0 false i
  | _ => e
  end.

(** Two workers that differ at most in the rewards and done flags their
    simulators returned. *)
Definition same_but_rewards (s1 s2 : St) : Prop :=
  agent s1 = agent s2 /\ world s1 = world s2 /\
  map erase_reward (trace s1) = map erase_reward (trace s2).

(** Outcomes that differ at most in those rewards: both runs return, with
    values related by [R], or both raise the same exception. *)
Definition outcomes_agree {A : Type} (R : A -> A -> Prop)
  (r1 r2 : Res (A * St)) : Prop :=
  match r1, r2 with
  | Ok (a1, t1), Ok (a2, t2) => R a1 a2 /\ same_but_rewards t1 t2
  | Raise e1, Raise e2 => e1 = e2
  | _, _ => False
  end.

Definition same_outcome {A : Type} (r1 r2 : Res (A * St)) : Prop :=
  outcomes_agree eq r1 r2.

(** The same agent configuration on a simulator with another [step]. *)
Definition with_step
  (step' : Vec -> World -> (Observation * Q * bool * Info) * World)
  (self : Config) : Config :=
  {| args := args self;
     env := {| env_reset := env_reset (env self);
               env_step := step';
               compute_reward := compute_reward (env self) |};
     env_params := env_params self;
     Get_rank := Get_rank self;
     Get_size := Get_size self |}.

(** Two [step] functions that agree on everything but the reward and the
    done flag. *)
Definition steps_agree
  (f g : Vec -> World -> (Observation * Q * bool * Info) * World) : Prop :=
  forall a w,
    fst (fst (fst (fst (f a w)))) = fst (fst (fst (fst (g a w)))) /\
    snd (fst (f a w)) = snd (fst (g a w)) /\
    snd (f a w) = snd (g a w).

(** The operations of the agent other than [_update_normalizer]. *)
Inductive Method : Type :=
| m_input_preprocessing (obs g : Vec)
| m_choose_actions (pi : Mat)
| m_soft_update_target_network (target source : NetId)
| m_network_updating
| m_evaluation
| m_collect_rollouts
| m_store_episode (b : EpisodeBatch).

Definition done {A : Type} (m : M A) : M unit := _ <- m ;; ret tt.

Definition invoke (self : Config) (m : Method) : M unit :=
  match m with
  | m_input_preprocessing obs g => done (input_preprocessing obs g)
  | m_choose_actions pi => done (_choose_actions self pi)
  | m_soft_update_target_network t s => _soft_update_target_network self t s
  | m_network_updating => network_updating self
  | m_evaluation => done (evaluation self)
  | m_collect_rollouts => done (collect_rollouts self)
  | m_store_episode b => store_episode b
  end.

(** The contract of numpy's generator used by [_choose_actions]:
    [uniform(low, high)] draws within the range and [binomial(n, p)]
    counts at most [n] successes. *)
Definition generator_contract : Prop :=
  (forall lo hi w, lo <= hi ->
     lo <= fst (uniform lo hi w) /\ fst (uniform lo hi w) <= hi) /\
  (forall n p w, (fst (binomial n p w) <= n)%nat).

(** The cohort agrees on its own size. *)
Definition coherent (cohort : list (Config * St)) : Prop :=
  Forall (fun cs => Pos.to_nat (Get_size (fst cs)) = length cohort) cohort.

End Vocabulary.

(** ** Predicates of the invariants

    What the lemmas below say about logs, attributes and intermediate
    values of the methods. *)

Section Predicates.

Context {C : Collaborators}.

Variable self : Config.

Open Scope Q_scope.
Open Scope agent_scope.

(** Every call logged by [m] is of class [P]. *)
Definition emits (P : Event -> bool) {A : Type} (m : M A) : Prop :=
  forall s a s', m s = Ok (a, s') ->
    exists l, trace s' = trace s ++ l /\ forallb P l = true.

(** [m] does not change the attribute read by [f]. *)
Definition keeps {X : Type} (f : Agent -> X) {A : Type} (m : M A) : Prop :=
  forall s a s', m s = Ok (a, s') -> f (agent s') = f (agent s).

(** The parameters and optimizer states of the online networks. *)
Definition learner (a : Agent) : Params * Params * OptimState * OptimState :=
  (parameters (actor_network a), parameters (critic_network a),
   actor_optim a, critic_optim a).

(** The blend of one pair of parameter tensors. *)
Definition blended (tp p np : Vec) : Prop :=
  length np = length tp /\
  forall j, (j < length tp)%nat ->
    nth j np 0 ==
    polyak (args self) * nth j tp 0 +
    (1 - polyak (args self)) * nth j (stretch p (length tp)) 0.

(** Values between [-m] and [m]. *)
Definition within (m x : Q) : Prop := - m <= x /\ x <= m.

(** After [j] timesteps the four sequences of the episode have [j]
    entries each. *)
Definition steps_collected (j : nat) (v : RolloutVars) : Prop :=
  length (ep_obs v) = j /\ length (ep_ag v) = j /\
  length (ep_g v) = j /\ length (ep_actions v) = j.

(** After [j] rollouts the batch holds [j] episodes of the right shape. *)
Definition episodes_collected (j : nat) (mb : EpisodeBatch) : Prop :=
  let T := max_timesteps (env_params self) in
  (length (mb_obs mb) = j /\ length (mb_ag mb) = j /\
   length (mb_g mb) = j /\ length (mb_actions mb) = j) /\
  Forall (fun ep => length ep = S T) (mb_obs mb) /\
  Forall (fun ep => length ep = S T) (mb_ag mb) /\
  Forall (fun ep => length ep = T) (mb_g mb) /\
  Forall (fun ep => length ep = T) (mb_actions mb).

(** [buffer_temp] as [_update_normalizer] builds it from the batch. *)
Definition buffer_temp_of (mb : EpisodeBatch) (bt : BufferTemp) : Prop :=
  bt_obs bt = mb_obs mb /\ bt_ag bt = mb_ag mb /\ bt_g bt = mb_g mb /\
  bt_actions bt = mb_actions mb /\
  Np.slice_from1 (mb_obs mb) = Ok (bt_obs_next bt) /\
  Np.slice_from1 (mb_ag mb) = Ok (bt_ag_next bt).

(** Any call but a mutation of a normalizer. *)
Definition not_norm_mutation (e : Event) : bool := negb (is_norm_mutation e).

(** The state of a worker after lines 21-23. *)
Definition online_of (c : Config) (w : World) (s : St) : Prop :=
  parameters (actor_network (agent s)) = fst (actor (env_params c) w) /\
  parameters (critic_network (agent s)) =
    fst (critic (env_params c) (snd (actor (env_params c) w))) /\
  trace s = [EvCreateNet Actor; EvCreateNet Critic].

(** What the rest of the constructor (lines 27-56) leaves behind, given the
    state the two [sync_networks] calls produced. *)
Definition constructed (c : Config) (s s' : St) : Prop :=
  parameters (actor_network (agent s')) =
    parameters (actor_network (agent s)) /\
  parameters (critic_network (agent s')) =
    parameters (critic_network (agent s)) /\
  parameters (actor_target_network (agent s')) =
    parameters (actor_network (agent s)) /\
  parameters (critic_target_network (agent s')) =
    parameters (critic_network (agent s)) /\
  rb_sample_func (buffer (agent s')) =
    sample_her_transitions (her_module (agent s')) /\
  trace s' =
    trace s ++
    [EvCreateNet ActorTarget; EvCreateNet CriticTarget;
     EvLoadStateDict ActorTarget Actor; EvLoadStateDict CriticTarget Critic]
    ++ (if (Get_rank c =? 0)%nat then [EvMakeDirs] else []).

(** The trace of a worker whose constructor returned. *)
Definition constructor_log (c : Config) : list Event :=
  [EvCreateNet Actor; EvCreateNet Critic;
   EvSyncNetworks Actor; EvSyncNetworks Critic;
   EvCreateNet ActorTarget; EvCreateNet CriticTarget;
   EvLoadStateDict ActorTarget Actor; EvLoadStateDict CriticTarget Critic]
  ++ (if (Get_rank c =? 0)%nat then [EvMakeDirs] else []).

(** A worker constructed in a cohort whose coordinator is [(c0, w0)]. *)
Definition started (c0 : Config) (w0 : World) (cw : Config * World) (s : St)
  : Prop :=
  parameters (actor_network (agent s)) = fst (actor (env_params c0) w0) /\
  parameters (critic_network (agent s)) =
    fst (critic (env_params c0) (snd (actor (env_params c0) w0))) /\
  parameters (actor_target_network (agent s)) =
    parameters (actor_network (agent s)) /\
  parameters (critic_target_network (agent s)) =
    parameters (critic_network (agent s)) /\
  rb_sample_func (buffer (agent s)) =
    sample_her_transitions (her_module (agent s)) /\
  trace s = constructor_log (fst cw).

(** The sampling callback of the buffer is the relabeling function of the
    agent's [her_module]. *)
Definition wired (s : St) : Prop :=
  rb_sample_func (buffer (agent s)) =
  sample_her_transitions (her_module (agent s)).

(** The sampling function the buffer holds. *)
Definition callback (a : Agent) := rb_sample_func (buffer a).

(** The calls of [env.reset()]. *)
Definition is_reset (e : Event) : bool :=
  match e with
  | EvEnvReset => true
  | _ => false
  end.

(** A stretch of log within one episode. *)
Definition no_reset (l : list Event) : Prop :=
  forallb (fun e => negb (is_reset e)) l = true.

(** Two computations that, started on workers that differ at most in the
    simulator's rewards, end on such workers again. *)
Definition sim {A : Type} (R : A -> A -> Prop) (m1 m2 : M A) : Prop :=
  forall s1 s2, same_but_rewards s1 s2 -> outcomes_agree R (m1 s1) (m2 s2).

(** What the callers of [env.step] read of its result. *)
Definition same_but_reward (r1 r2 : Observation * Q * bool * Info) : Prop :=
  fst (fst (fst r1)) = fst (fst (fst r2)) /\ snd r1 = snd r2.

(** The output of the online actor on a normalized observation and goal. *)
Definition greedy (a : Agent) (action : Vec) : Prop :=
  exists obs g,
    action =
      actor_forward (parameters (actor_network a))
        (norm_normalize (o_norm a) obs ++ norm_normalize (g_norm a) g).

End Predicates.

(** ** A small concrete cohort

    Collaborators simple enough to run the agent by computation: the world
    is a step counter, the networks have one parameter tensor, the actor
    proposes an out-of-range action, the sampler returns one transition. *)

Module Toy.

Open Scope Q_scope.

Definition transition (h : her_sampler) : Transitions :=
  {| tr_obs := [[5]]; tr_obs_next := [[1 # 2]];
     tr_ag := [[0]]; tr_ag_next := [[0]];
     tr_g := [[1]]; tr_actions := [[0; 0]];
     tr_r := [hs_reward_func h [0] [1]] |}.

Definition raw : BufferTemp :=
  {| bt_obs := []; bt_ag := []; bt_g := []; bt_actions := [];
     bt_obs_next := []; bt_ag_next := [] |}.

#[export] Instance collaborators : Collaborators :=
  {| World := nat;
     OptimState := nat;
     Grads := nat;
     NormState := nat;
     Storage := nat;
     randn := fun w => (1 # 4, S w);
     uniform := fun lo hi w => (if Nat.even w then lo else hi, S w);
     binomial := fun n _ w => (Nat.min n (Nat.modulo w 2), S w);
     actor := fun _ w => ([[inject_Z (Z.of_nat w); 1]], S w);
     critic := fun _ w => ([[inject_Z (Z.of_nat w)]], S w);
     actor_forward := fun _ _ => [3; - (3)];
     critic_forward := fun _ _ _ => 2;
     no_grads := O;
     backward := fun _ _ _ ga gc => (S ga, S gc);
     Adam := fun _ => O;
     adam_step := fun o p g => (p, (o + g)%nat);
     sync_grads := fun g w => (g, S w);
     allreduce_SUM := fun v w => (v, S w);
     normalizer := fun _ _ => O;
     norm_update := fun n _ => S n;
     norm_recompute_stats := fun n w => (S n, w);
     norm_normalize := fun _ x => x;
     sample_her_transitions := fun h _ _ w => (transition h, S w);
     storage_new := fun _ _ => O;
     storage_store := fun s _ => S s;
     storage_draw := fun s _ w => (match s with O => None | S _ => Some raw end, S w) |}.

(** A simulator whose [step] returns the reward [r] and the flag [d]. *)
Definition simulator (r : Q) (d : bool) : Env :=
  {| env_reset := fun w =>
       ({| observation := [0]; achieved_goal := [0]; desired_goal := [1] |},
        S w);
     env_step := fun a w =>
       (({| observation := [inject_Z (Z.of_nat w)];
            achieved_goal := a;
            desired_goal := [1] |},
         r, d, {| is_success := inject_Z (Z.of_nat (Nat.modulo w 2)) |}),
        S w);
     compute_reward := fun _ _ => - (1) |}.

Definition arguments : Args :=
  {| n_epochs := 1; n_cycles := 1; num_rollouts_per_mpi := 2;
     n_batches := 2; batch_size := 1; n_test_rollouts := 2;
     buffer_size := 10;
     replay_strategy := String.EmptyString; replay_k := 4;
     noise_eps := 1 # 5; random_eps := 3 # 10;
     clip_obs := 2; clip_range := 5;
     polyak := 19 # 20; gamma := 49 # 50; action_l2 := 1;
     lr_actor := 1 # 1000; lr_critic := 1 # 1000;
     cuda := false |}.

Definition parameters_of_env : EnvParams :=
  {| p_obs := 1; p_goal := 1; p_action := 2; action_max := 1;
     max_timesteps := 3 |}.

Definition worker (rank : nat) (r : Q) (d : bool) : Config :=
  {| args := arguments; env := simulator r d;
     env_params := parameters_of_env;
     Get_rank := rank; Get_size := 2 |}.

(** A cohort of two workers. *)
Definition workers : list (Config * World) :=
  [(worker 0 (- (1)) false, 0%nat); (worker 1 (- (1)) false, 7%nat)].

(** The state of a computation that returned, the given state otherwise. *)
Definition after {A : Type} (m : M A) (s : St) : St :=
  match m s with
  | Ok (_, s') => s'
  | Raise _ => s
  end.

Definition value {A : Type} (d : A) (m : M A) (s : St) : A :=
  match m s with
  | Ok (a, _) => a
  | Raise _ => d
  end.

Definition built : list St :=
  match __init__ workers with
  | Ok sts => sts
  | Raise _ => []
  end.

(** The coordinator right after construction. *)
Definition start : St := nth 0 built (blank (worker 0 0 false) 0%nat).

(** The other worker right after construction. *)
Definition peer : St := nth 1 built (blank (worker 1 0 false) 0%nat).

(** The coordinator after one training cycle. *)
Definition trained : St := after (cycle (worker 0 (- (1)) false) 0 tt) start.

(** The coordinator once its online actor has moved away from the
    target. *)
Definition drifted : St :=
  {| agent := set_net Actor {| parameters := [[10; 20]]; grad := no_grads |}
                      (agent trained);
     world := world trained;
     trace := trace trained |}.

(** The constructed cohort and what its evaluation returns. *)
Definition cohort : list (Config * St) := combine (map fst workers) built.

Definition evaluated : list (Q * St) :=
  match evaluation_all cohort with
  | Ok results => results
  | Raise _ => []
  end.

(** Other settings of the same worker. *)
Definition arguments_with (polyak' gamma' : Q) (rollouts tests : nat) : Args :=
  {| n_epochs := 2; n_cycles := 1; num_rollouts_per_mpi := rollouts;
     n_batches := 2; batch_size := 1; n_test_rollouts := tests;
     buffer_size := 10;
     replay_strategy := String.EmptyString; replay_k := 4;
     noise_eps := 1 # 5; random_eps := 3 # 10;
     clip_obs := 2; clip_range := 5;
     polyak := polyak'; gamma := gamma'; action_l2 := 1;
     lr_actor := 1 # 1000; lr_critic := 1 # 1000;
     cuda := false |}.

Definition parameters_with (T : nat) : EnvParams :=
  {| p_obs := 1; p_goal := 1; p_action := 2; action_max := 1;
     max_timesteps := T |}.

Definition config (a : Args) (p : EnvParams) (rank : nat) : Config :=
  {| args := a; env := simulator (- (1)) false; env_params := p;
     Get_rank := rank; Get_size := 2 |}.

End Toy.

(** * Verification *)

(** ** Runs that return *)

Section Monad_facts.

Context {C : Collaborators}.

Lemma bind_ok {A B : Type} (m : M A) (k : A -> M B) s b s' :
  bind m k s = Ok (b, s') ->
  exists a s1, m s = Ok (a, s1) /\ k a s1 = Ok (b, s').
Proof.
  unfold bind. destruct (m s) as [[a s1]|e]; [eauto | discriminate].
Qed.

Lemma ret_ok {A : Type} (a b : A) s s' :
  ret a s = Ok (b, s') -> b = a /\ s' = s.
Proof. unfold ret. intros H. inversion H. auto. Qed.

Lemma lift_ok {A : Type} (r : Res A) a s s' :
  lift r s = Ok (a, s') -> r = Ok a /\ s' = s.
Proof. unfold lift. destruct r; intros H; inversion H. auto. Qed.

Lemma gets_ok {A : Type} (f : Agent -> A) a s s' :
  gets f s = Ok (a, s') -> a = f (agent s) /\ s' = s.
Proof. unfold gets. intros H. inversion H. auto. Qed.

Lemma modify_ok (f : Agent -> Agent) u s s' :
  modify f s = Ok (u, s') ->
  agent s' = f (agent s) /\ world s' = world s /\ trace s' = trace s.
Proof. unfold modify. intros H. inversion H. auto. Qed.

Lemma emit_ok e u s s' :
  emit e s = Ok (u, s') ->
  agent s' = agent s /\ world s' = world s /\ trace s' = trace s ++ [e].
Proof. unfold emit. intros H. inversion H. auto. Qed.

Lemma call_ok {A : Type} (f : World -> A * World) a s s' :
  call f s = Ok (a, s') ->
  a = fst (f (world s)) /\ agent s' = agent s /\
  world s' = snd (f (world s)) /\ trace s' = trace s.
Proof. unfold call. destruct (f (world s)). intros H. inversion H. auto. Qed.

Lemma res_bind_ok {A B : Type} (r : Res A) (k : A -> Res B) b :
  res_bind r k = Ok b -> exists a, r = Ok a /\ k a = Ok b.
Proof. destruct r; simpl; [eauto | discriminate]. Qed.

End Monad_facts.

(** Symbolic execution of a run that returned: every step leaves what it did
    to the agent, the world and the log as hypotheses about the state it
    produced. *)
Ltac run_step :=
  match goal with
  | H : bind _ _ _ = Ok _ |- _ =>
      let a := fresh "a" in
      let s := fresh "s" in
      let Hm := fresh "Hm" in
      apply bind_ok in H; destruct H as (a & s & Hm & H)
  | H : ret _ _ = Ok _ |- _ => apply ret_ok in H; destruct H; subst
  | H : lift _ _ = Ok _ |- _ => apply lift_ok in H; destruct H as [H ?]; subst
  | H : gets _ _ = Ok _ |- _ => apply gets_ok in H; destruct H; subst
  | H : modify _ _ = Ok _ |- _ =>
      apply modify_ok in H; destruct H as (? & ? & ?)
  | H : emit _ _ = Ok _ |- _ => apply emit_ok in H; destruct H as (? & ? & ?)
  | H : call _ _ = Ok _ |- _ =>
      apply call_ok in H; destruct H as (? & ? & ? & ?); subst
  | H : raise _ _ = Ok _ |- _ => discriminate H
  end.

Ltac run := repeat run_step.

(** Express the log of a later state through the state the run began with. *)
Ltac back_trace :=
  repeat match goal with
         | H : trace ?s = _ |- context [trace ?s] => rewrite H
         end;
  repeat rewrite <- app_assoc; simpl.

Ltac back_agent :=
  repeat match goal with
         | H : agent ?s = _ |- context [agent ?s] => rewrite H
         end.

(** ** What a method logs and what it leaves alone *)

Section Judgements.

Context {C : Collaborators}.

Open Scope agent_scope.

Variable P : Event -> bool.

Lemma emits_silent {A : Type} (m : M A) :
  (forall s a s', m s = Ok (a, s') -> trace s' = trace s) -> emits P m.
Proof.
  intros H s a s' E. exists []. rewrite app_nil_r. split; [eauto | reflexivity].
Qed.

Lemma emits_ret {A : Type} (a : A) : emits P (ret a).
Proof. apply emits_silent. intros. run. reflexivity. Qed.

Lemma emits_lift {A : Type} (r : Res A) : emits P (lift r).
Proof. apply emits_silent. intros. run. reflexivity. Qed.

Lemma emits_raise {A : Type} e : emits P (@raise _ A e).
Proof. apply emits_silent. intros. run. Qed.

Lemma emits_gets {A : Type} (f : Agent -> A) : emits P (gets f).
Proof. apply emits_silent. intros. run. reflexivity. Qed.

Lemma emits_modify f : emits P (modify f).
Proof. apply emits_silent. intros. run. assumption. Qed.

Lemma emits_call {A : Type} (f : World -> A * World) : emits P (call f).
Proof. apply emits_silent. intros. run. assumption. Qed.

Lemma emits_emit e : P e = true -> emits P (emit e).
Proof.
  intros HP s a s' E. run. exists [e]. split; [assumption | simpl; now rewrite HP].
Qed.

Lemma emits_bind {A B : Type} (m : M A) (k : A -> M B) :
  emits P m -> (forall a, emits P (k a)) -> emits P (bind m k).
Proof.
  intros Hm Hk s b s' E. run.
  destruct (Hm _ _ _ Hm0) as (l1 & E1 & F1).
  destruct (Hk _ _ _ _ E) as (l2 & E2 & F2).
  exists (l1 ++ l2). rewrite E2, E1, app_assoc. split; [reflexivity|].
  rewrite forallb_app, F1, F2. reflexivity.
Qed.

Lemma emits_for_from {S : Type} (body : nat -> S -> M S) n :
  (forall i v, emits P (body i v)) ->
  forall i v, emits P (for_from i n body v).
Proof.
  intros Hb. induction n as [|n IH]; intros i v; simpl.
  - apply emits_ret.
  - apply emits_bind; [apply Hb | intros; apply IH].
Qed.

Lemma emits_draws n d : emits P (draws n d).
Proof.
  induction n as [|n IH]; simpl.
  - apply emits_ret.
  - apply emits_bind; [apply emits_call|]. intros.
    apply emits_bind; [apply IH|]. intros. apply emits_ret.
Qed.

Variable X : Type.
Variable f : Agent -> X.

Lemma keeps_still {A : Type} (m : M A) :
  (forall s a s', m s = Ok (a, s') -> agent s' = agent s) -> keeps f m.
Proof. intros H s a s' E. now rewrite (H _ _ _ E). Qed.

Lemma keeps_ret {A : Type} (a : A) : keeps f (ret a).
Proof. apply keeps_still. intros. run. reflexivity. Qed.

Lemma keeps_lift {A : Type} (r : Res A) : keeps f (lift r).
Proof. apply keeps_still. intros. run. reflexivity. Qed.

Lemma keeps_raise {A : Type} e : keeps f (@raise _ A e).
Proof. apply keeps_still. intros. run. Qed.

Lemma keeps_gets {A : Type} (g : Agent -> A) : keeps f (gets g).
Proof. apply keeps_still. intros. run. reflexivity. Qed.

Lemma keeps_emit e : keeps f (emit e).
Proof. apply keeps_still. intros. run. assumption. Qed.

Lemma keeps_call {A : Type} (g : World -> A * World) : keeps f (call g).
Proof. apply keeps_still. intros. run. assumption. Qed.

Lemma keeps_modify g : (forall a, f (g a) = f a) -> keeps f (modify g).
Proof. intros H s a s' E. run. now rewrite H0. Qed.

Lemma keeps_bind {A B : Type} (m : M A) (k : A -> M B) :
  keeps f m -> (forall a, keeps f (k a)) -> keeps f (bind m k).
Proof.
  intros Hm Hk s b s' E. run.
  rewrite (Hk _ _ _ _ E). eapply Hm; eassumption.
Qed.

Lemma keeps_for_from {S : Type} (body : nat -> S -> M S) n :
  (forall i v, keeps f (body i v)) ->
  forall i v, keeps f (for_from i n body v).
Proof.
  intros Hb. induction n as [|n IH]; intros i v; simpl.
  - apply keeps_ret.
  - apply keeps_bind; [apply Hb | intros; apply IH].
Qed.

Lemma keeps_draws n d : keeps f (draws n d).
Proof.
  induction n as [|n IH]; simpl.
  - apply keeps_ret.
  - apply keeps_bind; [apply keeps_call|]. intros.
    apply keeps_bind; [apply IH|]. intros. apply keeps_ret.
Qed.

End Judgements.

Lemma emits_weaken {C : Collaborators} (P Q : Event -> bool) {A : Type} (m : M A) :
  (forall e, P e = true -> Q e = true) -> emits P m -> emits Q m.
Proof.
  intros HPQ Hm s a s' E. destruct (Hm _ _ _ E) as (l & El & Fl).
  exists l. split; [assumption|].
  rewrite forallb_forall in *. auto.
Qed.

Ltac emits_step :=
  first
    [ apply emits_ret | apply emits_lift | apply emits_raise | apply emits_gets
    | apply emits_modify | apply emits_call | apply emits_draws
    | apply emits_emit; reflexivity
    | apply emits_bind; [| intros ?]
    | apply emits_for_from; intros ? ? ].

Ltac keeps_step :=
  first
    [ apply keeps_ret | apply keeps_lift | apply keeps_raise | apply keeps_gets
    | apply keeps_emit | apply keeps_call | apply keeps_draws
    | apply keeps_bind; [| intros ?]
    | apply keeps_for_from; intros ? ? ].

(** ** The calls of each method *)

Section Method_logs.

Context {C : Collaborators}.

Variable self : Config.

Open Scope agent_scope.

Lemma emits_input_preprocessing obs g :
  emits is_rollout_event (input_preprocessing obs g).
Proof. unfold input_preprocessing, normalize1. repeat emits_step. Qed.

Lemma emits_actor_call P i x : emits P (actor_call i x).
Proof. unfold actor_call. repeat emits_step. Qed.

Lemma emits_critic_call P i x a : emits P (critic_call i x a).
Proof. unfold critic_call. repeat emits_step. Qed.

Lemma emits_choose_actions P pi : emits P (_choose_actions self pi).
Proof. unfold _choose_actions. cbv zeta. repeat emits_step. Qed.

Lemma emits_step_call a : emits is_rollout_event (step self a).
Proof. unfold step. repeat emits_step. Qed.

Lemma emits_reset : emits is_rollout_event (reset self).
Proof. unfold reset. repeat emits_step. Qed.

Lemma emits_collect_rollouts : emits is_rollout_event (collect_rollouts self).
Proof.
  unfold collect_rollouts, for_range, collect, rollout, for_range, rollout_step.
  cbv zeta.
  repeat first [ apply emits_input_preprocessing | apply emits_actor_call
               | apply emits_choose_actions | apply emits_step_call
               | apply emits_reset | emits_step ].
Qed.

Lemma emits_local_success_rate :
  emits is_rollout_event (local_success_rate self).
Proof.
  unfold local_success_rate, for_range, test_rollout, for_range, test_step.
  cbv zeta.
  repeat first [ apply emits_input_preprocessing | apply emits_actor_call
               | apply emits_step_call | apply emits_reset | emits_step ].
Qed.

Lemma emits_sample n : emits is_update_event (sample n).
Proof.
  unfold sample. repeat emits_step.
  match goal with |- context [match ?x with _ => _ end] => destruct x end;
    emits_step.
Qed.

Lemma emits_network_updating : emits is_update_event (network_updating self).
Proof.
  unfold network_updating, normalize, zero_grad, loss_backward,
    sync_grads_call, optim_step.
  cbv zeta.
  repeat first [ apply emits_sample | apply emits_actor_call
               | apply emits_critic_call | emits_step ].
Qed.

Lemma emits_soft_update P t s :
  emits P (_soft_update_target_network self t s).
Proof. unfold _soft_update_target_network. repeat emits_step. Qed.

(** *** Attributes left alone *)

Variable X : Type.
Variable f : Agent -> X.

Hypothesis f_net : forall i n a, f (set_net i n a) = f a.
Hypothesis f_optim : forall i o a, f (set_optim i o a) = f a.

Lemma keeps_input_preprocessing obs g : keeps f (input_preprocessing obs g).
Proof. unfold input_preprocessing, normalize1. repeat keeps_step. Qed.

Lemma keeps_actor_call i x : keeps f (actor_call i x).
Proof. unfold actor_call. repeat keeps_step. Qed.

Lemma keeps_critic_call i x a : keeps f (critic_call i x a).
Proof. unfold critic_call. repeat keeps_step. Qed.

Lemma keeps_choose_actions pi : keeps f (_choose_actions self pi).
Proof. unfold _choose_actions. cbv zeta. repeat keeps_step. Qed.

Lemma keeps_step_call a : keeps f (step self a).
Proof. unfold step. repeat keeps_step. Qed.

Lemma keeps_reset : keeps f (reset self).
Proof. unfold reset. repeat keeps_step. Qed.

Lemma keeps_collect_rollouts : keeps f (collect_rollouts self).
Proof.
  unfold collect_rollouts, for_range, collect, rollout, for_range, rollout_step.
  cbv zeta.
  repeat first [ apply keeps_input_preprocessing | apply keeps_actor_call
               | apply keeps_choose_actions | apply keeps_step_call
               | apply keeps_reset | keeps_step ].
Qed.

Lemma keeps_local_success_rate : keeps f (local_success_rate self).
Proof.
  unfold local_success_rate, for_range, test_rollout, for_range, test_step.
  cbv zeta.
  repeat first [ apply keeps_input_preprocessing | apply keeps_actor_call
               | apply keeps_step_call | apply keeps_reset | keeps_step ].
Qed.

Lemma keeps_evaluation : keeps f (evaluation self).
Proof.
  unfold evaluation, allreduce.
  repeat first [ apply keeps_local_success_rate | keeps_step ].
Qed.

Lemma keeps_sample n : keeps f (sample n).
Proof.
  unfold sample. repeat keeps_step.
  match goal with |- context [match ?x with _ => _ end] => destruct x end;
    keeps_step.
Qed.

Lemma keeps_network_updating : keeps f (network_updating self).
Proof.
  unfold network_updating, normalize, zero_grad, loss_backward,
    sync_grads_call, optim_step.
  cbv zeta.
  repeat first [ apply keeps_sample | apply keeps_actor_call
               | apply keeps_critic_call | keeps_step
               | apply keeps_modify; intros ?;
                 repeat match goal with
                        | |- context [let (_, _) := ?x in _] => destruct x
                        end;
                 now rewrite ?f_optim, ?f_net ].
Qed.

Lemma keeps_soft_update t s : keeps f (_soft_update_target_network self t s).
Proof.
  unfold _soft_update_target_network.
  repeat first [ keeps_step | apply keeps_modify; intros ?; now rewrite f_net ].
Qed.

End Method_logs.

(** ** Claims about [network_updating] *)

Section Network_updating.

Context {C : Collaborators}.

Open Scope agent_scope.

Lemma zero_grad_ok i s s' u :
  zero_grad i s = Ok (u, s') ->
  trace s' = trace s ++ [EvZeroGrad i] /\
  (i = Actor \/ i = Critic -> learner (agent s') = learner (agent s)).
Proof.
  unfold zero_grad. intros H. run. split; [back_trace; reflexivity|].
  back_agent. intros [-> | ->]; reflexivity.
Qed.

Lemma loss_backward_ok l s s' u :
  loss_backward l s = Ok (u, s') ->
  trace s' = trace s ++ [EvBackward l] /\
  learner (agent s') = learner (agent s).
Proof.
  unfold loss_backward. intros H. run. split; [back_trace; reflexivity|].
  back_agent. reflexivity.
Qed.

Lemma sync_grads_call_ok i s s' u :
  sync_grads_call i s = Ok (u, s') ->
  trace s' = trace s ++ [EvSyncGrads i] /\
  (i = Actor \/ i = Critic ->
   learner (agent s') = learner (agent s) /\
   exists g w, grad (get_net i (agent s')) = fst (sync_grads g w)).
Proof.
  unfold sync_grads_call. intros H. run. split; [back_trace; reflexivity|].
  back_agent. intros [-> | ->]; (split; [reflexivity | do 2 eexists; reflexivity]).
Qed.

Lemma optim_step_ok i s s' u :
  optim_step i s = Ok (u, s') ->
  trace s' = trace s ++ [EvOptimStep i] /\
  let r := adam_step (get_optim i (agent s)) (parameters (get_net i (agent s)))
             (grad (get_net i (agent s))) in
  (i = Actor ->
   learner (agent s') =
     (fst r, parameters (critic_network (agent s)), snd r,
      critic_optim (agent s))) /\
  (i = Critic ->
   learner (agent s') =
     (parameters (actor_network (agent s)), fst r, actor_optim (agent s),
      snd r)).
Proof.
  unfold optim_step. intros H. run. split; [back_trace; reflexivity|].
  back_agent. split; intros ->; reflexivity.
Qed.

(** The run of one update: where the rewards come from, what is logged and
    which gradients reach the optimizers. *)
Lemma network_updating_run self s s' u :
  network_updating self s = Ok (u, s') ->
  exists transitions inputs actions_real q_next tq rq ga wa gc wc,
    (exists raw w, transitions =
       fst (rb_sample_func (buffer (agent s)) raw (batch_size (args self)) w)) /\
    target_q self (tr_r transitions) q_next = Ok tq /\
    trace s' = trace s ++
      [EvBufferSample (batch_size (args self));
       EvNormalize ONorm; EvNormalize GNorm;
       EvNormalize ONorm; EvNormalize GNorm;
       EvZeroGrad Actor; EvBackward (ActorLoss inputs actions_real);
       EvSyncGrads Actor; EvOptimStep Actor;
       EvZeroGrad Critic; EvBackward (CriticLoss tq rq);
       EvSyncGrads Critic; EvOptimStep Critic] /\
    parameters (actor_network (agent s')) =
      fst (adam_step (actor_optim (agent s))
             (parameters (actor_network (agent s)))
             (fst (sync_grads ga wa))) /\
    parameters (critic_network (agent s')) =
      fst (adam_step (critic_optim (agent s))
             (parameters (critic_network (agent s)))
             (fst (sync_grads gc wc))).
Proof.
  unfold network_updating, sample, critic_call, actor_call, normalize.
  intros H. run.
  match goal with
  | H : context [match ?x with Some _ => _ | None => _ end] |- _ =>
      destruct x eqn:E
  end.
  2: { run. }
  run.
  repeat match goal with
         | H : zero_grad _ _ = Ok _ |- _ =>
             apply zero_grad_ok in H; destruct H as [? H];
             specialize (H ltac:(auto))
         | H : loss_backward _ _ = Ok _ |- _ =>
             apply loss_backward_ok in H; destruct H as [? H]
         | H : sync_grads_call _ _ = Ok _ |- _ =>
             apply sync_grads_call_ok in H; destruct H as [? H];
             destruct (H ltac:(auto)) as (? & ? & ? & ?); clear H
         | H : optim_step _ _ = Ok _ |- _ =>
             apply optim_step_ok in H; cbv zeta in H;
             destruct H as (? & ? & ?)
         end.
  repeat match goal with
         | H : ?i = ?i -> _ |- _ => specialize (H eq_refl)
         | H : Actor = Critic -> _ |- _ => clear H
         | H : Critic = Actor -> _ |- _ => clear H
         end.
  match goal with
  | H1 : grad (get_net Actor _) = fst (sync_grads ?g1 ?w1),
    H2 : grad (get_net Critic _) = fst (sync_grads ?g2 ?w2) |- _ =>
      do 6 eexists; exists g1, w1, g2, w2
  end.
  split; [|split; [eassumption|split]].
  - do 2 eexists. back_agent. reflexivity.
  - back_trace. reflexivity.
  - unfold learner in *. simpl in *.
    repeat match goal with
           | H : (_, _, _, _) = (_, _, _, _) |- _ =>
               injection H as ? ? ? ?
           end.
    split; congruence.
Qed.

End Network_updating.

Section Network_updating_properties.

Context {C : Collaborators}.

Open Scope Q_scope.

Lemma clip1_le_hi lo hi x : Np.clip1 lo hi x <= hi.
Proof. unfold Np.clip1. apply Q.le_min_r. Qed.

Lemma clip1_ge_lo lo hi x : lo <= hi -> lo <= Np.clip1 lo hi x.
Proof.
  intros H. unfold Np.clip1. apply Q.min_glb; [apply Q.le_max_r | exact H].
Qed.

Lemma clip_within a lo hi :
  lo <= hi -> Forall (fun x => lo <= x /\ x <= hi) (Np.clip a lo hi).
Proof.
  intros H. unfold Np.clip. apply Forall_forall. intros x Hx.
  apply in_map_iff in Hx. destruct Hx as (y & <- & _).
  split; [now apply clip1_ge_lo | apply clip1_le_hi].
Qed.

Lemma py_div_ok a b c : py_div a b = Ok c -> ~ b == 0 /\ c = a / b.
Proof.
  unfold py_div. destruct (Qeq_bool b 0) eqn:E; [discriminate|].
  intros H. inversion H. split; [|reflexivity].
  intros Hb. apply Qeq_bool_iff in Hb. congruence.
Qed.

(** The clipped target lies between [-1/(1-gamma)] and [0] when the
    discount is below one. *)
Lemma target_q_within self r q tq :
  gamma (args self) < 1 ->
  target_q self r q = Ok tq ->
  Forall (fun x => - (1 / (1 - gamma (args self))) <= x /\ x <= 0) tq.
Proof.
  intros Hg H. unfold target_q in H.
  apply res_bind_ok in H. destruct H as (t & _ & H).
  apply res_bind_ok in H. destruct H as (c & Hc & H).
  apply py_div_ok in Hc. destruct Hc as [_ ->].
  inversion H. apply clip_within.
  assert (0 < / (1 - gamma (args self))) as Hpos
    by (apply Qinv_lt_0_compat; lra).
  unfold Qdiv. rewrite Qmult_1_l. lra.
Qed.

(** The target is computed whenever the discount is not one and rewards
    and next values have the same shape. *)
Lemma target_q_returns self r q :
  ~ gamma (args self) == 1 -> length r = length q ->
  exists tq, target_q self r q = Ok tq.
Proof.
  intros Hg Hl. unfold target_q, Np.add, Np.binop, Np.scale.
  rewrite length_map, Hl, Nat.eqb_refl. simpl.
  unfold py_div. destruct (Qeq_bool (1 - gamma (args self)) 0) eqn:E.
  - apply Qeq_bool_iff in E. exfalso. apply Hg. lra.
  - simpl. eauto.
Qed.

(** C2: in every network update, for the actor and then for the critic,
    [sync_grads(net)] is called right after the loss's [backward()] and
    right before the optimizer's [step()]; no other gradient call occurs
    in the update, and the gradient each optimizer consumes is the one
    [sync_grads] returned. *)
Theorem sync_grads_between_backward_and_step self s s' u :
  network_updating self s = Ok (u, s') ->
  exists pre la lc ga wa gc wc,
    trace s' = trace s ++ pre ++
      [EvZeroGrad Actor; EvBackward la; EvSyncGrads Actor; EvOptimStep Actor;
       EvZeroGrad Critic; EvBackward lc; EvSyncGrads Critic;
       EvOptimStep Critic] /\
    forallb (fun e => negb (is_gradient_event e)) pre = true /\
    is_critic_backward (EvBackward la) = false /\
    is_critic_backward (EvBackward lc) = true /\
    parameters (actor_network (agent s')) =
      fst (adam_step (actor_optim (agent s))
             (parameters (actor_network (agent s)))
             (fst (sync_grads ga wa))) /\
    parameters (critic_network (agent s')) =
      fst (adam_step (critic_optim (agent s))
             (parameters (critic_network (agent s)))
             (fst (sync_grads gc wc))).
Proof.
  intros H. apply network_updating_run in H.
  destruct H as (t & i & a & q & tq & rq & ga & wa & gc & wc
                 & _ & _ & Ht & Ha & Hc).
  exists [EvBufferSample (batch_size (args self));
          EvNormalize ONorm; EvNormalize GNorm;
          EvNormalize ONorm; EvNormalize GNorm].
  exists (ActorLoss i a), (CriticLoss tq rq), ga, wa, gc, wc.
  repeat split; assumption.
Qed.

Lemma sample_run n s t s' :
  sample n s = Ok (t, s') ->
  (exists raw w, t = fst (rb_sample_func (buffer (agent s)) raw n w)) /\
  agent s' = agent s /\
  trace s' = trace s ++ [EvBufferSample n].
Proof.
  unfold sample. intros H. run.
  match goal with
  | H : context [match ?x with Some _ => _ | None => _ end] |- _ =>
      destruct x eqn:E
  end.
  2: { run. }
  run. split; [|split].
  - do 2 eexists. back_agent. reflexivity.
  - back_agent. reflexivity.
  - back_trace. reflexivity.
Qed.

Lemma normalize_run i x s y s' :
  normalize i x s = Ok (y, s') ->
  y = map (norm_normalize (get_norm i (agent s))) x /\
  agent s' = agent s /\
  trace s' = trace s ++ [EvNormalize i].
Proof.
  unfold normalize. intros H. run. split; [|split].
  - back_agent. reflexivity.
  - back_agent. reflexivity.
  - back_trace. reflexivity.
Qed.

Lemma actor_call_run i x s y s' :
  actor_call i x s = Ok (y, s') ->
  y = map (actor_forward (parameters (get_net i (agent s)))) x /\ s' = s.
Proof. unfold actor_call. intros H. run. split; reflexivity. Qed.

Lemma critic_call_run i x a s q s' :
  critic_call i x a s = Ok (q, s') ->
  rows2 (critic_forward (parameters (get_net i (agent s)))) x a = Ok q /\
  s' = s.
Proof. unfold critic_call. intros H. run. split; [assumption | reflexivity]. Qed.

(** The run of one update, as far as the critic's target is concerned:
    the inputs of the next states, the value the target networks give
    them, the regression target and its clamp, and the log. *)
Lemma network_updating_target_run self s s' u :
  network_updating self s = Ok (u, s') ->
  exists transitions inputs_next q_next target tq rq inputs actions_real,
    (exists raw w, transitions =
       fst (rb_sample_func (buffer (agent s)) raw (batch_size (args self)) w)) /\
    Np.concatenate1
      (map (norm_normalize (o_norm (agent s)))
           (fst (_preproc_og self (tr_obs_next transitions)
                             (tr_g transitions))))
      (map (norm_normalize (g_norm (agent s)))
           (snd (_preproc_og self (tr_obs_next transitions)
                             (tr_g transitions))))
      = Ok inputs_next /\
    rows2 (critic_forward (parameters (critic_target_network (agent s))))
          inputs_next
          (map (actor_forward (parameters (actor_target_network (agent s))))
               inputs_next)
      = Ok q_next /\
    Np.add (tr_r transitions) (Np.scale (gamma (args self)) q_next)
      = Ok target /\
    py_div 1 (1 - gamma (args self)) = Ok (1 / (1 - gamma (args self))) /\
    tq = Np.clip target (- (1 / (1 - gamma (args self)))) 0 /\
    trace s' = trace s ++
      [EvBufferSample (batch_size (args self));
       EvNormalize ONorm; EvNormalize GNorm;
       EvNormalize ONorm; EvNormalize GNorm;
       EvZeroGrad Actor; EvBackward (ActorLoss inputs actions_real);
       EvSyncGrads Actor; EvOptimStep Actor;
       EvZeroGrad Critic; EvBackward (CriticLoss tq rq);
       EvSyncGrads Critic; EvOptimStep Critic].
Proof.
  unfold network_updating. cbv zeta. intros H.
  apply bind_ok in H. destruct H as (t & s1 & Hs & H).
  apply bind_ok in H. destruct H as (on & s2 & Hon & H).
  apply bind_ok in H. destruct H as (gn & s3 & Hgn & H).
  apply bind_ok in H. destruct H as (inputs & s4 & Hin & H).
  apply bind_ok in H. destruct H as (onn & s5 & Honn & H).
  apply bind_ok in H. destruct H as (gnn & s6 & Hgnn & H).
  apply bind_ok in H. destruct H as (inputs_next & s7 & Hinn & H).
  apply bind_ok in H. destruct H as (actions_next & s8 & Han & H).
  apply bind_ok in H. destruct H as (q_next & s9 & Hq & H).
  apply bind_ok in H. destruct H as (tq & s10 & Htq & H).
  apply bind_ok in H. destruct H as (rq & s11 & Hrq & H).
  apply bind_ok in H. destruct H as (d & s12 & Hd & H).
  apply bind_ok in H. destruct H as (actions_real & s13 & Har & H).
  apply bind_ok in H. destruct H as (qa & s14 & Hqa & H).
  apply bind_ok in H. destruct H as (? & s15 & Hz1 & H).
  apply bind_ok in H. destruct H as (? & s16 & Hb1 & H).
  apply bind_ok in H. destruct H as (? & s17 & Hy1 & H).
  apply bind_ok in H. destruct H as (? & s18 & Ho1 & H).
  apply bind_ok in H. destruct H as (? & s19 & Hz2 & H).
  apply bind_ok in H. destruct H as (? & s20 & Hb2 & H).
  apply bind_ok in H. destruct H as (? & s21 & Hy2 & H).
  apply sample_run in Hs. destruct Hs as (Ht & A1 & T1).
  apply normalize_run in Hon. destruct Hon as (_ & A2 & T2).
  apply normalize_run in Hgn. destruct Hgn as (_ & A3 & T3).
  apply lift_ok in Hin. destruct Hin as (_ & ->).
  apply normalize_run in Honn. destruct Honn as (-> & A5 & T5).
  apply normalize_run in Hgnn. destruct Hgnn as (-> & A6 & T6).
  apply lift_ok in Hinn. destruct Hinn as (Hinn & ->).
  apply actor_call_run in Han. destruct Han as (-> & ->).
  apply critic_call_run in Hq. destruct Hq as (Hq & ->).
  apply lift_ok in Htq. destruct Htq as (Htq & ->).
  apply critic_call_run in Hrq. destruct Hrq as (_ & ->).
  apply lift_ok in Hd. destruct Hd as (_ & ->).
  apply actor_call_run in Har. destruct Har as (_ & ->).
  apply critic_call_run in Hqa. destruct Hqa as (_ & ->).
  apply zero_grad_ok in Hz1. destruct Hz1 as (Tz1 & _).
  apply loss_backward_ok in Hb1. destruct Hb1 as (Tb1 & _).
  apply sync_grads_call_ok in Hy1. destruct Hy1 as (Ty1 & _).
  apply optim_step_ok in Ho1. destruct Ho1 as (To1 & _).
  apply zero_grad_ok in Hz2. destruct Hz2 as (Tz2 & _).
  apply loss_backward_ok in Hb2. destruct Hb2 as (Tb2 & _).
  apply sync_grads_call_ok in Hy2. destruct Hy2 as (Ty2 & _).
  apply optim_step_ok in H. destruct H as (To2 & _).
  assert (A : agent s6 = agent s) by congruence.
  assert (A' : agent s3 = agent s) by congruence.
  unfold target_q in Htq.
  apply res_bind_ok in Htq. destruct Htq as (target & Hadd & Htq).
  apply res_bind_ok in Htq. destruct Htq as (c & Hc & Htq).
  pose proof Hc as Hc'. apply py_div_ok in Hc'. destruct Hc' as (_ & Ec).
  subst c. inversion Htq as [Etq]. clear Htq. subst tq.
  exists t, inputs_next, q_next, target.
  exists (Np.clip target (- (1 / (1 - gamma (args self)))) 0), rq.
  exists inputs, actions_real.
  split; [exact Ht|].
  split.
  { assert (A'' : agent s5 = agent s) by congruence.
    rewrite <- Hinn. simpl get_norm. rewrite A', A''. reflexivity. }
  split.
  { rewrite <- Hq. simpl get_net. rewrite A. reflexivity. }
  split; [exact Hadd|]. split; [exact Hc|]. split; [reflexivity|].
  rewrite To2, Ty2, Tb2, Tz2, To1, Ty1, Tb1, Tz1, T6, T5, T3, T2, T1.
  repeat rewrite <- app_assoc. reflexivity.
Qed.

(** C10 (amended): for a discount below one, the regression target of the
    critic is [r + gamma * Q_next], with [r] the rewards of the sampled
    transitions and [Q_next] the value the target critic gives to the
    target actor's actions on the next inputs, clamped elementwise to
    [[-1/(1-gamma), 0]] before the critic loss is formed: the one critic
    loss of an update carries this clamped target, whose entries are never
    positive and never below [-1/(1-gamma)]. *)
Theorem critic_target_clipped self s s' u :
  gamma (args self) < 1 ->
  network_updating self s = Ok (u, s') ->
  exists pre tq rq post transitions inputs_next q_next target,
    trace s' = trace s ++ pre ++ EvBackward (CriticLoss tq rq) :: post /\
    forallb (fun e => negb (is_critic_backward e)) (pre ++ post) = true /\
    (exists raw w, transitions =
       fst (rb_sample_func (buffer (agent s)) raw (batch_size (args self)) w)) /\
    Np.concatenate1
      (map (norm_normalize (o_norm (agent s)))
           (fst (_preproc_og self (tr_obs_next transitions)
                             (tr_g transitions))))
      (map (norm_normalize (g_norm (agent s)))
           (snd (_preproc_og self (tr_obs_next transitions)
                             (tr_g transitions))))
      = Ok inputs_next /\
    rows2 (critic_forward (parameters (critic_target_network (agent s))))
          inputs_next
          (map (actor_forward (parameters (actor_target_network (agent s))))
               inputs_next)
      = Ok q_next /\
    Np.add (tr_r transitions) (Np.scale (gamma (args self)) q_next)
      = Ok target /\
    tq = Np.clip target (- (1 / (1 - gamma (args self)))) 0 /\
    Forall (fun x => - (1 / (1 - gamma (args self))) <= x /\ x <= 0) tq.
Proof.
  intros Hg H. apply network_updating_target_run in H.
  destruct H as (t & xn & q & target & tq & rq & i & a
                 & Ht & Hxn & Hq & Hadd & _ & Etq & Htr).
  exists [EvBufferSample (batch_size (args self));
          EvNormalize ONorm; EvNormalize GNorm;
          EvNormalize ONorm; EvNormalize GNorm;
          EvZeroGrad Actor; EvBackward (ActorLoss i a);
          EvSyncGrads Actor; EvOptimStep Actor; EvZeroGrad Critic].
  exists tq, rq, [EvSyncGrads Critic; EvOptimStep Critic].
  exists t, xn, q, target.
  split; [exact Htr|]. split; [reflexivity|].
  split; [exact Ht|]. split; [exact Hxn|]. split; [exact Hq|].
  split; [exact Hadd|]. split; [exact Etq|].
  rewrite Etq. apply clip_within.
  assert (0 < / (1 - gamma (args self))) as Hpos
    by (apply Qinv_lt_0_compat; lra).
  unfold Qdiv. rewrite Qmult_1_l. lra.
Qed.

End Network_updating_properties.

Lemma sync_grads_between_backward_and_step_witness :
  exists pre la lc ga wa gc wc,
    trace (Toy.after (network_updating (Toy.worker 0 (- (1)) false)) Toy.trained) =
    trace Toy.trained ++ pre ++
      [EvZeroGrad Actor; EvBackward la; EvSyncGrads Actor; EvOptimStep Actor;
       EvZeroGrad Critic; EvBackward lc; EvSyncGrads Critic;
       EvOptimStep Critic] /\
    forallb (fun e => negb (is_gradient_event e)) pre = true /\
    is_critic_backward (EvBackward la) = false /\
    is_critic_backward (EvBackward lc) = true /\
    parameters (actor_network (agent (Toy.after (network_updating (Toy.worker 0 (- (1)) false)) Toy.trained))) =
      fst (adam_step (actor_optim (agent Toy.trained))
             (parameters (actor_network (agent Toy.trained)))
             (fst (sync_grads ga wa))) /\
    parameters (critic_network (agent (Toy.after (network_updating (Toy.worker 0 (- (1)) false)) Toy.trained))) =
      fst (adam_step (critic_optim (agent Toy.trained))
             (parameters (critic_network (agent Toy.trained)))
             (fst (sync_grads gc wc))).
Proof.
  apply (@sync_grads_between_backward_and_step _
           (Toy.worker 0 (- (1)) false) Toy.trained _ tt).
  vm_compute. reflexivity.
Defined.

Lemma critic_target_clipped_witness :
  let self := Toy.worker 0 (- (1)) false in
  exists pre tq rq post transitions inputs_next q_next target,
    trace (Toy.after (network_updating self) Toy.trained) =
      trace Toy.trained ++ pre ++ EvBackward (CriticLoss tq rq) :: post /\
    forallb (fun e => negb (is_critic_backward e)) (pre ++ post) = true /\
    (exists raw w, transitions =
       fst (rb_sample_func (buffer (agent Toy.trained)) raw
              (batch_size (args self)) w)) /\
    Np.concatenate1
      (map (@norm_normalize Toy.collaborators (o_norm (agent Toy.trained)))
           (fst (_preproc_og self (tr_obs_next transitions)
                             (tr_g transitions))))
      (map (@norm_normalize Toy.collaborators (g_norm (agent Toy.trained)))
           (snd (_preproc_og self (tr_obs_next transitions)
                             (tr_g transitions))))
      = Ok inputs_next /\
    rows2 (@critic_forward Toy.collaborators
             (parameters (critic_target_network (agent Toy.trained))))
          inputs_next
          (map (@actor_forward Toy.collaborators
                  (parameters (actor_target_network (agent Toy.trained))))
               inputs_next)
      = Ok q_next /\
    Np.add (tr_r transitions) (Np.scale (gamma (args self)) q_next)
      = Ok target /\
    tq = Np.clip target (- (1 / (1 - gamma (args self))))%Q 0%Q /\
    Forall (fun x => (- (1 / (1 - gamma (args self))) <= x /\ x <= 0)%Q) tq.
Proof.
  intros self.
  apply (@critic_target_clipped _ self Toy.trained _ tt).
  - reflexivity.
  - vm_compute. reflexivity.
Defined.

(** C10, as stated, at a discount of 2: the update returns and the target
    in its one critic loss is [0], which lies below the bound
    [-1/(1-gamma) = 1]. *)
Lemma critic_target_clipped_counterexample :
  let self := Toy.config (Toy.arguments_with (19 # 20) 2 2 2)
                         Toy.parameters_of_env 1 in
  exists s' pre tq rq post,
    network_updating self Toy.trained = Ok (tt, s') /\
    trace s' =
      trace Toy.trained ++ pre ++ EvBackward (CriticLoss tq rq) :: post /\
    forallb (fun e => negb (is_critic_backward e)) (pre ++ post) = true /\
    Exists (fun x => (x < - (1 / (1 - gamma (args self))))%Q) tq.
Proof.
  intros self.
  exists (Toy.after (network_updating self) Toy.trained).
  exists [EvBufferSample 1;
          EvNormalize ONorm; EvNormalize GNorm;
          EvNormalize ONorm; EvNormalize GNorm;
          EvZeroGrad Actor; EvBackward (ActorLoss [[2; 1]] [[3; - (3)]]%Q);
          EvSyncGrads Actor; EvOptimStep Actor; EvZeroGrad Critic].
  exists [0%Q], [2%Q], [EvSyncGrads Critic; EvOptimStep Critic].
  split; [vm_compute; reflexivity|].
  split; [vm_compute; reflexivity|].
  split; [reflexivity|].
  constructor. vm_compute. reflexivity.
Defined.

(** ** Elementwise operations *)

Section Arrays.

Open Scope Q_scope.

Lemma map2_length f a b :
  length (Np.map2 f a b) = Nat.min (length a) (length b).
Proof.
  revert b. induction a as [|x a IH]; intros [|y b]; simpl; auto.
Qed.

Lemma map2_nth f a b j :
  (j < length a)%nat -> (j < length b)%nat ->
  nth j (Np.map2 f a b) 0 = f (nth j a 0) (nth j b 0).
Proof.
  revert b j. induction a as [|x a IH]; intros [|y b] [|j]; simpl; intros;
    try lia; auto.
  apply IH; lia.
Qed.

Lemma map_nth_in (g : Q -> Q) a j :
  (j < length a)%nat -> nth j (map g a) 0 = g (nth j a 0).
Proof.
  intros H. rewrite (nth_indep _ 0 (g 0)) by (now rewrite length_map).
  apply map_nth.
Qed.

(** The three ways a broadcasting operation returns. *)
Lemma binop_cases f a b c :
  Np.binop f a b = Ok c ->
  (length a = length b /\ c = Np.map2 f a b) \/
  (length a <> length b /\ exists x, a = [x] /\ c = map (f x) b) \/
  (length a <> length b /\ length a <> 1%nat /\
   exists y, b = [y] /\ c = map (fun x => f x y) a).
Proof.
  unfold Np.binop. destruct (length a =? length b)%nat eqn:E.
  - apply Nat.eqb_eq in E. intros H. inversion H. auto.
  - apply Nat.eqb_neq in E. intros H. right.
    destruct a as [|x [|x' a]].
    + destruct b as [|y [|y' b]]; try discriminate.
      right. inversion H. repeat split; simpl; auto. eauto.
    + left. inversion H. eauto.
    + destruct b as [|y [|y' b]]; try discriminate.
      right. inversion H. repeat split; simpl; auto. eauto.
Qed.

Lemma stretch_same p n : length p = n -> stretch p n = p.
Proof.
  intros <-. destruct p as [|x [|y p]]; reflexivity.
Qed.

End Arrays.

(** ** The soft update *)

Section Soft_update.

Context {C : Collaborators}.

Variable self : Config.

Open Scope Q_scope.

Lemma blend_pair tp p b np :
  Np.add (Np.scale (1 - polyak (args self)) p)
         (Np.scale (polyak (args self)) tp) = Ok b ->
  Np.copy_ tp b = Ok np ->
  blended self tp p np.
Proof.
  unfold Np.add, Np.scale. intros Hb Hc.
  apply binop_cases in Hb. rewrite !length_map in Hb.
  destruct Hb as [[Hl ->] | [[Hl (x & Hx & ->)] | (Hl & H1 & y & Hy & ->)]].
  - unfold Np.copy_ in Hc.
    rewrite map2_length, !length_map, Hl, Nat.min_id, Nat.eqb_refl in Hc.
    inversion Hc. split.
    + now rewrite map2_length, !length_map, Hl, Nat.min_id.
    + intros j Hj. rewrite stretch_same by assumption.
      rewrite map2_nth by (rewrite length_map; lia).
      rewrite !map_nth_in by lia. ring.
  - destruct p as [|x0 [|x1 p]]; try discriminate. inversion Hx. subst x.
    unfold Np.copy_ in Hc. rewrite !length_map, Nat.eqb_refl in Hc.
    inversion Hc. split.
    + now rewrite !length_map.
    + intros j Hj. rewrite !map_nth_in by (rewrite ?length_map; lia).
      simpl. rewrite nth_repeat_lt by assumption. ring.
  - destruct tp as [|t0 [|t1 tp]]; try discriminate.
    unfold Np.copy_ in Hc. rewrite !length_map in Hc. simpl in *.
    destruct (length p =? 1)%nat eqn:E; [apply Nat.eqb_eq in E; lia|].
    destruct p as [|x0 [|x1 p]]; simpl in *; try discriminate; lia.
Qed.

Lemma soft_update_spec target source new :
  soft_update self target source = Ok new ->
  forall i tp p,
    nth_error target i = Some tp -> nth_error source i = Some p ->
    exists np, nth_error new i = Some np /\ blended self tp p np.
Proof.
  revert source new. induction target as [|t target IH]; intros source new H i tp p Ht Hp.
  - destruct i; discriminate.
  - destruct source as [|q source]; [destruct i; discriminate|].
    simpl in H.
    apply res_bind_ok in H. destruct H as (b & Hb & H).
    apply res_bind_ok in H. destruct H as (n & Hn & H).
    apply res_bind_ok in H. destruct H as (rest & Hrest & H).
    inversion H. subst new. destruct i as [|i]; simpl in *.
    + inversion Ht. inversion Hp. subst. exists n. split; [reflexivity|].
      eapply blend_pair; eassumption.
    + eapply IH; eassumption.
Qed.

(** Parameters of the target without a partner in the source stay. *)
Lemma soft_update_rest target source new :
  soft_update self target source = Ok new ->
  length new = length target /\
  forall i, (length source <= i)%nat -> nth_error new i = nth_error target i.
Proof.
  revert source new. induction target as [|t target IH]; intros source new H.
  - simpl in H. inversion H. auto.
  - destruct source as [|q source].
    + simpl in H. inversion H. auto.
    + simpl in H.
      apply res_bind_ok in H. destruct H as (b & Hb & H).
      apply res_bind_ok in H. destruct H as (n & Hn & H).
      apply res_bind_ok in H. destruct H as (rest & Hrest & H).
      inversion H. destruct (IH _ _ Hrest) as [Hl Hi]. split.
      * simpl. now rewrite Hl.
      * intros [|i] Hle; simpl in *; [lia|]. apply Hi. lia.
Qed.

(** The update returns whenever paired tensors have the same shape. *)
Lemma soft_update_returns target source :
  Forall2 (fun tp p => length tp = length p) target source ->
  exists new, soft_update self target source = Ok new.
Proof.
  induction 1 as [|tp p target source Hl _ [new IH]]; simpl; [eauto|].
  unfold Np.add, Np.binop, Np.scale, Np.copy_.
  rewrite !length_map, <- Hl, Nat.eqb_refl. simpl.
  rewrite map2_length, !length_map, <- Hl, Nat.min_id, Nat.eqb_refl. simpl.
  rewrite IH. simpl. eauto.
Qed.

Lemma get_set_net i n a : get_net i (set_net i n a) = n.
Proof. destruct i; reflexivity. Qed.

(** C7: after [_soft_update_target_network(target, source)] every target
    parameter that has a partner in [zip(target.parameters(),
    source.parameters())] equals, entry by entry,
    [polyak * old_target_param + (1 - polyak) * source_param]. *)
Theorem soft_update_is_polyak_blend target source s s' u :
  _soft_update_target_network self target source s = Ok (u, s') ->
  forall i tp p,
    nth_error (parameters (get_net target (agent s))) i = Some tp ->
    nth_error (parameters (get_net source (agent s))) i = Some p ->
    exists np,
      nth_error (parameters (get_net target (agent s'))) i = Some np /\
      length np = length tp /\
      forall j, (j < length tp)%nat ->
        nth j np 0 ==
        polyak (args self) * nth j tp 0 +
        (1 - polyak (args self)) * nth j (stretch p (length tp)) 0.
Proof.
  unfold _soft_update_target_network. intros H i tp p Ht Hp. run.
  destruct (soft_update_spec _ _ Hm1 _ Ht Hp) as (np & Hn & Hb).
  exists np. split; [|exact Hb].
  rewrite H. rewrite get_set_net. exact Hn.
Qed.

End Soft_update.

Lemma soft_update_is_polyak_blend_witness :
  let self := Toy.worker 0 (- (1)) false in
  let s := Toy.drifted in
  let s' := Toy.after (_soft_update_target_network self ActorTarget Actor) s in
  let tp := nth 0 (parameters (get_net ActorTarget (agent s))) [] in
  let p := nth 0 (parameters (get_net Actor (agent s))) [] in
  exists np,
    nth_error (parameters (get_net ActorTarget (agent s'))) 0 = Some np /\
    length np = length tp /\
    forall j, (j < length tp)%nat ->
      (nth j np 0 ==
       polyak (args self) * nth j tp 0 +
       (1 - polyak (args self)) * nth j (stretch p (length tp)) 0)%Q.
Proof.
  intros self s s' tp p.
  apply (@soft_update_is_polyak_blend _ self ActorTarget Actor s s' tt).
  - vm_compute. reflexivity.
  - vm_compute. reflexivity.
  - vm_compute. reflexivity.
Defined.

(** ** Exploration *)

Section Choose_actions.

Context {C : Collaborators}.

Variable self : Config.

Open Scope Q_scope.

Lemma draws_spec n d s v s' :
  draws n d s = Ok (v, s') ->
  length v = n /\ Forall (fun x => exists w, x = fst (d w)) v.
Proof.
  revert s v s'. induction n as [|n IH]; simpl; intros s v s' H.
  - run. split; [reflexivity | constructor].
  - run. destruct (IH _ _ _ Hm0) as [Hl Hf]. split.
    + simpl. now rewrite Hl.
    + constructor; [eauto | assumption].
Qed.

Lemma draws_returns n d s : exists v s', draws n d s = Ok (v, s').
Proof.
  revert s. induction n as [|n IH]; simpl; intros s.
  - unfold ret. eauto.
  - unfold bind at 1. unfold call. destruct (d (world s)) as [x w].
    unfold bind at 1.
    destruct (IH {| agent := agent s; world := w; trace := trace s |})
      as (v & s' & ->).
    unfold ret. eauto.
Qed.

Section Mix.

Variables (m e : Q).

Hypothesis e_01 : e = 0 \/ e = 1.

Lemma mix1 x y : within m x -> within m y -> within m (x + e * (y - x)).
Proof.
  unfold within. intros [? ?] [? ?]. destruct e_01 as [-> | ->]; split; lra.
Qed.

Lemma mix_same a : forall r,
  Forall (within m) a -> Forall (within m) r ->
  Forall (within m) (Np.map2 Qplus a (Np.scale e (Np.map2 Qminus r a))).
Proof.
  induction a as [|x a IH]; intros [|y r] Ha Hr; simpl; try constructor.
  - inversion Ha. inversion Hr. now apply mix1.
  - inversion Ha. inversion Hr. now apply IH.
Qed.

Lemma mix_one_random a y :
  Forall (within m) a -> within m y ->
  Forall (within m) (Np.map2 Qplus a (Np.scale e (map (Qminus y) a))).
Proof.
  induction a as [|x a IH]; intros Ha Hy; simpl; constructor.
  - inversion Ha. now apply mix1.
  - inversion Ha. now apply IH.
Qed.

Lemma mix_one_action x r :
  within m x -> Forall (within m) r ->
  Forall (within m)
    (map (Qplus x) (Np.scale e (map (fun y => y - x) r))).
Proof.
  induction r as [|y r IH]; intros Hx Hr; simpl; constructor.
  - inversion Hr. now apply mix1.
  - inversion Hr. now apply IH.
Qed.

(** The eps-greedy mix of an action and a random action, both within
    the range, is within the range, however the two shapes broadcast. *)
Lemma mix_within a r d c :
  Forall (within m) a -> Forall (within m) r ->
  Np.sub r a = Ok d -> Np.add a (Np.scale e d) = Ok c ->
  Forall (within m) c.
Proof.
  unfold Np.sub, Np.add. intros Ha Hr Hd Hc.
  apply binop_cases in Hd. apply binop_cases in Hc.
  unfold Np.scale in Hc. rewrite length_map in Hc.
  destruct Hd as [[Hl ->] | [[Hl (y & -> & ->)] | (Hl & H1 & x & -> & ->)]].
  - destruct Hc as [[_ ->] | [[_ (x & -> & ->)] | (_ & _ & z & Hz & ->)]].
    + now apply mix_same.
    + destruct r as [|y [|y' r]]; try discriminate.
      simpl. inversion Ha. inversion Hr. constructor; [now apply mix1 | constructor].
    + destruct a as [|x [|x' a]], r as [|y [|y' r]]; simpl in *;
        try discriminate.
      inversion Hz.
      inversion Ha. inversion Hr. constructor; [now apply mix1 | constructor].
  - inversion Hr as [|? ? Hy _]; subst.
    destruct Hc as [[_ ->] | [[_ (u & -> & ->)] | (_ & _ & z & Hz & ->)]].
    + now apply mix_one_random.
    + simpl. inversion Ha. constructor; [now apply mix1 | constructor].
    + destruct a as [|u [|u' a]]; simpl in *; try discriminate.
      inversion Hz.
      inversion Ha. constructor; [now apply mix1 | constructor].
  - inversion Ha as [|? ? Hx _]; subst.
    destruct Hc as [[_ ->] | [[_ (u & Hu & ->)] | (_ & _ & z & Hz & ->)]].
    + destruct r as [|v [|v' r]]; simpl; try constructor.
      * inversion Hr. now apply mix1.
      * constructor.
      * inversion Hr. now apply mix1.
      * constructor.
    + inversion Hu. subst u. now apply mix_one_action.
    + destruct r as [|v [|v' r]]; simpl in *; try discriminate.
      inversion Hz.
      inversion Hr. constructor; [now apply mix1 | constructor].
Qed.

End Mix.


Lemma binop_same_length f a b :
  length a = length b -> Np.binop f a b = Ok (Np.map2 f a b).
Proof. unfold Np.binop. intros ->. now rewrite Nat.eqb_refl. Qed.

(** The choice returns whenever the policy output has one entry per
    action dimension. *)
Lemma choose_actions_returns pi s :
  length (Np.squeeze pi) = p_action (env_params self) ->
  exists a s', _choose_actions self pi s = Ok (a, s').
Proof.
  intros Hl. unfold _choose_actions. cbv zeta.
  destruct (draws_returns (length (Np.squeeze pi)) randn s) as (z & s1 & Hz).
  assert (length z = length (Np.squeeze pi)) as Hlz
    by (apply draws_spec in Hz; tauto).
  unfold bind at 1. rewrite Hz.
  unfold bind at 1. unfold Np.add at 1.
  rewrite binop_same_length
    by (unfold Np.scale; now rewrite length_map, Hlz).
  simpl lift.
  destruct (draws_returns (p_action (env_params self))
              (uniform (- action_max (env_params self))
                       (action_max (env_params self))) s1)
    as (r & s2 & Hr).
  assert (length r = p_action (env_params self)) as Hlr
    by (apply draws_spec in Hr; tauto).
  unfold bind at 1. rewrite Hr.
  unfold bind at 1. unfold call at 1.
  destruct (binomial 1 (random_eps (args self)) (world s2)) as [k w].
  unfold bind at 1. unfold Np.sub.
  rewrite binop_same_length
    by (unfold Np.clip, Np.scale;
        now rewrite length_map, map2_length, length_map, Hlz, Nat.min_id, Hlr, Hl).
  simpl lift. unfold lift, Np.add.
  rewrite binop_same_length
    by (unfold Np.clip, Np.scale;
        repeat rewrite ?length_map, ?map2_length;
        now rewrite Hlz, Hlr, Hl, !Nat.min_id).
  eauto.
Qed.

End Choose_actions.

Lemma toy_generator_contract : @generator_contract Toy.collaborators.
Proof.
  split.
  - intros lo hi w H. simpl. destruct (Nat.even w); simpl; split;
      solve [assumption | apply Qle_refl].
  - intros n p w. simpl. apply Nat.le_min_l.
Qed.


(** ** Rollouts *)

Section Rollouts.

Context {C : Collaborators}.

Variable self : Config.

(** Loop invariants: what holds of the loop variables after [j]
    iterations holds after one more. *)
Lemma for_from_inv {S : Type} (I : nat -> S -> Prop) (body : nat -> S -> M S) :
  (forall i j v s v' s', I j v -> body i v s = Ok (v', s') -> I (Datatypes.S j) v') ->
  forall n i j v s v' s',
    I j v -> for_from i n body v s = Ok (v', s') -> I (j + n)%nat v'.
Proof.
  intros Hb. induction n as [|n IH]; intros i j v s v' s' Hi H; simpl in H.
  - run. now rewrite Nat.add_0_r.
  - run. rewrite Nat.add_succ_r. change (I (Datatypes.S j + n)%nat v').
    eapply IH; [|eassumption]. eapply Hb; eassumption.
Qed.

Lemma rollout_step_collects g i j v s v' s' :
  steps_collected j v -> rollout_step self g i v s = Ok (v', s') ->
  steps_collected (S j) v'.
Proof.
  unfold rollout_step. cbv zeta. intros (H1 & H2 & H3 & H4) H.
  apply bind_ok in H. destruct H as (? & ? & _ & H).
  apply bind_ok in H. destruct H as (? & ? & _ & H).
  apply bind_ok in H. destruct H as (? & ? & _ & H).
  apply bind_ok in H. destruct H as (? & ? & _ & H).
  run. unfold steps_collected. simpl.
  rewrite !length_app. simpl. lia.
Qed.

Lemma rollout_shape s ep s' :
  rollout self s = Ok (ep, s') ->
  length (ep_obs ep) = S (max_timesteps (env_params self)) /\
  length (ep_ag ep) = S (max_timesteps (env_params self)) /\
  length (ep_g ep) = max_timesteps (env_params self) /\
  length (ep_actions ep) = max_timesteps (env_params self).
Proof.
  unfold rollout. cbv zeta. intros H.
  apply bind_ok in H. destruct H as (o & s1 & _ & H).
  apply bind_ok in H. destruct H as (v & s2 & Hloop & H).
  run. unfold for_range in Hloop.
  eapply (for_from_inv steps_collected) with (j := 0%nat) in Hloop.
  - destruct Hloop as (H1 & H2 & H3 & H4). simpl in *.
    rewrite !length_app. simpl. lia.
  - intros. eapply rollout_step_collects; eassumption.
  - repeat split.
Qed.

Lemma collect_collects i j mb s mb' s' :
  episodes_collected self j mb -> collect self i mb s = Ok (mb', s') ->
  episodes_collected self (S j) mb'.
Proof.
  unfold collect. intros ((L1 & L2 & L3 & L4) & F1 & F2 & F3 & F4) H.
  apply bind_ok in H. destruct H as (ep & s1 & Hep & H). run.
  apply rollout_shape in Hep. destruct Hep as (E1 & E2 & E3 & E4).
  unfold episodes_collected. simpl. rewrite !length_app. simpl.
  repeat split; try lia;
    apply Forall_app; split; try assumption; constructor; auto.
Qed.

(** C5: every episode assembled by the rollout loop has [T+1]
    observations and achieved goals and [T] actions and desired goals,
    with [T = max_timesteps], for every rollout of the batch of a cycle. *)
Theorem episode_shape s mb s' :
  collect_rollouts self s = Ok (mb, s') ->
  let T := max_timesteps (env_params self) in
  (length (mb_obs mb) = num_rollouts_per_mpi (args self) /\
   length (mb_ag mb) = num_rollouts_per_mpi (args self) /\
   length (mb_g mb) = num_rollouts_per_mpi (args self) /\
   length (mb_actions mb) = num_rollouts_per_mpi (args self)) /\
  Forall (fun ep_obs => length ep_obs = S T) (mb_obs mb) /\
  Forall (fun ep_ag => length ep_ag = S T) (mb_ag mb) /\
  Forall (fun ep_g => length ep_g = T) (mb_g mb) /\
  Forall (fun ep_actions => length ep_actions = T) (mb_actions mb).
Proof.
  unfold collect_rollouts, for_range. intros H.
  eapply (for_from_inv (episodes_collected self)) with (j := 0%nat) in H.
  - exact H.
  - intros. eapply collect_collects; eassumption.
  - repeat split; constructor.
Qed.

End Rollouts.

Lemma episode_shape_witness :
  let mb :=
    Toy.value {| mb_obs := []; mb_ag := []; mb_g := []; mb_actions := [] |}
      (collect_rollouts (Toy.worker 0 (- (1)) false)) Toy.start in
  (length (mb_obs mb) = 2%nat /\ length (mb_ag mb) = 2%nat /\
   length (mb_g mb) = 2%nat /\ length (mb_actions mb) = 2%nat) /\
  Forall (fun ep_obs => length ep_obs = 4%nat) (mb_obs mb) /\
  Forall (fun ep_ag => length ep_ag = 4%nat) (mb_ag mb) /\
  Forall (fun ep_g => length ep_g = 3%nat) (mb_g mb) /\
  Forall (fun ep_actions => length ep_actions = 3%nat) (mb_actions mb).
Proof.
  intros mb.
  apply (@episode_shape _ (Toy.worker 0 (- (1)) false) Toy.start mb
           (Toy.after (collect_rollouts (Toy.worker 0 (- (1)) false)) Toy.start)).
  vm_compute. reflexivity.
Defined.

(** ** The normalizers *)

Section Normalizers.

Context {C : Collaborators}.

Variable self : Config.

Open Scope agent_scope.

(** The run of [_update_normalizer]. *)
Lemma update_normalizer_run mb s s' u :
  _update_normalizer self mb s = Ok (u, s') ->
  exists bt n og wo wg,
    buffer_temp_of mb bt /\
    Np.shape1 (mb_actions mb) = Ok n /\
    (let t := fst (sample_her_transitions (her_module (agent s)) bt n (world s)) in
     og = _preproc_og self (tr_obs t) (tr_g t)) /\
    trace s' = trace s ++
      [EvSampleHer bt n;
       EvNormUpdate ONorm (fst og); EvNormUpdate GNorm (snd og);
       EvNormRecompute ONorm; EvNormRecompute GNorm] /\
    o_norm (agent s') =
      fst (norm_recompute_stats (norm_update (o_norm (agent s)) (fst og)) wo) /\
    g_norm (agent s') =
      fst (norm_recompute_stats (norm_update (g_norm (agent s)) (snd og)) wg) /\
    buffer (agent s') = buffer (agent s) /\
    her_module (agent s') = her_module (agent s).
Proof.
  unfold _update_normalizer, her_sample, update, recompute_stats. cbv zeta.
  intros H. run.
  match goal with
  | Ht : trace _ = trace _ ++ [EvSampleHer ?bt ?n],
    Ho : agent _ = set_norm ONorm (fst (norm_recompute_stats _ ?wo)) _,
    Hg : agent _ = set_norm GNorm (fst (norm_recompute_stats _ ?wg)) _ |- _ =>
      exists bt, n,
        (_preproc_og self
           (tr_obs (fst (sample_her_transitions (her_module (agent s)) bt n (world s))))
           (tr_g (fst (sample_her_transitions (her_module (agent s)) bt n (world s))))),
        wo, wg
  end.
  split; [repeat split; simpl; assumption|].
  split; [assumption|].
  split; [reflexivity|].
  split.
  - back_trace. back_agent.
    repeat match goal with
           | H : world ?s = world _ |- context [world ?s] => rewrite H
           end.
    reflexivity.
  - back_agent.
    repeat match goal with
           | H : world ?s = world _ |- context [world ?s] => rewrite H
           end.
    simpl. repeat split; reflexivity.
Qed.

Lemma rollout_not_mutation e :
  is_rollout_event e = true -> not_norm_mutation e = true.
Proof. destruct e; simpl; intros H; try discriminate H; reflexivity. Qed.

Lemma update_not_mutation e :
  is_update_event e = true -> not_norm_mutation e = true.
Proof. destruct e; simpl; intros H; try discriminate H; reflexivity. Qed.

Lemma get_norm_set_net i j n a : get_norm i (set_net j n a) = get_norm i a.
Proof. destruct i, j; reflexivity. Qed.

Lemma get_norm_set_optim i j o a : get_norm i (set_optim j o a) = get_norm i a.
Proof. destruct i; reflexivity. Qed.

Lemma emits_done P {A : Type} (m : M A) : emits P m -> emits P (done m).
Proof. intros H. unfold done. apply emits_bind; [exact H | intros; apply emits_ret]. Qed.

Lemma keeps_done {X A : Type} (f : Agent -> X) (m : M A) :
  keeps f m -> keeps f (done m).
Proof. intros H. unfold done. apply keeps_bind; [exact H | intros; apply keeps_ret]. Qed.

Lemma emits_evaluation : emits not_norm_mutation (evaluation self).
Proof.
  unfold evaluation, allreduce.
  apply emits_bind.
  - eapply emits_weaken; [apply rollout_not_mutation | apply emits_local_success_rate].
  - intros. repeat emits_step.
Qed.

Lemma invoke_no_mutation m : emits not_norm_mutation (invoke self m).
Proof.
  destruct m; simpl.
  - apply emits_done. eapply emits_weaken;
      [apply rollout_not_mutation | apply emits_input_preprocessing].
  - apply emits_done. apply emits_choose_actions.
  - apply emits_soft_update.
  - eapply emits_weaken; [apply update_not_mutation | apply emits_network_updating].
  - apply emits_done. apply emits_evaluation.
  - apply emits_done. eapply emits_weaken;
      [apply rollout_not_mutation | apply emits_collect_rollouts].
  - unfold store_episode. repeat emits_step.
Qed.

Lemma invoke_keeps_norm i m : keeps (get_norm i) (invoke self m).
Proof.
  destruct m; simpl.
  - apply keeps_done, keeps_input_preprocessing.
  - apply keeps_done, keeps_choose_actions.
  - apply keeps_soft_update. apply get_norm_set_net.
  - apply keeps_network_updating;
      [apply get_norm_set_net | apply get_norm_set_optim].
  - apply keeps_done, keeps_evaluation.
  - apply keeps_done, keeps_collect_rollouts.
  - unfold store_episode.
    repeat first [keeps_step | apply keeps_modify; intros ?; destruct i; reflexivity].
Qed.

(** C6: the normalizers are mutated only through update-then-recompute:
    a run of [_update_normalizer] calls [update] on the observation and
    the goal normalizer and then [recompute_stats] on both, and these
    are its only mutations; every other operation of the agent leaves both
    normalizers as they were and logs no [update] or [recompute_stats]
    ([normalize] reads only). *)
Theorem normalizers_update_then_recompute :
  (forall mb s s' u,
      _update_normalizer self mb s = Ok (u, s') ->
      exists pre x y wo wg,
        trace s' = trace s ++ pre ++
          [EvNormUpdate ONorm x; EvNormUpdate GNorm y;
           EvNormRecompute ONorm; EvNormRecompute GNorm] /\
        forallb not_norm_mutation pre = true /\
        o_norm (agent s') =
          fst (norm_recompute_stats (norm_update (o_norm (agent s)) x) wo) /\
        g_norm (agent s') =
          fst (norm_recompute_stats (norm_update (g_norm (agent s)) y) wg)) /\
  (forall m s s' u,
      invoke self m s = Ok (u, s') ->
      o_norm (agent s') = o_norm (agent s) /\
      g_norm (agent s') = g_norm (agent s) /\
      exists l, trace s' = trace s ++ l /\ forallb not_norm_mutation l = true).
Proof.
  split.
  - intros mb s s' u H. apply update_normalizer_run in H.
    destruct H as (bt & n & og & wo & wg & _ & _ & _ & Ht & Ho & Hg & _).
    exists [EvSampleHer bt n], (fst og), (snd og), wo, wg.
    repeat split; assumption.
  - intros m s s' u H. split; [|split].
    + eapply (invoke_keeps_norm ONorm); eassumption.
    + eapply (invoke_keeps_norm GNorm); eassumption.
    + eapply invoke_no_mutation; eassumption.
Qed.

End Normalizers.

Lemma normalizers_update_then_recompute_witness :
  let self := Toy.worker 0 (- (1)) false in
  let mb :=
    Toy.value {| mb_obs := []; mb_ag := []; mb_g := []; mb_actions := [] |}
      (collect_rollouts self) Toy.start in
  let s1 := Toy.after (_update_normalizer self mb) Toy.start in
  let s2 := Toy.after (invoke self m_network_updating) Toy.trained in
  (exists pre x y wo wg,
      trace s1 = trace Toy.start ++ pre ++
        [EvNormUpdate ONorm x; EvNormUpdate GNorm y;
         EvNormRecompute ONorm; EvNormRecompute GNorm] /\
      forallb not_norm_mutation pre = true /\
      o_norm (agent s1) =
        fst (norm_recompute_stats (norm_update (o_norm (agent Toy.start)) x) wo) /\
      g_norm (agent s1) =
        fst (norm_recompute_stats (norm_update (g_norm (agent Toy.start)) y) wg)) /\
  (o_norm (agent s2) = o_norm (agent Toy.trained) /\
   g_norm (agent s2) = g_norm (agent Toy.trained) /\
   exists l, trace s2 = trace Toy.trained ++ l /\
             forallb not_norm_mutation l = true).
Proof.
  intros self mb s1 s2.
  destruct (normalizers_update_then_recompute self) as [H1 H2]. split.
  - apply (H1 mb Toy.start s1 tt). vm_compute. reflexivity.
  - apply (H2 m_network_updating Toy.trained s2 tt). vm_compute. reflexivity.
Defined.

(** ** Construction of the cohort *)

Section Construction.

Context {C : Collaborators}.

Open Scope agent_scope.

Lemma mapM_total {A B : Type} (f : A -> Res B) (R : A -> B -> Prop) :
  (forall a, exists b, f a = Ok b /\ R a b) ->
  forall l, exists bs, mapM f l = Ok bs /\ Forall2 R l bs.
Proof.
  intros Hf. induction l as [|a l (bs & E & F)]; simpl.
  - exists []. split; [reflexivity | constructor].
  - destruct (Hf a) as (b & Eb & Rb). exists (b :: bs).
    rewrite Eb. simpl. rewrite E. simpl. split; [reflexivity|].
    constructor; assumption.
Qed.

Lemma mapM_combine_total {A B D : Type} (f : A * B -> Res D)
      (P : A -> B -> Prop) (R : A -> D -> Prop) :
  (forall a b, P a b -> exists d, f (a, b) = Ok d /\ R a d) ->
  forall la lb, Forall2 P la lb ->
    exists ld, mapM f (combine la lb) = Ok ld /\ Forall2 R la ld.
Proof.
  intros Hf la lb F. induction F as [|a b la lb Pab _ (ld & E & F')]; simpl.
  - exists []. split; [reflexivity | constructor].
  - destruct (Hf _ _ Pab) as (d & Ed & Rd). exists (d :: ld).
    rewrite Ed. simpl. rewrite E. simpl. split; [reflexivity|].
    constructor; assumption.
Qed.

Lemma Forall2_map_right {A B D : Type} (P : A -> D -> Prop) (g : B -> D) :
  forall la lb, Forall2 (fun a b => P a (g b)) la lb ->
    Forall2 P la (map g lb).
Proof.
  intros la lb F. induction F; simpl; constructor; assumption.
Qed.

Lemma init_online_run self w :
  exists s, exec (init_online self) (blank self w) = Ok s /\
            online_of self w s.
Proof.
  unfold exec, init_online, create, bind, emit, modify, call, online_of.
  simpl.
  destruct (actor (env_params self) w) as [pa w1]. simpl.
  destruct (critic (env_params self) w1) as [pc w2]. simpl.
  eexists. split; [reflexivity|]. simpl. auto.
Qed.

Lemma init_rest_run self s :
  exists s', exec (init_rest self) s = Ok s' /\ constructed self s s'.
Proof.
  unfold exec, init_rest, create, load_state_dict, bind, emit, modify, call,
    constructed.
  simpl.
  destruct (actor (env_params self) (world s)) as [pa w1]. simpl.
  destruct (critic (env_params self) w1) as [pc w2]. simpl.
  destruct (Get_rank self =? 0)%nat; simpl;
    (eexists; split; [reflexivity|]; simpl;
     repeat rewrite <- app_assoc; simpl; auto 10).
Qed.

Lemma init_run c0 w0 rest :
  exists sts, __init__ ((c0, w0) :: rest) = Ok sts /\
              Forall2 (started c0 w0) ((c0, w0) :: rest) sts.
Proof.
  unfold __init__.
  destruct (mapM_total
              (fun cw => exec (init_online (fst cw)) (blank (fst cw) (snd cw)))
              (fun cw s => online_of (fst cw) (snd cw) s)
              (fun cw => init_online_run (fst cw) (snd cw))
              ((c0, w0) :: rest)) as (online & E & F).
  rewrite E. cbv beta iota delta [res_bind].
  inversion F as [|cw o0 l orest H0 Hrest]; subst.
  simpl in H0. destruct H0 as (Ha0 & Hc0 & Ht0).
  apply mapM_combine_total
    with (P := fun (cw : Config * World) (s : St) =>
                 parameters (actor_network (agent s)) =
                   fst (actor (env_params c0) w0) /\
                 parameters (critic_network (agent s)) =
                   fst (critic (env_params c0)
                          (snd (actor (env_params c0) w0))) /\
                 trace s = [EvCreateNet Actor; EvCreateNet Critic;
                            EvSyncNetworks Actor; EvSyncNetworks Critic]).
  - intros [c w] s (Ha & Hc & Ht). simpl.
    destruct (init_rest_run c s) as (s' & Es & K).
    exists s'. split; [assumption|].
    destruct K as (Ka & Kc & Kat & Kct & Kb & Kt).
    unfold started, constructor_log. simpl.
    rewrite Ka, Kc, Kat, Kct, Kt, Ha, Hc, Ht. auto 10.
  - change (sync_networks Actor (o0 :: orest))
      with (broadcast Actor o0 o0 :: map (broadcast Actor o0) orest).
    change (sync_networks Critic
              (broadcast Actor o0 o0 :: map (broadcast Actor o0) orest))
      with (map (broadcast Critic (broadcast Actor o0 o0))
              (map (broadcast Actor o0) (o0 :: orest))).
    do 2 apply Forall2_map_right.
    apply Forall2_impl with (2 := F).
    intros [c w] o (_ & _ & Ht). simpl.
    rewrite Ha0, Hc0, Ht. auto.
Qed.

(** C4.  In a cohort of workers that construct their agents together,
    every worker's constructor returns; its log shows the two
    [sync_networks] calls (actor, then critic) after the online networks
    are created and before the target networks are created and load the
    online weights; afterwards every worker's actor and critic carry the
    parameter values the coordinator created, and every worker's target
    networks carry the same values as its online networks. *)
Theorem init_synchronizes_before_targets
  (c0 : Config) (w0 : World) (rest : list (Config * World)) :
  exists sts,
    __init__ ((c0, w0) :: rest) = Ok sts /\
    Forall2
      (fun cw s =>
         trace s =
           [EvCreateNet Actor; EvCreateNet Critic;
            EvSyncNetworks Actor; EvSyncNetworks Critic;
            EvCreateNet ActorTarget; EvCreateNet CriticTarget;
            EvLoadStateDict ActorTarget Actor;
            EvLoadStateDict CriticTarget Critic]
           ++ (if (Get_rank (fst cw) =? 0)%nat then [EvMakeDirs] else []) /\
         parameters (actor_network (agent s)) =
           fst (actor (env_params c0) w0) /\
         parameters (critic_network (agent s)) =
           fst (critic (env_params c0) (snd (actor (env_params c0) w0))) /\
         parameters (actor_target_network (agent s)) =
           parameters (actor_network (agent s)) /\
         parameters (critic_target_network (agent s)) =
           parameters (critic_network (agent s)))
      ((c0, w0) :: rest) sts.
Proof.
  destruct (init_run c0 w0 rest) as (sts & E & F).
  exists sts. split; [assumption|].
  apply Forall2_impl with (2 := F).
  intros cw s (Ha & Hc & Hat & Hct & _ & Ht).
  unfold constructor_log in Ht. auto 10.
Qed.

End Construction.

(** ** The training cycle *)

Section Cycle.

Context {C : Collaborators}.

Open Scope agent_scope.

Lemma callback_set_net i n a : callback (set_net i n a) = callback a.
Proof. reflexivity. Qed.

Lemma callback_set_optim i o a : callback (set_optim i o a) = callback a.
Proof. reflexivity. Qed.

Lemma her_module_set_net i n a :
  her_module (set_net i n a) = her_module a.
Proof. reflexivity. Qed.

Lemma her_module_set_optim i o a :
  her_module (set_optim i o a) = her_module a.
Proof. reflexivity. Qed.

Lemma store_episode_run mb s s' u :
  store_episode mb s = Ok (u, s') ->
  trace s' = trace s ++ [EvStoreEpisode mb] /\
  world s' = world s /\
  her_module (agent s') = her_module (agent s) /\
  callback (agent s') = callback (agent s).
Proof.
  unfold store_episode. intros H. run.
  split; [back_trace; reflexivity|].
  split; [congruence|].
  back_agent. split; reflexivity.
Qed.

Variable self : Config.

(** The minibatch loop of a cycle: [n] updates draw [n] minibatches. *)
Lemma updates_run n :
  forall i s s' u,
    for_from i n (fun _ _ => network_updating self) tt s = Ok (u, s') ->
    exists l, trace s' = trace s ++ l /\
              forallb is_update_event l = true /\
              length (filter is_buffer_sample l) = n.
Proof.
  induction n as [|n IH]; intros i s s' u H; simpl in H.
  - run. exists []. rewrite app_nil_r. auto.
  - run. destruct a. destruct (IH _ _ _ _ H) as (l & El & Fl & Nl).
    apply network_updating_run in Hm.
    destruct Hm as (t & inp & ar & q & tq & rq & ga & wa & gc & wc
                    & _ & _ & Ht & _).
    eexists. split; [rewrite El, Ht, <- app_assoc; reflexivity|].
    rewrite forallb_app, filter_app, length_app, Fl, Nl. simpl. auto.
Qed.

Lemma cycle_keeps {X : Type} (f : Agent -> X) :
  (forall i n a, f (set_net i n a) = f a) ->
  (forall i o a, f (set_optim i o a) = f a) ->
  (forall i n a, f (set_norm i n a) = f a) ->
  (forall b a, rb_sample_func b = callback a ->
               f (set_buffer b a) = f a) ->
  forall k u, keeps f (cycle self k u).
Proof.
  intros Hnet Hoptim Hnorm Hbuf k u. unfold cycle, for_range.
  apply keeps_bind; [now apply keeps_collect_rollouts | intros mb].
  apply keeps_bind.
  { unfold store_episode.
    repeat first [ keeps_step
                 | apply keeps_modify; intros ?; apply Hbuf; reflexivity ]. }
  intros _. apply keeps_bind.
  { unfold _update_normalizer, her_sample, update, recompute_stats.
    cbv zeta.
    repeat first [ keeps_step
                 | apply keeps_modify; intros ?; now rewrite Hnorm ]. }
  intros _. apply keeps_bind.
  { apply keeps_for_from. intros. now apply keeps_network_updating. }
  intros _. apply keeps_bind; [now apply keeps_soft_update | intros _].
  now apply keeps_soft_update.
Qed.

(** The run of one cycle. *)
Lemma cycle_run k u s s' u' :
  cycle self k u s = Ok (u', s') ->
  exists mb s1 rollouts bt n og w updates,
    collect_rollouts self s = Ok (mb, s1) /\
    trace s1 = trace s ++ rollouts /\
    forallb is_rollout_event rollouts = true /\
    buffer_temp_of mb bt /\
    (let t := fst (sample_her_transitions (her_module (agent s)) bt n w) in
     og = _preproc_og self (tr_obs t) (tr_g t)) /\
    trace s' = trace s ++ rollouts ++
      [EvStoreEpisode mb; EvSampleHer bt n;
       EvNormUpdate ONorm (fst og); EvNormUpdate GNorm (snd og);
       EvNormRecompute ONorm; EvNormRecompute GNorm] ++ updates /\
    forallb is_update_event updates = true /\
    length (filter is_buffer_sample updates) = n_batches (args self).
Proof.
  unfold cycle. intros H.
  apply bind_ok in H. destruct H as (mb & s1 & Hc & H).
  apply bind_ok in H. destruct H as (? & s2 & Hs & H).
  apply bind_ok in H. destruct H as (? & s3 & Hn & H).
  apply bind_ok in H. destruct H as (? & s4 & Hu & H).
  apply bind_ok in H. destruct H as (? & s5 & Ha & H).
  destruct (emits_collect_rollouts self _ Hc) as (rollouts & Et1 & F1).
  assert (Eh1 : her_module (agent s1) = her_module (agent s)).
  { eapply (@keeps_collect_rollouts _ self _ her_module);
      first [exact Hc | reflexivity]. }
  apply store_episode_run in Hs. destruct Hs as (Et2 & Ew2 & Eh2 & _).
  apply update_normalizer_run in Hn.
  destruct Hn as (bt & n & og & wo & wg & Hbt & _ & Hog & Et3 & _).
  apply updates_run in Hu. destruct Hu as (updates & Et4 & F4 & N4).
  destruct (emits_soft_update self no_event _ _ _ Ha) as (l5 & Et5 & F5).
  destruct (emits_soft_update self no_event _ _ _ H) as (l6 & Et6 & F6).
  assert (l5 = []) by (destruct l5; [reflexivity | discriminate F5]).
  assert (l6 = []) by (destruct l6; [reflexivity | discriminate F6]).
  subst l5 l6. rewrite app_nil_r in Et5, Et6.
  exists mb, s1, rollouts, bt, n, og, (world s2), updates.
  split; [assumption|]. split; [assumption|]. split; [assumption|].
  split; [assumption|].
  split.
  { cbv zeta in *. rewrite Hog, Eh2, Eh1. reflexivity. }
  split; [|split; assumption].
  rewrite Et6, Et5, Et4, Et3, Et2, Et1.
  repeat rewrite <- app_assoc. reflexivity.
Qed.

Lemma Forall2_right {A B : Type} (R : A -> B -> Prop) (P : B -> Prop) :
  (forall a b, R a b -> P b) ->
  forall la lb, Forall2 R la lb -> Forall P lb.
Proof. intros HR la lb F. induction F; constructor; eauto. Qed.

(** C3.  The buffer of every constructed worker carries the relabeling
    function of the worker's own [her_module] as its sampling callback,
    and a cycle changes neither.  In every cycle that returns, the log
    reads: the rollouts that collect the batch [mb]; [store_episode(mb)];
    [sample_her_transitions] on the [buffer_temp] built from that same
    [mb]; [update] of the observation and the goal normalizer with the
    clipped observations and goals of the transitions it returned, and
    [recompute_stats] of both; and only then the updates, which draw
    [n_batches] minibatches through [buffer.sample]. *)
Theorem store_then_normalize_then_sample :
  (forall c0 w0 rest,
      exists sts, __init__ ((c0, w0) :: rest) = Ok sts /\ Forall wired sts) /\
  (forall k u s s' u',
      cycle self k u s = Ok (u', s') ->
      (exists mb s1 rollouts bt n og w updates,
          collect_rollouts self s = Ok (mb, s1) /\
          trace s1 = trace s ++ rollouts /\
          forallb is_rollout_event rollouts = true /\
          buffer_temp_of mb bt /\
          (let t :=
             fst (sample_her_transitions (her_module (agent s)) bt n w) in
           og = _preproc_og self (tr_obs t) (tr_g t)) /\
          trace s' = trace s ++ rollouts ++
            [EvStoreEpisode mb; EvSampleHer bt n;
             EvNormUpdate ONorm (fst og); EvNormUpdate GNorm (snd og);
             EvNormRecompute ONorm; EvNormRecompute GNorm] ++ updates /\
          forallb is_update_event updates = true /\
          length (filter is_buffer_sample updates) = n_batches (args self)) /\
      her_module (agent s') = her_module (agent s) /\
      rb_sample_func (buffer (agent s')) = rb_sample_func (buffer (agent s))).
Proof.
  split.
  - intros c0 w0 rest. destruct (init_run c0 w0 rest) as (sts & E & F).
    exists sts. split; [assumption|].
    apply Forall2_right with (2 := F).
    intros cw s (_ & _ & _ & _ & Hb & _). exact Hb.
  - intros k u s s' u' H. split; [|split].
    + eapply cycle_run; eassumption.
    + eapply (@cycle_keeps _ her_module); first [exact H | reflexivity].
    + eapply (@cycle_keeps _ callback);
        first [exact H | reflexivity | intros ? ? Hb; exact Hb].
Qed.

End Cycle.

Lemma store_then_normalize_then_sample_witness :
  let self := Toy.worker 0 (- (1)) false in
  (exists mb s1 rollouts bt n og w updates,
      collect_rollouts self Toy.start = Ok (mb, s1) /\
      trace s1 = trace Toy.start ++ rollouts /\
      forallb is_rollout_event rollouts = true /\
      buffer_temp_of mb bt /\
      (let t :=
         fst (@sample_her_transitions Toy.collaborators
                (her_module (agent Toy.start)) bt n w) in
       og = _preproc_og self (tr_obs t) (tr_g t)) /\
      trace Toy.trained = trace Toy.start ++ rollouts ++
        [EvStoreEpisode mb; EvSampleHer bt n;
         EvNormUpdate ONorm (fst og); EvNormUpdate GNorm (snd og);
         EvNormRecompute ONorm; EvNormRecompute GNorm] ++ updates /\
      forallb is_update_event updates = true /\
      length (filter is_buffer_sample updates) = n_batches (args self)) /\
  her_module (agent Toy.trained) = her_module (agent Toy.start) /\
  rb_sample_func (buffer (agent Toy.trained)) =
    rb_sample_func (buffer (agent Toy.start)).
Proof.
  intros self.
  apply (proj2 (store_then_normalize_then_sample self) 0%nat tt Toy.start
           Toy.trained tt).
  vm_compute. reflexivity.
Defined.

(** ** Evaluation *)

Section Evaluation.

Context {C : Collaborators}.

Open Scope agent_scope.

Lemma step_flags_app l r : step_flags (l ++ r) = step_flags l ++ step_flags r.
Proof.
  induction l as [|e l IH]; simpl; [reflexivity|].
  destruct e; simpl; rewrite ?IH; reflexivity.
Qed.

Lemma no_reset_app l r : no_reset l -> no_reset r -> no_reset (l ++ r).
Proof. unfold no_reset. intros Hl Hr. now rewrite forallb_app, Hl, Hr. Qed.

Lemma run_flags_app l r :
  no_reset l -> run_flags (l ++ r) = step_flags l ++ run_flags r.
Proof.
  unfold no_reset. induction l as [|e l IH]; simpl; [reflexivity|].
  intros H. apply andb_prop in H. destruct H as [He Hl].
  destruct e; simpl in *; try discriminate He; rewrite ?(IH Hl); reflexivity.
Qed.

Lemma episodes_app l r : no_reset l -> episodes (l ++ r) = episodes r.
Proof.
  unfold no_reset. induction l as [|e l IH]; simpl; [reflexivity|].
  intros H. apply andb_prop in H. destruct H as [He Hl].
  destruct e; simpl in *; try discriminate He; exact (IH Hl).
Qed.

Lemma last_column_final m v :
  Np.last_column m = Ok v -> v = map final_flag m.
Proof.
  revert v. induction m as [|r m IH]; simpl; intros v H.
  - inversion H. reflexivity.
  - destruct (rev r) as [|x t] eqn:E; [discriminate H|].
    apply res_bind_ok in H. destruct H as (v' & Hv & H).
    inversion H. subst v. rewrite (IH _ Hv). f_equal.
    unfold final_flag.
    assert (Er : r = rev t ++ [x]).
    { rewrite <- (rev_involutive r), E. reflexivity. }
    rewrite Er. symmetry. apply last_last.
Qed.

Lemma column_m1_final m v :
  Np.column_m1 m = Ok v -> v = map final_flag m.
Proof.
  unfold Np.column_m1. destruct m; [discriminate|]. apply last_column_final.
Qed.

Variable self : Config.

Lemma test_step_run i v s v' s' :
  test_step self i v s = Ok (v', s') ->
  exists a r d info,
    trace s' =
      trace s ++ [EvNormalize ONorm; EvNormalize GNorm; EvEnvStep a r d info] /\
    per_success_rate v' = per_success_rate v ++ [is_success info].
Proof.
  unfold test_step, input_preprocessing, normalize1, actor_call, step.
  intros H. run. do 4 eexists. split; [back_trace; reflexivity|].
  reflexivity.
Qed.

(** The timestep loop of one test rollout. *)
Lemma test_steps_run n :
  forall i v s v' s',
    for_from i n (test_step self) v s = Ok (v', s') ->
    exists l, trace s' = trace s ++ l /\ no_reset l /\
              per_success_rate v' = per_success_rate v ++ step_flags l /\
              length (step_flags l) = n.
Proof.
  induction n as [|n IH]; intros i v s v' s' H; simpl in H.
  - run. exists []. rewrite !app_nil_r. repeat split; reflexivity.
  - run. apply test_step_run in Hm.
    destruct Hm as (a' & r & d & info & Et & Ep).
    destruct (IH _ _ _ _ _ H) as (l & El & Nl & Pl & Ll).
    exists ([EvNormalize ONorm; EvNormalize GNorm; EvEnvStep a' r d info] ++ l).
    split; [rewrite El, Et, <- app_assoc; reflexivity|].
    split; [apply no_reset_app; [reflexivity | assumption]|].
    rewrite step_flags_app, Pl, Ep, <- app_assoc. simpl.
    split; [reflexivity | now rewrite Ll].
Qed.

Lemma test_rollout_run i total s total' s' :
  test_rollout self i total s = Ok (total', s') ->
  exists l, trace s' = trace s ++ EvEnvReset :: l /\ no_reset l /\
            total' = total ++ [step_flags l] /\
            length (step_flags l) = max_timesteps (env_params self).
Proof.
  unfold test_rollout, reset, for_range. intros H.
  apply bind_ok in H. destruct H as (o & s1 & Hr & H).
  apply bind_ok in H. destruct H as (v & s2 & Hl & H).
  apply test_steps_run in Hl. destruct Hl as (l & El & Nl & Pl & Ll).
  run. exists l. split; [rewrite El; back_trace; reflexivity|].
  split; [assumption|]. simpl in Pl. rewrite Pl. auto.
Qed.

(** The rollout loop of [evaluation]: one episode per iteration. *)
Lemma test_rollouts_run n :
  forall i total s total' s',
    for_from i n (test_rollout self) total s = Ok (total', s') ->
    exists l, trace s' = trace s ++ l /\ run_flags l = [] /\
              total' = total ++ episodes l /\
              length (episodes l) = n /\
              Forall (fun ep => length ep = max_timesteps (env_params self))
                     (episodes l).
Proof.
  induction n as [|n IH]; intros i total s total' s' H; simpl in H.
  - run. exists []. rewrite !app_nil_r. repeat split; constructor.
  - run. apply test_rollout_run in Hm.
    destruct Hm as (l1 & E1 & N1 & T1 & L1).
    destruct (IH _ _ _ _ _ H) as (l & El & Rl & Tl & Ll & Fl).
    exists ((EvEnvReset :: l1) ++ l).
    split; [rewrite El, E1, <- app_assoc; reflexivity|].
    split; [reflexivity|].
    simpl. rewrite (run_flags_app _ N1), Rl, app_nil_r, (episodes_app _ N1).
    split; [rewrite Tl, T1, <- app_assoc; reflexivity|].
    split; [simpl; now rewrite Ll|].
    constructor; assumption.
Qed.

(** Lines 265-284: the local rate is the mean, over the episodes the call
    ran, of the flag of the final timestep. *)
Lemma local_success_rate_run s local s' :
  local_success_rate self s = Ok (local, s') ->
  exists l, trace s' = trace s ++ l /\
            agent s' = agent s /\
            length (episodes l) = n_test_rollouts (args self) /\
            Forall (fun ep => length ep = max_timesteps (env_params self))
                   (episodes l) /\
            local = Np.mean (map final_flag (episodes l)).
Proof.
  unfold local_success_rate, for_range. intros H.
  assert (Ea : agent s' = agent s).
  { eapply (@keeps_local_success_rate _ self _ (fun a => a));
      first [exact H | reflexivity]. }
  apply bind_ok in H. destruct H as (total & s1 & Hl & H).
  apply test_rollouts_run in Hl. destruct Hl as (l & El & _ & Tl & Ll & Fl).
  simpl in Tl. subst total. run. exists l.
  match goal with H : Np.column_m1 _ = Ok _ |- _ =>
    apply column_m1_final in H; subst end.
  auto.
Qed.

End Evaluation.

Section Evaluation_cohort.

Context {C : Collaborators}.

Open Scope Q_scope.

Lemma mapM_ok {A B : Type} (f : A -> Res B) :
  forall l bs, mapM f l = Ok bs -> Forall2 (fun a b => f a = Ok b) l bs.
Proof.
  induction l as [|a l IH]; simpl; intros bs H.
  - inversion H. constructor.
  - apply res_bind_ok in H. destruct H as (b & Eb & H).
    apply res_bind_ok in H. destruct H as (bs' & Ebs & H).
    inversion H. constructor; auto.
Qed.

Lemma Forall_combine_map {A B D : Type} (g : A * B -> D) (P : D -> Prop) :
  forall la lb,
    (forall a b, In a la -> P (g (a, b))) ->
    Forall P (map g (combine la lb)).
Proof.
  intros la lb H. apply Forall_forall. intros d Hd.
  apply in_map_iff in Hd. destruct Hd as ([a b] & <- & Hin).
  apply H. eapply in_combine_l; eassumption.
Qed.

(** [evaluation()] of one worker, given its local rate: the all-reduce
    delivers a value and the worker divides it by the worker count. *)
Lemma evaluation_of_local self s local s1 :
  local_success_rate self s = Ok (local, s1) ->
  evaluation self s =
    Ok (global_rate self (fst (allreduce_SUM local (world s1))),
        {| agent := agent s1;
           world := snd (allreduce_SUM local (world s1));
           trace := trace s1 ++ [EvAllreduce local] |}).
Proof.
  intros H. unfold evaluation, bind. rewrite H.
  unfold allreduce, bind, emit, call. simpl.
  destruct (allreduce_SUM local (world s1)). reflexivity.
Qed.

(** C8.  In a cohort that ran [evaluation()] together, every worker
    receives the same value: the sum of the workers' local success rates
    divided by the number of workers.  The local rate of a worker is the
    mean, over the [n_test_rollouts] episodes its call ran, of the
    [is_success] flag of each episode's final timestep; it is what the
    worker contributes to the all-reduce, and the worker's own
    [evaluation()] returns the cohort's value whenever the all-reduce
    delivers the sum to it. *)
Theorem evaluation_is_mean_of_local_rates
  (cohort : list (Config * St)) (results : list (Q * St)) :
  coherent cohort ->
  evaluation_all cohort = Ok results ->
  exists locals : list Q,
    Forall2
      (fun cs local =>
         exists l s1,
           local_success_rate (fst cs) (snd cs) = Ok (local, s1) /\
           trace s1 = trace (snd cs) ++ l /\
           length (episodes l) = n_test_rollouts (args (fst cs)) /\
           Forall (fun ep => length ep = max_timesteps (env_params (fst cs)))
                  (episodes l) /\
           local = Np.mean (map final_flag (episodes l)))
      cohort locals /\
    Forall
      (fun r =>
         fst r = MPI_SUM locals / inject_Z (Z.of_nat (length cohort)))
      results /\
    Forall2
      (fun cs r =>
         forall local s1,
           local_success_rate (fst cs) (snd cs) = Ok (local, s1) ->
           trace (snd r) = trace s1 ++ [EvAllreduce local] /\
           (fst (allreduce_SUM local (world s1)) = MPI_SUM locals ->
            exists s',
              evaluation (fst cs) (snd cs) = Ok (fst r, s') /\
              agent s' = agent (snd r) /\ trace s' = trace (snd r)))
      cohort results.
Proof.
  intros Hco H. unfold evaluation_all in H.
  apply res_bind_ok in H. destruct H as (ls & E & H).
  inversion H as [Hr]. clear H.
  apply mapM_ok in E.
  exists (map fst ls). split; [|split].
  - apply Forall2_map_right. apply Forall2_impl with (2 := E).
    intros [c s] [local s1] Hl. simpl in *.
    destruct (local_success_rate_run _ _ Hl) as (l & Et & _ & Ll & Fl & Em).
    exists l, s1. auto.
  - apply Forall_combine_map. intros [c s] [local s1] Hin. simpl.
    unfold coherent in Hco. rewrite Forall_forall in Hco.
    specialize (Hco _ Hin). simpl in Hco.
    unfold global_rate. rewrite <- Hco, positive_nat_Z. reflexivity.
  - clear Hr Hco. generalize (MPI_SUM (map fst ls)). intros total.
    induction E as [|[c s] [local s1] la lb Hl _ IH]; simpl.
    + constructor.
    + constructor; [|exact IH]. simpl in *.
      intros local' s1' Hl'. rewrite Hl in Hl'. inversion Hl'. subst.
      split; [reflexivity|]. intros Hsum.
      rewrite (evaluation_of_local _ _ Hl), Hsum.
      eexists. split; [reflexivity|]. simpl. auto.
Qed.

End Evaluation_cohort.

Lemma evaluation_is_mean_of_local_rates_witness :
  exists locals : list Q,
    Forall2
      (fun cs local =>
         exists l s1,
           local_success_rate (fst cs) (snd cs) = Ok (local, s1) /\
           trace s1 = trace (snd cs) ++ l /\
           length (episodes l) = n_test_rollouts (args (fst cs)) /\
           Forall (fun ep => length ep = max_timesteps (env_params (fst cs)))
                  (episodes l) /\
           local = Np.mean (map final_flag (episodes l)))
      Toy.cohort locals /\
    Forall
      (fun r =>
         fst r = (MPI_SUM locals / inject_Z (Z.of_nat (length Toy.cohort)))%Q)
      Toy.evaluated /\
    Forall2
      (fun cs r =>
         forall local s1,
           local_success_rate (fst cs) (snd cs) = Ok (local, s1) ->
           trace (snd r) = trace s1 ++ [EvAllreduce local] /\
           (fst (allreduce_SUM local (world s1)) = MPI_SUM locals ->
            exists s',
              evaluation (fst cs) (snd cs) = Ok (fst r, s') /\
              agent s' = agent (snd r) /\ trace s' = trace (snd r)))
      Toy.cohort Toy.evaluated.
Proof.
  apply (@evaluation_is_mean_of_local_rates _ Toy.cohort Toy.evaluated).
  - vm_compute. repeat constructor.
  - vm_compute. reflexivity.
Defined.

(** ** Rewards returned by the simulator *)

Section Rewards.

Context {C : Collaborators}.

Open Scope agent_scope.

Lemma sim_ret {A : Type} (R : A -> A -> Prop) a1 a2 :
  R a1 a2 -> sim R (ret a1) (ret a2).
Proof. intros H s1 s2 Hs. simpl. auto. Qed.

Lemma sim_bind {A B : Type} (R : A -> A -> Prop) (R' : B -> B -> Prop)
      (m1 m2 : M A) (k1 k2 : A -> M B) :
  sim R m1 m2 ->
  (forall a1 a2, R a1 a2 -> sim R' (k1 a1) (k2 a2)) ->
  sim R' (bind m1 k1) (bind m2 k2).
Proof.
  intros Hm Hk s1 s2 Hs. unfold bind. specialize (Hm s1 s2 Hs).
  destruct (m1 s1) as [[a1 t1]|e1], (m2 s2) as [[a2 t2]|e2]; simpl in Hm;
    try contradiction.
  - destruct Hm as [Ha Ht]. exact (Hk _ _ Ha _ _ Ht).
  - exact Hm.
Qed.

Lemma sim_bind_eq {A B : Type} (R' : B -> B -> Prop)
      (m1 m2 : M A) (k1 k2 : A -> M B) :
  sim eq m1 m2 ->
  (forall a, sim R' (k1 a) (k2 a)) ->
  sim R' (bind m1 k1) (bind m2 k2).
Proof.
  intros Hm Hk. apply sim_bind with (R := eq); [exact Hm|].
  intros a1 a2 <-. apply Hk.
Qed.

Lemma sim_lift {A : Type} (r : Res A) : sim eq (lift r) (lift r).
Proof. intros s1 s2 Hs. unfold lift. destruct r; simpl; auto. Qed.

Lemma sim_raise {A : Type} (R : A -> A -> Prop) e :
  sim R (raise e) (raise e).
Proof. intros s1 s2 Hs. reflexivity. Qed.

Lemma sim_gets {A : Type} (f : Agent -> A) : sim eq (gets f) (gets f).
Proof.
  intros s1 s2 Hs. simpl. split; [|exact Hs].
  destruct Hs as (Ha & _). now rewrite Ha.
Qed.

Lemma sim_modify f : sim eq (modify f) (modify f).
Proof.
  intros s1 s2 (Ha & Hw & Ht). simpl. split; [reflexivity|].
  unfold same_but_rewards. simpl. rewrite Ha. auto.
Qed.

Lemma sim_emit e1 e2 :
  erase_reward e1 = erase_reward e2 -> sim eq (emit e1) (emit e2).
Proof.
  intros He s1 s2 (Ha & Hw & Ht). simpl. split; [reflexivity|].
  unfold same_but_rewards. simpl.
  rewrite !map_app, Ht. simpl. rewrite He. auto.
Qed.

Lemma sim_call {A : Type} (f : World -> A * World) :
  sim eq (call f) (call f).
Proof.
  intros s1 s2 (Ha & Hw & Ht). unfold call. rewrite Hw.
  destruct (f (world s2)) as [a w]. simpl. split; [reflexivity|].
  unfold same_but_rewards. simpl. auto.
Qed.

Lemma sim_for_from {S : Type} (b1 b2 : nat -> S -> M S) n :
  (forall i v, sim eq (b1 i v) (b2 i v)) ->
  forall i v, sim eq (for_from i n b1 v) (for_from i n b2 v).
Proof.
  intros Hb. induction n as [|n IH]; intros i v; simpl.
  - now apply sim_ret.
  - apply sim_bind_eq; [apply Hb | intros; apply IH].
Qed.

Lemma sim_draws n d : sim eq (draws n d) (draws n d).
Proof.
  induction n as [|n IH]; simpl.
  - now apply sim_ret.
  - apply sim_bind_eq; [apply sim_call|]. intros.
    apply sim_bind_eq; [apply IH|]. intros. now apply sim_ret.
Qed.

End Rewards.

Ltac sim_step :=
  first
    [ apply sim_ret; reflexivity | apply sim_lift | apply sim_raise
    | apply sim_gets | apply sim_modify | apply sim_call | apply sim_draws
    | apply sim_emit; reflexivity
    | apply sim_bind_eq; [| intros ?]
    | apply sim_for_from; intros ? ? ].

Section Rewards_methods.

Context {C : Collaborators}.

Open Scope agent_scope.

Variable self : Config.
Variable step' : Vec -> World -> (Observation * Q * bool * Info) * World.

Hypothesis agree : steps_agree (env_step (env self)) step'.

Lemma sim_step_call a : sim same_but_reward (step self a) (step (with_step step' self) a).
Proof.
  intros s1 s2 (Ha & Hw & Ht). unfold step, bind, call, emit, ret. simpl.
  rewrite Hw. destruct (agree a (world s2)) as (Ho & Hi & Hw').
  destruct (env_step (env self) a (world s2)) as [[[[o1 r1] d1] i1] w1].
  destruct (step' a (world s2)) as [[[[o2 r2] d2] i2] w2].
  simpl in *. subst. split; [split; reflexivity|].
  unfold same_but_rewards. simpl. rewrite !map_app, Ht. auto.
Qed.

Lemma sim_reset : sim eq (reset self) (reset (with_step step' self)).
Proof. unfold reset. simpl. repeat sim_step. Qed.

Lemma sim_input_preprocessing obs g :
  sim eq (input_preprocessing obs g) (input_preprocessing obs g).
Proof. unfold input_preprocessing, normalize1. repeat sim_step. Qed.

Lemma sim_actor_call i x : sim eq (actor_call i x) (actor_call i x).
Proof. unfold actor_call. repeat sim_step. Qed.

Lemma sim_critic_call i x a : sim eq (critic_call i x a) (critic_call i x a).
Proof. unfold critic_call. repeat sim_step. Qed.

Lemma sim_choose_actions pi :
  sim eq (_choose_actions self pi) (_choose_actions (with_step step' self) pi).
Proof. unfold _choose_actions. cbv zeta. simpl. repeat sim_step. Qed.

Lemma sim_rollout_step g i v :
  sim eq (rollout_step self g i v) (rollout_step (with_step step' self) g i v).
Proof.
  unfold rollout_step.
  apply sim_bind_eq; [apply sim_input_preprocessing | intros x].
  apply sim_bind_eq; [apply sim_actor_call | intros pi].
  apply sim_bind_eq; [apply sim_choose_actions | intros a].
  eapply sim_bind; [apply sim_step_call|].
  intros r1 r2 (Ho & _). cbv zeta. rewrite Ho. now apply sim_ret.
Qed.

Lemma sim_collect_rollouts :
  sim eq (collect_rollouts self) (collect_rollouts (with_step step' self)).
Proof.
  unfold collect_rollouts, for_range, collect, rollout, for_range. simpl.
  repeat first [ apply sim_reset | apply sim_rollout_step | sim_step ].
Qed.

Lemma sim_test_step i v : sim eq (test_step self i v) (test_step (with_step step' self) i v).
Proof.
  unfold test_step.
  apply sim_bind_eq; [apply sim_input_preprocessing | intros x].
  apply sim_bind_eq; [apply sim_actor_call | intros pi].
  eapply sim_bind; [apply sim_step_call|].
  intros r1 r2 (Ho & Hi). cbv zeta. rewrite Ho, Hi. now apply sim_ret.
Qed.

Lemma sim_evaluation : sim eq (evaluation self) (evaluation (with_step step' self)).
Proof.
  unfold evaluation, local_success_rate, for_range, test_rollout, for_range,
    allreduce.
  simpl.
  repeat first [ apply sim_reset | apply sim_test_step | sim_step ].
Qed.

Lemma sim_sample n : sim eq (sample n) (sample n).
Proof.
  unfold sample. repeat sim_step.
  match goal with |- context [match ?x with _ => _ end] => destruct x end;
    sim_step.
Qed.

Lemma sim_network_updating :
  sim eq (network_updating self) (network_updating (with_step step' self)).
Proof.
  unfold network_updating, normalize, zero_grad, loss_backward,
    sync_grads_call, optim_step.
  cbv zeta. simpl.
  repeat first [ apply sim_sample | apply sim_actor_call
               | apply sim_critic_call | sim_step ].
Qed.

Lemma sim_soft_update t s :
  sim eq (_soft_update_target_network self t s)
         (_soft_update_target_network (with_step step' self) t s).
Proof. unfold _soft_update_target_network. simpl. repeat sim_step. Qed.

Lemma sim_update_normalizer mb :
  sim eq (_update_normalizer self mb) (_update_normalizer (with_step step' self) mb).
Proof.
  unfold _update_normalizer, her_sample, update, recompute_stats.
  cbv zeta. simpl. repeat sim_step.
Qed.

Lemma sim_cycle k u : sim eq (cycle self k u) (cycle (with_step step' self) k u).
Proof.
  unfold cycle, for_range, store_episode. simpl.
  repeat first [ apply sim_collect_rollouts | apply sim_update_normalizer
               | apply sim_network_updating | apply sim_soft_update
               | sim_step ].
Qed.

Lemma sim_epoch k v : sim eq (epoch self k v) (epoch (with_step step' self) k v).
Proof.
  unfold epoch, for_range. simpl.
  apply sim_bind_eq; [apply sim_for_from; intros; apply sim_cycle | intros _].
  apply sim_bind_eq; [apply sim_evaluation | intros rate].
  destruct (Get_rank self =? 0)%nat; repeat sim_step.
Qed.

Lemma sim_training : sim eq (training self) (training (with_step step' self)).
Proof.
  unfold training, for_range. simpl.
  apply sim_bind_eq; [apply sim_for_from; intros; apply sim_epoch | intros _].
  destruct (Get_rank self =? 0)%nat; repeat sim_step.
Qed.

End Rewards_methods.

Section Rewards_noninterference.

Context {C : Collaborators}.

(** C1.  The reward (and the done flag) returned by [env.step] is
    discarded.  Replace the simulator's [step] by one that returns other
    rewards and done flags but the same observations, [info] and next
    state: every training cycle, and the whole of [training], ends with
    the same agent (networks, optimizers, normalizers and replay buffer
    with all it stored), the same outside world and the same log of calls
    up to the rewards shown in the logged [env.step] results; in
    particular [store_episode] receives the same four arrays and every
    critic loss is formed from the same target.  The target of an update
    is computed from the field ['r'] of the transitions that the buffer's
    sampling function returned for that update. *)
Theorem env_rewards_are_discarded
  (self : Config)
  (step' : Vec -> World -> (Observation * Q * bool * Info) * World) :
  steps_agree (env_step (env self)) step' ->
  (forall k u s1 s2,
      same_but_rewards s1 s2 ->
      same_outcome (cycle self k u s1) (cycle (with_step step' self) k u s2)) /\
  (forall s1 s2,
      same_but_rewards s1 s2 ->
      same_outcome (training self s1) (training (with_step step' self) s2)) /\
  (forall s s' u,
      network_updating self s = Ok (u, s') ->
      exists raw w transitions q_next tq rq pre post,
        transitions =
          fst (rb_sample_func (buffer (agent s)) raw
                 (batch_size (args self)) w) /\
        target_q self (tr_r transitions) q_next = Ok tq /\
        trace s' = trace s ++ pre ++ EvBackward (CriticLoss tq rq) :: post /\
        forallb (fun e => negb (is_critic_backward e)) (pre ++ post) = true).
Proof.
  intros Hagree. split; [|split].
  - intros k u s1 s2 Hs. exact (@sim_cycle _ self step' Hagree k u s1 s2 Hs).
  - intros s1 s2 Hs. exact (@sim_training _ self step' Hagree s1 s2 Hs).
  - intros s s' u H. apply network_updating_run in H.
    destruct H as (t & i & a & q & tq & rq & ga & wa & gc & wc
                   & (raw & w & Et) & Htq & Ht & _).
    exists raw, w, t, q, tq, rq.
    exists [EvBufferSample (batch_size (args self));
            EvNormalize ONorm; EvNormalize GNorm;
            EvNormalize ONorm; EvNormalize GNorm;
            EvZeroGrad Actor; EvBackward (ActorLoss i a);
            EvSyncGrads Actor; EvOptimStep Actor; EvZeroGrad Critic].
    exists [EvSyncGrads Critic; EvOptimStep Critic].
    repeat split; assumption.
Qed.

End Rewards_noninterference.

Lemma env_rewards_are_discarded_witness :
  let self := Toy.worker 0 (- (1)) false in
  let step' := env_step (Toy.simulator 5 true) in
  (forall k u s1 s2,
      same_but_rewards s1 s2 ->
      same_outcome (cycle self k u s1) (cycle (with_step step' self) k u s2)) /\
  (forall s1 s2,
      same_but_rewards s1 s2 ->
      same_outcome (training self s1) (training (with_step step' self) s2)) /\
  (forall s s' u,
      network_updating self s = Ok (u, s') ->
      exists raw w transitions q_next tq rq pre post,
        transitions =
          fst (rb_sample_func (buffer (agent s)) raw
                 (batch_size (args self)) w) /\
        target_q self (tr_r transitions) q_next = Ok tq /\
        trace s' = trace s ++ pre ++ EvBackward (CriticLoss tq rq) :: post /\
        forallb (fun e => negb (is_critic_backward e)) (pre ++ post) = true).
Proof.
  intros self step'.
  apply (@env_rewards_are_discarded _ self step').
  intros a w. simpl. repeat split; reflexivity.
Defined.

(** ** What the updates leave alone *)

Section Frames.

Context {C : Collaborators}.

Variable self : Config.

Open Scope Q_scope.
Open Scope agent_scope.

Lemma get_set_net_other i j n a : j <> i -> get_net j (set_net i n a) = get_net j a.
Proof. destruct i, j; intros H; try reflexivity; now elim H. Qed.

(** An attribute that assignments to the online networks and to the
    optimizers do not touch survives an update. *)
Lemma keeps_network_updating_online {X : Type} (f : Agent -> X) :
  (forall n a, f (set_net Actor n a) = f a) ->
  (forall n a, f (set_net Critic n a) = f a) ->
  (forall i o a, f (set_optim i o a) = f a) ->
  keeps f (network_updating self).
Proof.
  intros Ha Hc Ho.
  unfold network_updating, normalize, zero_grad, loss_backward,
    sync_grads_call, optim_step.
  cbv zeta.
  repeat first [ apply keeps_sample | apply keeps_actor_call
               | apply keeps_critic_call | keeps_step
               | apply keeps_modify; intros ?;
                 now rewrite ?Ho, ?Ha, ?Hc ].
Qed.

(** X1.  A network update changes the online actor and critic and their
    optimizers only: the two target networks, both normalizers and the
    hindsight sampler are what they were before the call. *)
Theorem network_updating_leaves_targets s s' u :
  network_updating self s = Ok (u, s') ->
  actor_target_network (agent s') = actor_target_network (agent s) /\
  critic_target_network (agent s') = critic_target_network (agent s) /\
  o_norm (agent s') = o_norm (agent s) /\
  g_norm (agent s') = g_norm (agent s) /\
  her_module (agent s') = her_module (agent s).
Proof.
  intros H.
  pose proof (@keeps_network_updating_online _
                (fun a => (actor_target_network a, critic_target_network a,
                           o_norm a, g_norm a, her_module a))
                (fun _ _ => eq_refl) (fun _ _ => eq_refl)
                (fun _ _ _ => eq_refl) s u s' H) as K.
  simpl in K. inversion K. auto.
Qed.

(** The run of a soft update. *)
Lemma soft_update_run target source s s' u :
  _soft_update_target_network self target source s = Ok (u, s') ->
  exists new,
    soft_update self (parameters (get_net target (agent s)))
                (parameters (get_net source (agent s))) = Ok new /\
    agent s' =
      set_net target (set_parameters new (get_net target (agent s))) (agent s) /\
    world s' = world s /\ trace s' = trace s.
Proof.
  unfold _soft_update_target_network. intros H. run.
  eexists. split; [eassumption|]. auto.
Qed.

(** X2.  A soft update writes the parameters of the target network and
    nothing else: every other network, the target's gradients, the
    optimizers, normalizers, buffer and sampler, the outside world and the
    log are unchanged; the target keeps its number of parameter tensors,
    and tensors beyond the last one of the source ([zip] stops at the
    shorter list) keep their values. *)
Theorem soft_update_writes_target_parameters_only target source s s' u :
  _soft_update_target_network self target source s = Ok (u, s') ->
  (forall j, j <> target -> get_net j (agent s') = get_net j (agent s)) /\
  grad (get_net target (agent s')) = grad (get_net target (agent s)) /\
  actor_optim (agent s') = actor_optim (agent s) /\
  critic_optim (agent s') = critic_optim (agent s) /\
  o_norm (agent s') = o_norm (agent s) /\
  g_norm (agent s') = g_norm (agent s) /\
  buffer (agent s') = buffer (agent s) /\
  her_module (agent s') = her_module (agent s) /\
  world s' = world s /\ trace s' = trace s /\
  length (parameters (get_net target (agent s'))) =
    length (parameters (get_net target (agent s))) /\
  forall i,
    (length (parameters (get_net source (agent s))) <= i)%nat ->
    nth_error (parameters (get_net target (agent s'))) i =
    nth_error (parameters (get_net target (agent s))) i.
Proof.
  intros H. apply soft_update_run in H.
  destruct H as (new & Hs & Ha & Hw & Ht).
  destruct (soft_update_rest _ _ _ Hs) as [Hl Hi].
  rewrite Ha.
  split; [intros j Hj; now apply get_set_net_other|].
  rewrite get_set_net. simpl.
  repeat split; try reflexivity; try assumption.
Qed.

(** One pair of the loop returns exactly when the source tensor has the
    shape of the target tensor or a single entry. *)
Lemma blend_same x :
  Forall2 Qeq
    (Np.map2 Qplus (Np.scale (1 - polyak (args self)) x)
                   (Np.scale (polyak (args self)) x))
    x.
Proof. induction x as [|v x IH]; simpl; constructor; [ring | exact IH]. Qed.

Lemma soft_update_same p :
  exists new, soft_update self p p = Ok new /\ Forall2 (Forall2 Qeq) new p.
Proof.
  induction p as [|x p (new & E & F)]; simpl.
  - exists []. split; [reflexivity | constructor].
  - unfold Np.add.
    rewrite binop_same_length by (unfold Np.scale; now rewrite !length_map).
    simpl res_bind. unfold Np.copy_.
    assert (L : length (Np.map2 Qplus
                          (Np.scale (1 - polyak (args self)) x)
                          (Np.scale (polyak (args self)) x)) = length x)
      by (unfold Np.scale; now rewrite map2_length, !length_map, Nat.min_id).
    rewrite L, Nat.eqb_refl. simpl res_bind. rewrite E. simpl res_bind.
    eexists. split; [reflexivity|].
    constructor; [apply blend_same | exact F].
Qed.

(** X3.  A target that holds the parameter values of the online network,
    which is the state [load_state_dict] leaves in the constructor, is a
    fixed point of the soft update: the call returns and every parameter
    value of the target is what it was, since blending a value with
    itself gives the value. *)
Theorem soft_update_of_synchronized_target target source s :
  parameters (get_net target (agent s)) =
    parameters (get_net source (agent s)) ->
  exists s',
    _soft_update_target_network self target source s = Ok (tt, s') /\
    Forall2 (Forall2 Qeq)
            (parameters (get_net target (agent s')))
            (parameters (get_net target (agent s))).
Proof.
  intros H.
  destruct (soft_update_same (parameters (get_net source (agent s))))
    as (new & E & F).
  unfold _soft_update_target_network, bind, gets, lift, modify.
  rewrite H, E. eexists. split; [reflexivity|].
  simpl. rewrite get_set_net. simpl. exact F.
Qed.

(** X4.  The two ends of [polyak]: at [polyak = 1] a soft update leaves
    the values of the target parameters as they were, at [polyak = 0] it
    overwrites them with the (broadcast) source parameters. *)
Theorem soft_update_polyak_edges target source s s' u :
  _soft_update_target_network self target source s = Ok (u, s') ->
  forall i tp p np,
    nth_error (parameters (get_net target (agent s))) i = Some tp ->
    nth_error (parameters (get_net source (agent s))) i = Some p ->
    nth_error (parameters (get_net target (agent s'))) i = Some np ->
    length np = length tp /\
    (polyak (args self) == 1 ->
     forall j, (j < length tp)%nat -> nth j np 0 == nth j tp 0) /\
    (polyak (args self) == 0 ->
     forall j, (j < length tp)%nat ->
       nth j np 0 == nth j (stretch p (length tp)) 0).
Proof.
  intros H i tp p np Ht Hp Hn. apply soft_update_run in H.
  destruct H as (new & Hs & Ha & _).
  destruct (soft_update_spec _ _ _ Hs _ Ht Hp) as (np' & Hn' & Hl & Hb).
  rewrite Ha, get_set_net in Hn. simpl in Hn.
  assert (np' = np) by congruence. subst np'.
  split; [exact Hl|]. split; intros E j Hj; rewrite (Hb j Hj), E; ring.
Qed.

Lemma keeps_store_episode {X : Type} (f : Agent -> X) mb :
  (forall b a, f (set_buffer b a) = f a) -> keeps f (store_episode mb).
Proof.
  intros Hb. unfold store_episode.
  repeat first [ keeps_step | apply keeps_modify; intros ?; apply Hb ].
Qed.

Lemma keeps_update_normalizer {X : Type} (f : Agent -> X) mb :
  (forall i n a, f (set_norm i n a) = f a) ->
  keeps f (_update_normalizer self mb).
Proof.
  intros Hn. unfold _update_normalizer, her_sample, update, recompute_stats.
  cbv zeta.
  repeat first [ keeps_step | apply keeps_modify; intros ?; apply Hn ].
Qed.

(** The target networks when the soft updates of a cycle begin are those
    the cycle began with. *)
Lemma cycle_targets_wait k u s s' u' :
  cycle self k u s = Ok (u', s') ->
  exists s4 s5,
    actor_target_network (agent s4) = actor_target_network (agent s) /\
    critic_target_network (agent s4) = critic_target_network (agent s) /\
    _soft_update_target_network self ActorTarget Actor s4 = Ok (tt, s5) /\
    _soft_update_target_network self CriticTarget Critic s5 = Ok (u', s').
Proof.
  unfold cycle. intros H.
  apply bind_ok in H. destruct H as (mb & s1 & Hc & H).
  apply bind_ok in H. destruct H as (? & s2 & Hs & H).
  apply bind_ok in H. destruct H as (? & s3 & Hn & H).
  apply bind_ok in H. destruct H as (? & s4 & Hu & H).
  apply bind_ok in H. destruct H as ([] & s5 & Ha & H).
  exists s4, s5.
  pose (F := fun a : Agent => (actor_target_network a, critic_target_network a)).
  assert (K1 : F (agent s1) = F (agent s)).
  { eapply (@keeps_collect_rollouts _ self _ F); first [exact Hc | reflexivity]. }
  assert (K2 : F (agent s2) = F (agent s1)).
  { eapply (@keeps_store_episode _ F mb); [reflexivity | exact Hs]. }
  assert (K3 : F (agent s3) = F (agent s2)).
  { eapply (@keeps_update_normalizer _ F mb); [reflexivity | exact Hn]. }
  assert (K4 : F (agent s4) = F (agent s3)).
  { unfold for_range in Hu.
    eapply (@keeps_for_from _ _ F); [|exact Hu].
    intros. apply keeps_network_updating_online; reflexivity. }
  rewrite K3, K2, K1 in K4. unfold F in K4. inversion K4. auto.
Qed.

(** X5.  What a cycle does to the target networks: the target parameters
    the cycle began with are blended, once, with the parameters the online
    network has when the cycle ends, that is after the [n_batches] updates
    of the cycle. *)
Theorem cycle_blends_targets_with_updated_networks k u s s' u' :
  cycle self k u s = Ok (u', s') ->
  forall target source,
    (target = ActorTarget /\ source = Actor) \/
    (target = CriticTarget /\ source = Critic) ->
    forall i tp p,
      nth_error (parameters (get_net target (agent s))) i = Some tp ->
      nth_error (parameters (get_net source (agent s'))) i = Some p ->
      exists np,
        nth_error (parameters (get_net target (agent s'))) i = Some np /\
        length np = length tp /\
        forall j, (j < length tp)%nat ->
          nth j np 0 ==
          polyak (args self) * nth j tp 0 +
          (1 - polyak (args self)) * nth j (stretch p (length tp)) 0.
Proof.
  intros H target source Hts i tp p Ht Hp.
  apply cycle_targets_wait in H.
  destruct H as (s4 & s5 & Ka & Kc & Ha & Hc).
  apply soft_update_run in Ha. destruct Ha as (na & Hsa & Ea & _).
  apply soft_update_run in Hc. destruct Hc as (nc & Hsc & Ec & _).
  destruct Hts as [[-> ->] | [-> ->]]; simpl in *.
  - rewrite Ec, Ea in Hp. simpl in Hp. rewrite <- Ka in Ht.
    destruct (soft_update_spec _ _ _ Hsa _ Ht Hp) as (np & Hn & Hl & Hb).
    exists np. rewrite Ec, Ea. simpl. auto.
  - rewrite Ec in Hp. simpl in Hp. rewrite Ea in Hsc, Hp. simpl in Hsc, Hp.
    rewrite <- Kc in Ht.
    destruct (soft_update_spec _ _ _ Hsc _ Ht Hp) as (np & Hn & Hl & Hb).
    exists np. rewrite Ec. simpl. auto.
Qed.

End Frames.

Lemma network_updating_leaves_targets_witness :
  let self := Toy.worker 0 (- (1)) false in
  let s' := Toy.after (network_updating self) Toy.trained in
  actor_target_network (agent s') = actor_target_network (agent Toy.trained) /\
  critic_target_network (agent s') = critic_target_network (agent Toy.trained) /\
  o_norm (agent s') = o_norm (agent Toy.trained) /\
  g_norm (agent s') = g_norm (agent Toy.trained) /\
  her_module (agent s') = her_module (agent Toy.trained).
Proof.
  intros self s'.
  apply (@network_updating_leaves_targets _ self Toy.trained s' tt).
  vm_compute. reflexivity.
Defined.

Lemma soft_update_writes_target_parameters_only_witness :
  let self := Toy.worker 0 (- (1)) false in
  let s := Toy.trained in
  let s' := Toy.after (_soft_update_target_network self CriticTarget Critic) s in
  (forall j, j <> CriticTarget -> get_net j (agent s') = get_net j (agent s)) /\
  grad (get_net CriticTarget (agent s')) = grad (get_net CriticTarget (agent s)) /\
  actor_optim (agent s') = actor_optim (agent s) /\
  critic_optim (agent s') = critic_optim (agent s) /\
  o_norm (agent s') = o_norm (agent s) /\
  g_norm (agent s') = g_norm (agent s) /\
  buffer (agent s') = buffer (agent s) /\
  her_module (agent s') = her_module (agent s) /\
  world s' = world s /\ trace s' = trace s /\
  length (parameters (get_net CriticTarget (agent s'))) =
    length (parameters (get_net CriticTarget (agent s))) /\
  forall i,
    (length (parameters (get_net Critic (agent s))) <= i)%nat ->
    nth_error (parameters (get_net CriticTarget (agent s'))) i =
    nth_error (parameters (get_net CriticTarget (agent s))) i.
Proof.
  intros self s s'.
  apply (@soft_update_writes_target_parameters_only _ self CriticTarget Critic
           s s' tt).
  vm_compute. reflexivity.
Defined.

Lemma soft_update_of_synchronized_target_witness :
  let self := Toy.worker 0 (- (1)) false in
  exists s',
    _soft_update_target_network self ActorTarget Actor Toy.start = Ok (tt, s') /\
    Forall2 (Forall2 Qeq)
            (parameters (get_net ActorTarget (agent s')))
            (parameters (get_net ActorTarget (agent Toy.start))).
Proof.
  intros self.
  apply (@soft_update_of_synchronized_target _ self ActorTarget Actor Toy.start).
  vm_compute. reflexivity.
Defined.

Lemma soft_update_polyak_edges_witness :
  let self := Toy.config (Toy.arguments_with 1 (49 # 50) 2 2)
                         Toy.parameters_of_env 1 in
  let s := Toy.drifted in
  let s' := Toy.after (_soft_update_target_network self ActorTarget Actor) s in
  let tp := nth 0 (parameters (get_net ActorTarget (agent s))) [] in
  let p := nth 0 (parameters (get_net Actor (agent s))) [] in
  let np := nth 0 (parameters (get_net ActorTarget (agent s'))) [] in
  length np = length tp /\
  (polyak (args self) == 1 ->
   forall j, (j < length tp)%nat -> nth j np 0 == nth j tp 0)%Q /\
  (polyak (args self) == 0 ->
   forall j, (j < length tp)%nat ->
     nth j np 0 == nth j (stretch p (length tp)) 0)%Q.
Proof.
  intros self s s' tp p np.
  apply (@soft_update_polyak_edges _ self ActorTarget Actor s s' tt
           ltac:(vm_compute; reflexivity) 0%nat tp p np);
    vm_compute; reflexivity.
Defined.

Lemma cycle_blends_targets_with_updated_networks_witness :
  let self := Toy.worker 0 (- (1)) false in
  let s' := Toy.after (cycle self 0 tt) Toy.drifted in
  let tp := nth 0 (parameters (get_net ActorTarget (agent Toy.drifted))) [] in
  let p := nth 0 (parameters (get_net Actor (agent s'))) [] in
  exists np,
    nth_error (parameters (get_net ActorTarget (agent s'))) 0 = Some np /\
    length np = length tp /\
    forall j, (j < length tp)%nat ->
      (nth j np 0 ==
       polyak (args self) * nth j tp 0 +
       (1 - polyak (args self)) * nth j (stretch p (length tp)) 0)%Q.
Proof.
  intros self s' tp p.
  apply (@cycle_blends_targets_with_updated_networks _ self 0%nat tt
           Toy.drifted s' tt ltac:(vm_compute; reflexivity)
           ActorTarget Actor (or_introl (conj eq_refl eq_refl)) 0%nat tp p);
    vm_compute; reflexivity.
Defined.

(** ** Edges of the hyperparameters *)

Section Discount.

Context {C : Collaborators}.

Variable self : Config.

Open Scope Q_scope.

Lemma clip1_collapses lo hi x : hi < lo -> Np.clip1 lo hi x == hi.
Proof.
  intros H. unfold Np.clip1. apply Q.min_r.
  apply Qle_trans with lo; [now apply Qlt_le_weak | apply Q.le_max_r].
Qed.

Lemma target_q_needs_discount r q tq :
  target_q self r q = Ok tq -> ~ gamma (args self) == 1.
Proof.
  unfold target_q. intros H.
  apply res_bind_ok in H. destruct H as (t & _ & H).
  apply res_bind_ok in H. destruct H as (c & Hc & _).
  apply py_div_ok in Hc. destruct Hc as [Hc _].
  intros Hg. apply Hc. rewrite Hg. reflexivity.
Qed.

Lemma target_q_zero r q tq :
  1 < gamma (args self) ->
  target_q self r q = Ok tq -> Forall (fun x => x == 0) tq.
Proof.
  intros Hg H. unfold target_q in H.
  apply res_bind_ok in H. destruct H as (t & _ & H).
  apply res_bind_ok in H. destruct H as (c & Hc & H).
  apply py_div_ok in Hc. destruct Hc as [_ ->].
  inversion H. unfold Np.clip. apply Forall_forall. intros x Hx.
  apply in_map_iff in Hx. destruct Hx as (y & <- & _).
  apply clip1_collapses.
  assert (0 < / (gamma (args self) - 1)) as Hpos
    by (apply Qinv_lt_0_compat; lra).
  assert (1 / (1 - gamma (args self)) == - / (gamma (args self) - 1)) as E
    by (field; split; lra).
  rewrite E. lra.
Qed.

(** X6.  With a discount of exactly one no network update completes:
    [1 / (1 - gamma)] divides by zero, so [network_updating] raises
    whatever the state of the agent. *)
Theorem discount_one_blocks_updates s :
  gamma (args self) == 1 -> exists e, network_updating self s = Raise e.
Proof.
  intros Hg. destruct (network_updating self s) as [[u s']|e] eqn:E;
    [exfalso | eauto].
  apply network_updating_run in E.
  destruct E as (t & i & a & q & tq & rq & ga & wa & gc & wc
                 & _ & Htq & _).
  exact (target_q_needs_discount _ _ Htq Hg).
Qed.

(** X7.  With a discount above one the clamp interval
    [[-1/(1-gamma), 0]] is empty (its lower end is positive) and [clamp]
    returns its upper end: every entry of the target in the critic loss
    is zero. *)
Theorem discount_above_one_zeroes_targets s s' u :
  1 < gamma (args self) ->
  network_updating self s = Ok (u, s') ->
  exists pre tq rq post,
    trace s' = trace s ++ pre ++ EvBackward (CriticLoss tq rq) :: post /\
    forallb (fun e => negb (is_critic_backward e)) (pre ++ post) = true /\
    Forall (fun x => x == 0) tq.
Proof.
  intros Hg H. apply network_updating_run in H.
  destruct H as (t & i & a & q & tq & rq & ga & wa & gc & wc
                 & _ & Htq & Ht & _).
  exists [EvBufferSample (batch_size (args self));
          EvNormalize ONorm; EvNormalize GNorm;
          EvNormalize ONorm; EvNormalize GNorm;
          EvZeroGrad Actor; EvBackward (ActorLoss i a);
          EvSyncGrads Actor; EvOptimStep Actor; EvZeroGrad Critic].
  exists tq, rq, [EvSyncGrads Critic; EvOptimStep Critic].
  split; [exact Ht|]. split; [reflexivity|].
  eapply target_q_zero; eassumption.
Qed.

End Discount.

Lemma discount_one_blocks_updates_witness :
  exists e,
    network_updating
      (Toy.config (Toy.arguments_with (19 # 20) 1 2 2) Toy.parameters_of_env 1)
      Toy.trained = Raise e.
Proof.
  apply (@discount_one_blocks_updates _
           (Toy.config (Toy.arguments_with (19 # 20) 1 2 2)
                       Toy.parameters_of_env 1) Toy.trained).
  vm_compute. reflexivity.
Defined.

Lemma discount_above_one_zeroes_targets_witness :
  let self := Toy.config (Toy.arguments_with (19 # 20) 2 2 2)
                         Toy.parameters_of_env 1 in
  exists pre tq rq post,
    trace (Toy.after (network_updating self) Toy.trained) =
      trace Toy.trained ++ pre ++ EvBackward (CriticLoss tq rq) :: post /\
    forallb (fun e => negb (is_critic_backward e)) (pre ++ post) = true /\
    Forall (fun x => (x == 0)%Q) tq.
Proof.
  intros self.
  apply (@discount_above_one_zeroes_targets _ self Toy.trained _ tt).
  - vm_compute. reflexivity.
  - vm_compute. reflexivity.
Defined.

(** ** Clipping of observations and the two branches of the exploration *)

Section Preprocessing.

Context {C : Collaborators}.

Variable self : Config.

Open Scope Q_scope.

Lemma clip1_spec m x :
  0 <= m -> within m (Np.clip1 (- m) m x) /\
            (within m x -> Np.clip1 (- m) m x == x).
Proof.
  intros Hm. split.
  - split; [apply clip1_ge_lo | apply clip1_le_hi]; lra.
  - intros [Hlo Hhi]. unfold Np.clip1.
    rewrite (Q.max_l x (- m)) by assumption. now apply Q.min_l.
Qed.

Lemma clip_spec m (Hm : 0 <= m) r :
  Forall2 (fun x y => within m y /\ (within m x -> y == x))
          r (Np.clip r (- m) m).
Proof.
  induction r as [|x r IH]; simpl; constructor;
    [now apply clip1_spec | exact IH].
Qed.

Lemma clip2_spec m (Hm : 0 <= m) o :
  Forall2 (Forall2 (fun x y => within m y /\ (within m x -> y == x)))
          o (Np.clip2 o (- m) m).
Proof.
  induction o as [|r o IH]; simpl; constructor;
    [now apply clip_spec | exact IH].
Qed.

(** X8.  [_preproc_og] keeps the shape of both arrays (row by row, entry
    by entry), puts every entry within [[-clip_obs, clip_obs]] and leaves
    the entries that already are within that range as they are. *)
Theorem preproc_og_clips_entrywise o g :
  0 <= clip_obs (args self) ->
  let same_or_clipped x y :=
    within (clip_obs (args self)) y /\
    (within (clip_obs (args self)) x -> y == x) in
  Forall2 (Forall2 same_or_clipped) o (fst (_preproc_og self o g)) /\
  Forall2 (Forall2 same_or_clipped) g (snd (_preproc_og self o g)).
Proof.
  intros Hm. cbv zeta. unfold _preproc_og. simpl.
  split; now apply clip2_spec.
Qed.

Lemma scale_length c (a : Vec) : length (Np.scale c a) = length a.
Proof. apply length_map. Qed.

Lemma mix_select a : forall r,
  length r = length a ->
  Forall2 Qeq (Np.map2 Qplus a (Np.scale 0 (Np.map2 Qminus r a))) a /\
  Forall2 Qeq (Np.map2 Qplus a (Np.scale 1 (Np.map2 Qminus r a))) r.
Proof.
  induction a as [|x a IH]; intros [|y r] Hl; simpl in *; try discriminate.
  - split; constructor.
  - injection Hl as Hl. destruct (IH r Hl) as [I0 I1].
    split; constructor; try assumption; ring.
Qed.

(** X9.  When [random_eps] is a probability and the policy output has one
    entry per action dimension, [_choose_actions] returns an action of
    that length, and the binomial draw decides between two vectors, entry
    by entry: at 0 the action is the policy action perturbed by the scaled
    Gaussian draws and clipped to the action range, at 1 it is the vector
    of uniform draws; there is nothing in between. *)
Theorem choice_is_policy_or_random pi s :
  generator_contract ->
  0 <= random_eps (args self) /\ random_eps (args self) <= 1 ->
  length (Np.squeeze pi) = p_action (env_params self) ->
  exists a s' z r k,
    _choose_actions self pi s = Ok (a, s') /\
    length a = p_action (env_params self) /\
    length z = p_action (env_params self) /\
    Forall (fun x => exists w, x = fst (randn w)) z /\
    length r = p_action (env_params self) /\
    Forall (fun x => exists w,
              x = fst (uniform (- action_max (env_params self))
                               (action_max (env_params self)) w)) r /\
    (exists w, k = fst (binomial 1 (random_eps (args self)) w)) /\
    (k = 0%nat \/ k = 1%nat) /\
    (k = 0%nat ->
     Forall2 Qeq a
       (Np.clip
          (Np.map2 Qplus (Np.squeeze pi)
             (Np.scale (noise_eps (args self) * action_max (env_params self))
                       z))
          (- action_max (env_params self)) (action_max (env_params self)))) /\
    (k = 1%nat -> Forall2 Qeq a r).
Proof.
  intros [_ Hb] _ Hl.
  destruct (choose_actions_returns self pi s Hl) as (a & s' & H).
  exists a, s'. pose proof H as Hrun.
  unfold _choose_actions in H. cbv zeta in H.
  apply bind_ok in H. destruct H as (z & s1 & Hz & H).
  apply bind_ok in H. destruct H as (act & s2 & Hact & H).
  apply bind_ok in H. destruct H as (r & s3 & Hr & H).
  apply bind_ok in H. destruct H as (k & s4 & Hk & H).
  apply bind_ok in H. destruct H as (d & s5 & Hd & H).
  apply draws_spec in Hz. destruct Hz as [Lz Fz].
  apply draws_spec in Hr. destruct Hr as [Lr Fr].
  apply lift_ok in Hact. destruct Hact as [Hact _].
  apply lift_ok in Hd. destruct Hd as [Hd _].
  apply lift_ok in H. destruct H as [H _].
  apply call_ok in Hk. destruct Hk as [Hk _].
  unfold Np.add in Hact.
  rewrite binop_same_length in Hact
    by (unfold Np.scale; now rewrite length_map, Lz).
  injection Hact as <-.
  assert (length (Np.clip
                    (Np.map2 Qplus (Np.squeeze pi)
                       (Np.scale (noise_eps (args self)
                                  * action_max (env_params self)) z))
                    (- action_max (env_params self))
                    (action_max (env_params self)))
          = p_action (env_params self)) as Lc
    by (unfold Np.clip, Np.scale;
        now rewrite length_map, map2_length, length_map, Lz, Nat.min_id).
  unfold Np.sub in Hd. rewrite binop_same_length in Hd by congruence.
  injection Hd as <-.
  unfold Np.add in H. rewrite binop_same_length in H
    by (rewrite scale_length, map2_length, Lr, Lc; now rewrite Nat.min_id).
  injection H as <-.
  exists z, r, k.
  split; [exact Hrun|].
  split.
  { rewrite map2_length, scale_length, map2_length, Lr, Lc.
    now rewrite !Nat.min_id. }
  split; [congruence|]. split; [assumption|].
  split; [assumption|]. split; [assumption|].
  split; [exists (world s3); exact Hk|].
  assert (length r =
          length (Np.clip
                    (Np.map2 Qplus (Np.squeeze pi)
                       (Np.scale (noise_eps (args self)
                                  * action_max (env_params self)) z))
                    (- action_max (env_params self))
                    (action_max (env_params self)))) as Lrc by congruence.
  destruct (mix_select _ _ Lrc) as [M0 M1].
  specialize (Hb 1%nat (random_eps (args self)) (world s3)).
  rewrite <- Hk in Hb.
  split; [lia|].
  split; intros ->; [exact M0 | exact M1].
Qed.

End Preprocessing.

Lemma preproc_og_clips_entrywise_witness :
  let self := Toy.worker 0 (- (1)) false in
  let same_or_clipped x y :=
    within (clip_obs (args self)) y /\
    (within (clip_obs (args self)) x -> (y == x)%Q) in
  Forall2 (Forall2 same_or_clipped) [[1000; - (3)]; [0]]%Q
          (fst (_preproc_og self [[1000; - (3)]; [0]]%Q [[- (1000)]]%Q)) /\
  Forall2 (Forall2 same_or_clipped) [[- (1000)]]%Q
          (snd (_preproc_og self [[1000; - (3)]; [0]]%Q [[- (1000)]]%Q)).
Proof.
  apply (@preproc_og_clips_entrywise Toy.collaborators
           (Toy.worker 0 (- (1)) false)).
  vm_compute. discriminate.
Defined.

Lemma choice_is_policy_or_random_witness :
  let self := Toy.worker 0 (- (1)) false in
  exists a s' z r k,
    _choose_actions self [[- (3); 3]]%Q Toy.trained = Ok (a, s') /\
    length a = p_action (env_params self) /\
    length z = p_action (env_params self) /\
    Forall (fun x => exists w, x = fst (@randn Toy.collaborators w)) z /\
    length r = p_action (env_params self) /\
    Forall (fun x => exists w,
              x = fst (@uniform Toy.collaborators
                         (- action_max (env_params self))
                         (action_max (env_params self)) w)) r /\
    (exists w, k = fst (@binomial Toy.collaborators 1
                          (random_eps (args self)) w)) /\
    (k = 0%nat \/ k = 1%nat) /\
    (k = 0%nat ->
     Forall2 Qeq a
       (Np.clip
          (Np.map2 Qplus (Np.squeeze [[- (3); 3]]%Q)
             (Np.scale (noise_eps (args self) * action_max (env_params self))%Q
                       z))
          (- action_max (env_params self)) (action_max (env_params self)))) /\
    (k = 1%nat -> Forall2 Qeq a r).
Proof.
  intros self.
  apply (@choice_is_policy_or_random _ self [[- (3); 3]]%Q Toy.trained).
  - exact toy_generator_contract.
  - vm_compute. split; discriminate.
  - vm_compute. reflexivity.
Defined.

(** ** What the rollouts record *)

Section Trajectories.

Context {C : Collaborators}.

Variable self : Config.

Open Scope agent_scope.

Lemma step_actions_app l r :
  step_actions (l ++ r) = step_actions l ++ step_actions r.
Proof.
  induction l as [|e l IH]; simpl; [reflexivity|].
  destruct e; simpl; rewrite ?IH; reflexivity.
Qed.

Lemma silent_run {A : Type} (m : M A) s a s' :
  emits no_event m -> m s = Ok (a, s') -> trace s' = trace s.
Proof.
  intros E H. destruct (E _ _ _ H) as (l & El & Fl).
  destruct l; [now rewrite app_nil_r in El | discriminate Fl].
Qed.

Lemma rollout_step_run g i v s v' s' :
  rollout_step self g i v s = Ok (v', s') ->
  exists a r d info,
    trace s' =
      trace s ++ [EvNormalize ONorm; EvNormalize GNorm; EvEnvStep a r d info] /\
    ep_actions v' = ep_actions v ++ [a] /\
    ep_g v' = ep_g v ++ [g] /\
    ep_obs v' = ep_obs v ++ [rv_obs v] /\
    ep_ag v' = ep_ag v ++ [rv_ag v].
Proof.
  unfold rollout_step. cbv zeta. intros H.
  apply bind_ok in H. destruct H as (x & s1 & Hx & H).
  apply bind_ok in H. destruct H as (pi & s2 & Hpi & H).
  apply bind_ok in H. destruct H as (a & s3 & Ha & H).
  apply bind_ok in H. destruct H as (r & s4 & Hr & H).
  apply ret_ok in H. destruct H as [-> ->].
  eapply silent_run in Ha; [|apply emits_choose_actions].
  unfold input_preprocessing, normalize1 in Hx.
  unfold actor_call in Hpi. unfold step in Hr. run.
  exists a. do 3 eexists. simpl.
  split; [|repeat split; reflexivity].
  back_trace. reflexivity.
Qed.

Lemma rollout_steps_run g n :
  forall i v s v' s',
    for_from i n (rollout_step self g) v s = Ok (v', s') ->
    exists l, trace s' = trace s ++ l /\ no_reset l /\
              ep_actions v' = ep_actions v ++ step_actions l /\
              ep_g v' = ep_g v ++ repeat g n /\
              exists obs, ep_obs v' = ep_obs v ++ obs /\
                          hd (rv_obs v') (obs ++ [rv_obs v']) = rv_obs v.
Proof.
  induction n as [|n IH]; intros i v s v' s' H; simpl in H.
  - run. exists []. rewrite !app_nil_r. repeat split; try reflexivity.
    exists []. rewrite app_nil_r. split; reflexivity.
  - run. apply rollout_step_run in Hm.
    destruct Hm as (a' & r & d & info & Et & Ea & Eg & Eo & _).
    destruct (IH _ _ _ _ _ H) as (l & El & Nl & Al & Gl & obs & Ol & _).
    exists ([EvNormalize ONorm; EvNormalize GNorm; EvEnvStep a' r d info] ++ l).
    split; [rewrite El, Et, <- app_assoc; reflexivity|].
    split; [apply no_reset_app; [reflexivity | assumption]|].
    split; [rewrite step_actions_app, Al, Ea, <- app_assoc; reflexivity|].
    split; [rewrite Gl, Eg, <- app_assoc; reflexivity|].
    exists (rv_obs v :: obs).
    split; [rewrite Ol, Eo, <- app_assoc; reflexivity | reflexivity].
Qed.

(** One episode: a reset, then the timesteps. *)
Lemma rollout_run s ep s' :
  rollout self s = Ok (ep, s') ->
  exists l,
    trace s' = trace s ++ EvEnvReset :: l /\ no_reset l /\
    ep_actions ep = step_actions l /\
    ep_g ep =
      repeat (desired_goal (fst (env_reset (env self) (world s))))
             (max_timesteps (env_params self)) /\
    hd [] (ep_obs ep) =
      observation (fst (env_reset (env self) (world s))).
Proof.
  unfold rollout, for_range. cbv zeta. intros H.
  apply bind_ok in H. destruct H as (o & s1 & Ho & H).
  apply bind_ok in H. destruct H as (v & s2 & Hl & H).
  apply ret_ok in H. destruct H as [-> ->].
  unfold reset in Ho. run.
  apply rollout_steps_run in Hl.
  destruct Hl as (l & El & Nl & Al & Gl & obs & Ol & Hh).
  simpl in Al, Gl, Ol, Hh.
  match goal with H : world _ = world s |- _ => rewrite H in Gl, Hh end.
  exists l. simpl.
  split; [rewrite El; back_trace; reflexivity|].
  split; [assumption|]. split; [assumption|].
  rewrite Gl, Ol, <- Hh.
  split; [reflexivity|].
  destruct obs; reflexivity.
Qed.

Lemma filter_reset_no_reset l : no_reset l -> filter is_reset l = [].
Proof.
  unfold no_reset. induction l as [|e l IH]; simpl; [reflexivity|].
  intros H. apply andb_prop in H. destruct H as [He Hl].
  destruct (is_reset e); [discriminate He | exact (IH Hl)].
Qed.

Lemma collect_run n :
  forall i mb s mb' s',
    for_from i n (collect self) mb s = Ok (mb', s') ->
    exists l eps gs,
      trace s' = trace s ++ l /\
      mb_actions mb' = mb_actions mb ++ eps /\
      concat eps = step_actions l /\
      length (filter is_reset l) = n /\
      mb_g mb' = mb_g mb ++ gs /\
      Forall (fun ep_g =>
                exists w,
                  ep_g = repeat (desired_goal (fst (env_reset (env self) w)))
                                (max_timesteps (env_params self))) gs.
Proof.
  induction n as [|n IH]; intros i mb s mb' s' H; simpl in H.
  - run. exists [], [], []. rewrite !app_nil_r. repeat split; constructor.
  - apply bind_ok in H. destruct H as (mb1 & s1 & Hc & H).
    unfold collect in Hc.
    apply bind_ok in Hc. destruct Hc as (ep & s0 & Hep & Hc).
    apply ret_ok in Hc. destruct Hc as [-> ->].
    apply rollout_run in Hep.
    destruct Hep as (l1 & E1 & N1 & A1 & G1 & _).
    destruct (IH _ _ _ _ _ H) as (l & eps & gs & El & Al & Cl & Rl & Gl & Fl).
    simpl in Al, Gl.
    exists ((EvEnvReset :: l1) ++ l), (ep_actions ep :: eps), (ep_g ep :: gs).
    split; [rewrite El, E1, <- app_assoc; reflexivity|].
    split; [rewrite Al, <- app_assoc; reflexivity|].
    split.
    { simpl. rewrite step_actions_app, Cl, A1. reflexivity. }
    split.
    { simpl. rewrite filter_app, (filter_reset_no_reset N1). simpl.
      now rewrite Rl. }
    split; [rewrite Gl, <- app_assoc; reflexivity|].
    constructor; [eauto | assumption].
Qed.

(** X10.  The batch of a cycle records what was executed: the stored
    actions are, in order, exactly the actions passed to [env.step]; the
    simulator is reset once per rollout; the goals stored for an episode
    are [max_timesteps] copies of the desired goal of one [env.reset()]
    (the goal of later observations is not read); and collecting the batch
    changes no attribute of the agent. *)
Theorem rollouts_record_executed_actions s mb s' :
  collect_rollouts self s = Ok (mb, s') ->
  exists l,
    trace s' = trace s ++ l /\
    concat (mb_actions mb) = step_actions l /\
    length (filter is_reset l) = num_rollouts_per_mpi (args self) /\
    Forall (fun ep_g =>
              exists w,
                ep_g = repeat (desired_goal (fst (env_reset (env self) w)))
                              (max_timesteps (env_params self)))
           (mb_g mb) /\
    agent s' = agent s.
Proof.
  intros H.
  assert (Ea : agent s' = agent s).
  { eapply (@keeps_collect_rollouts _ self _ (fun a => a));
      first [exact H | reflexivity]. }
  unfold collect_rollouts, for_range in H. apply collect_run in H.
  destruct H as (l & eps & gs & El & Al & Cl & Rl & Gl & Fl).
  simpl in Al, Gl. subst eps gs. exists l. auto.
Qed.

(** X11.  The first stored observation of an episode is the observation
    [env.reset()] returned, the episode's log is that reset followed by
    steps only, and its actions are the actions of those steps. *)
Theorem episode_starts_at_reset s ep s' :
  rollout self s = Ok (ep, s') ->
  exists l,
    trace s' = trace s ++ EvEnvReset :: l /\
    forallb (fun e => negb (is_reset e)) l = true /\
    ep_actions ep = step_actions l /\
    hd [] (ep_obs ep) = observation (fst (env_reset (env self) (world s))) /\
    Forall (eq (desired_goal (fst (env_reset (env self) (world s)))))
           (ep_g ep).
Proof.
  intros H. apply rollout_run in H.
  destruct H as (l & El & Nl & Al & Gl & Hh).
  exists l. repeat split; try assumption.
  rewrite Gl. clear. induction (max_timesteps (env_params self)); simpl;
    constructor; auto.
Qed.

End Trajectories.

Lemma rollouts_record_executed_actions_witness :
  let self := Toy.worker 0 (- (1)) false in
  let mb :=
    Toy.value {| mb_obs := []; mb_ag := []; mb_g := []; mb_actions := [] |}
      (collect_rollouts self) Toy.start in
  let s' := Toy.after (collect_rollouts self) Toy.start in
  exists l,
    trace s' = trace Toy.start ++ l /\
    concat (mb_actions mb) = step_actions l /\
    length (filter is_reset l) = num_rollouts_per_mpi (args self) /\
    Forall (fun ep_g =>
              exists w,
                ep_g = repeat (desired_goal (fst (env_reset (env self) w)))
                              (max_timesteps (env_params self)))
           (mb_g mb) /\
    agent s' = agent Toy.start.
Proof.
  intros self mb s'.
  apply (@rollouts_record_executed_actions _ self Toy.start mb s').
  vm_compute. reflexivity.
Defined.

Lemma episode_starts_at_reset_witness :
  let self := Toy.worker 0 (- (1)) false in
  let ep :=
    Toy.value {| ep_obs := []; ep_ag := []; ep_g := []; ep_actions := [];
                 rv_obs := []; rv_ag := [] |}
      (rollout self) Toy.start in
  let s' := Toy.after (rollout self) Toy.start in
  exists l,
    trace s' = trace Toy.start ++ EvEnvReset :: l /\
    forallb (fun e => negb (is_reset e)) l = true /\
    ep_actions ep = step_actions l /\
    hd [] (ep_obs ep) =
      observation (fst (env_reset (env self) (world Toy.start))) /\
    Forall (eq (desired_goal (fst (env_reset (env self) (world Toy.start)))))
           (ep_g ep).
Proof.
  intros self ep s'.
  apply (@episode_starts_at_reset _ self Toy.start ep s').
  vm_compute. reflexivity.
Defined.

(** ** Empty batches and empty evaluations *)

Section Edges.

Context {C : Collaborators}.

Variable self : Config.

Open Scope agent_scope.

Lemma for_from_returns {S : Type} (body : nat -> S -> M S) :
  (forall i v s, exists v' s', body i v s = Ok (v', s')) ->
  forall n i v s, exists v' s', for_from i n body v s = Ok (v', s').
Proof.
  intros Hb. induction n as [|n IH]; intros i v s; simpl.
  - unfold ret. eauto.
  - unfold bind. destruct (Hb i v s) as (v1 & s1 & ->). apply IH.
Qed.

Lemma batch_counts s mb s' :
  collect_rollouts self s = Ok (mb, s') ->
  length (mb_obs mb) = num_rollouts_per_mpi (args self) /\
  length (mb_ag mb) = num_rollouts_per_mpi (args self) /\
  length (mb_actions mb) = num_rollouts_per_mpi (args self).
Proof.
  unfold collect_rollouts, for_range. intros H.
  eapply (for_from_inv (episodes_collected self)) with (j := 0%nat) in H.
  - destruct H as ((H1 & H2 & _ & H4) & _). auto.
  - intros. eapply collect_collects; eassumption.
  - repeat split; constructor.
Qed.

Lemma update_normalizer_empty mb s :
  mb_obs mb = [] \/ mb_ag mb = [] \/ mb_actions mb = [] ->
  _update_normalizer self mb s = Raise IndexError.
Proof.
  unfold _update_normalizer, bind, lift.
  destruct (mb_obs mb) as [|o obs]; [reflexivity|].
  destruct (mb_ag mb) as [|a ag]; [reflexivity|].
  destruct (mb_actions mb) as [|c acts]; [reflexivity|].
  intros [H | [H | H]]; discriminate H.
Qed.

Lemma update_normalizer_returns mb s :
  mb_obs mb <> [] -> mb_ag mb <> [] -> mb_actions mb <> [] ->
  exists s', _update_normalizer self mb s = Ok (tt, s').
Proof.
  unfold _update_normalizer.
  destruct (mb_obs mb) as [|o obs]; [congruence|].
  destruct (mb_ag mb) as [|a ag]; [congruence|].
  destruct (mb_actions mb) as [|c acts]; [congruence|].
  intros _ _ _.
  unfold her_sample, update, recompute_stats, bind, lift, emit, gets, modify,
    call, Np.slice_from1, Np.shape1.
  simpl.
  repeat match goal with
         | |- context [let (_, _) := ?x in _] => destruct x
         end.
  eauto.
Qed.

(** X12.  [_update_normalizer] cannot work on an empty batch: with
    [num_rollouts_per_mpi = 0] the arrays built from the empty lists have
    a single axis and the call raises [IndexError], whatever the state of
    the agent; with at least one rollout per cycle its own indexing
    succeeds and it returns whenever the sampler and the normalizers do. *)
Theorem update_normalizer_needs_a_rollout s mb s1 :
  collect_rollouts self s = Ok (mb, s1) ->
  forall s2,
    (num_rollouts_per_mpi (args self) = 0%nat ->
     _update_normalizer self mb s2 = Raise IndexError) /\
    (num_rollouts_per_mpi (args self) <> 0%nat ->
     exists s3, _update_normalizer self mb s2 = Ok (tt, s3)).
Proof.
  intros H s2. apply batch_counts in H. destruct H as (Lo & La & Lc).
  split; intros Hn.
  - apply update_normalizer_empty. left.
    rewrite Hn in Lo. now apply length_zero_iff_nil.
  - apply update_normalizer_returns; intros E;
      [rewrite E in Lo | rewrite E in La | rewrite E in Lc];
      simpl in *; congruence.
Qed.

Lemma test_step_returns i v s :
  exists v' s', test_step self i v s = Ok (v', s').
Proof.
  unfold test_step, input_preprocessing, normalize1, actor_call, step,
    bind, emit, gets, ret, call.
  simpl.
  match goal with
  | |- context [env_step (env self) ?a ?w] =>
      destruct (env_step (env self) a w) as [r w']
  end.
  eauto.
Qed.

Lemma reset_returns s : exists o s', reset self s = Ok (o, s').
Proof.
  unfold reset, bind, emit, call. simpl.
  destruct (env_reset (env self) (world s)) as [o w]. eauto.
Qed.

Lemma test_rollout_returns i total s :
  exists total' s', test_rollout self i total s = Ok (total', s').
Proof.
  unfold test_rollout, for_range. unfold bind at 1.
  destruct (reset_returns s) as (o & s0 & ->).
  unfold bind at 1.
  match goal with
  | |- context [for_from 0 ?n ?b ?v ?st] =>
      destruct (@for_from_returns _ b test_step_returns n 0%nat v st)
        as (v' & s' & ->)
  end.
  unfold ret. eauto.
Qed.

Lemma last_column_returns m :
  Forall (fun r => r <> []) m -> exists v, Np.last_column m = Ok v.
Proof.
  induction 1 as [|r m Hr _ (v & IH)]; simpl; [eauto|].
  destruct (rev r) as [|x t] eqn:E.
  - exfalso. apply Hr. rewrite <- (rev_involutive r), E. reflexivity.
  - rewrite IH. simpl. eauto.
Qed.

Lemma local_success_rate_edges s :
  (n_test_rollouts (args self) = 0%nat \/
   max_timesteps (env_params self) = 0%nat ->
   local_success_rate self s = Raise IndexError) /\
  (n_test_rollouts (args self) <> 0%nat ->
   max_timesteps (env_params self) <> 0%nat ->
   exists local s', local_success_rate self s = Ok (local, s')).
Proof.
  unfold local_success_rate, for_range.
  destruct (@for_from_returns _ _ test_rollout_returns
              (n_test_rollouts (args self)) 0%nat [] s) as (total & s1 & Hl).
  unfold bind at 1 3. rewrite Hl.
  apply test_rollouts_run in Hl.
  destruct Hl as (l & _ & _ & Tl & Ll & Fl). simpl in Tl. subst total.
  unfold bind, lift, ret.
  destruct (episodes l) as [|ep eps]; simpl in Ll.
  - split; [reflexivity | intros Hn; congruence].
  - inversion Fl as [|? ? Hep Heps]; subst. split.
    + intros [Hn | Ht]; [congruence|].
      rewrite Ht in Hep. apply length_zero_iff_nil in Hep. subst ep.
      reflexivity.
    + intros _ Ht.
      destruct (@last_column_returns (ep :: eps)) as (v & Hv).
      { eapply Forall_impl; [|exact Fl]. intros r Hr E. subst r.
        simpl in Hr. congruence. }
      unfold Np.column_m1. rewrite Hv. eauto.
Qed.

(** X13.  [evaluation] needs a final timestep to read: with
    [n_test_rollouts = 0] or [max_timesteps = 0] the slice [[:, -1]] has
    nothing to index and the call raises [IndexError]; with both
    positive the method's own indexing succeeds: it returns whenever the
    simulator, the actor and the normalizers do, and it leaves every
    attribute of the agent as it was. *)
Theorem evaluation_needs_a_final_step s :
  (n_test_rollouts (args self) = 0%nat \/
   max_timesteps (env_params self) = 0%nat ->
   evaluation self s = Raise IndexError) /\
  (n_test_rollouts (args self) <> 0%nat ->
   max_timesteps (env_params self) <> 0%nat ->
   exists rate s', evaluation self s = Ok (rate, s') /\
                   agent s' = agent s).
Proof.
  destruct (local_success_rate_edges s) as [Herr Hok]. split.
  - intros H. unfold evaluation, bind. now rewrite (Herr H).
  - intros Hn Ht. destruct (Hok Hn Ht) as (local & s1 & Hl).
    rewrite (evaluation_of_local _ _ Hl).
    do 2 eexists. split; [reflexivity|]. simpl.
    apply local_success_rate_run in Hl. destruct Hl as (l & _ & Ea & _).
    exact Ea.
Qed.

End Edges.

Lemma update_normalizer_needs_a_rollout_witness :
  let self := Toy.config (Toy.arguments_with (19 # 20) (49 # 50) 0 2)
                         Toy.parameters_of_env 1 in
  _update_normalizer self
    {| mb_obs := []; mb_ag := []; mb_g := []; mb_actions := [] |} Toy.trained
  = Raise IndexError.
Proof.
  intros self.
  apply (@update_normalizer_needs_a_rollout _ self Toy.start
           {| mb_obs := []; mb_ag := []; mb_g := []; mb_actions := [] |}
           Toy.start).
  - vm_compute. reflexivity.
  - vm_compute. reflexivity.
Defined.

Lemma evaluation_needs_a_final_step_witness :
  evaluation (Toy.config (Toy.arguments_with (19 # 20) (49 # 50) 2 2)
                         (Toy.parameters_with 0) 1) Toy.trained
  = Raise IndexError.
Proof.
  apply (proj1 (@evaluation_needs_a_final_step _
                  (Toy.config (Toy.arguments_with (19 # 20) (49 # 50) 2 2)
                              (Toy.parameters_with 0) 1) Toy.trained)).
  right. vm_compute. reflexivity.
Defined.

(** ** The schedule of [training] *)

Section Schedule.

Context {C : Collaborators}.

Variable self : Config.

Open Scope agent_scope.

Lemma for_from_calls {S : Type} (body : nat -> S -> M S) (k : list Call) :
  (forall i v s v' s', body i v s = Ok (v', s') ->
     exists l, trace s' = trace s ++ l /\ map call_of l = k) ->
  forall n i v s v' s',
    for_from i n body v s = Ok (v', s') ->
    exists l, trace s' = trace s ++ l /\ map call_of l = times n k.
Proof.
  intros Hb. induction n as [|n IH]; intros i v s v' s' H; simpl in H.
  - run. exists []. rewrite app_nil_r. split; reflexivity.
  - apply bind_ok in H. destruct H as (v1 & s1 & H1 & H).
    destruct (Hb _ _ _ _ _ H1) as (l1 & E1 & K1).
    destruct (IH _ _ _ _ _ H) as (l & El & Kl).
    exists (l1 ++ l). split; [rewrite El, E1, <- app_assoc; reflexivity|].
    rewrite map_app, K1, Kl. reflexivity.
Qed.

Lemma rollout_step_calls g i v s v' s' :
  rollout_step self g i v s = Ok (v', s') ->
  exists l, trace s' = trace s ++ l /\
            map call_of l = [CNormalize ONorm; CNormalize GNorm; CStep].
Proof.
  intros H. apply rollout_step_run in H.
  destruct H as (a & r & d & info & Et & _). eexists. split; [exact Et|].
  reflexivity.
Qed.

Lemma test_step_calls i v s v' s' :
  test_step self i v s = Ok (v', s') ->
  exists l, trace s' = trace s ++ l /\
            map call_of l = [CNormalize ONorm; CNormalize GNorm; CStep].
Proof.
  intros H. apply test_step_run in H.
  destruct H as (a & r & d & info & Et & _). eexists. split; [exact Et|].
  reflexivity.
Qed.

Lemma reset_calls o s s' :
  reset self s = Ok (o, s') -> trace s' = trace s ++ [EvEnvReset].
Proof. unfold reset. intros H. run. back_trace. reflexivity. Qed.

Lemma collect_calls i mb s mb' s' :
  collect self i mb s = Ok (mb', s') ->
  exists l, trace s' = trace s ++ l /\
            map call_of l = episode_calls (max_timesteps (env_params self)).
Proof.
  unfold collect, rollout, for_range. cbv zeta. intros H.
  apply bind_ok in H. destruct H as (ep & s3 & H & Hret).
  apply ret_ok in Hret. destruct Hret as [_ ->].
  apply bind_ok in H. destruct H as (o & s1 & Ho & H).
  apply bind_ok in H. destruct H as (v & s2 & Hl & H).
  apply ret_ok in H. destruct H as [_ ->].
  apply reset_calls in Ho.
  eapply for_from_calls in Hl; [|intros; eapply rollout_step_calls; eassumption].
  destruct Hl as (l & El & Kl).
  exists (EvEnvReset :: l). split; [rewrite El, Ho, <- app_assoc; reflexivity|].
  simpl. rewrite Kl. reflexivity.
Qed.

Lemma test_rollout_calls i total s total' s' :
  test_rollout self i total s = Ok (total', s') ->
  exists l, trace s' = trace s ++ l /\
            map call_of l = episode_calls (max_timesteps (env_params self)).
Proof.
  unfold test_rollout, for_range. intros H.
  apply bind_ok in H. destruct H as (o & s1 & Ho & H).
  apply bind_ok in H. destruct H as (v & s2 & Hl & H).
  apply ret_ok in H. destruct H as [_ ->].
  apply reset_calls in Ho.
  eapply for_from_calls in Hl; [|intros; eapply test_step_calls; eassumption].
  destruct Hl as (l & El & Kl).
  exists (EvEnvReset :: l). split; [rewrite El, Ho, <- app_assoc; reflexivity|].
  simpl. rewrite Kl. reflexivity.
Qed.

Lemma network_updating_calls s s' u :
  network_updating self s = Ok (u, s') ->
  exists l, trace s' = trace s ++ l /\ map call_of l = update_calls.
Proof.
  intros H. apply network_updating_run in H.
  destruct H as (t & i & a & q & tq & rq & ga & wa & gc & wc & _ & _ & Et & _).
  eexists. split; [exact Et | reflexivity].
Qed.

Lemma cycle_calls_run k u s s' u' :
  cycle self k u s = Ok (u', s') ->
  exists l, trace s' = trace s ++ l /\ map call_of l = cycle_calls self.
Proof.
  unfold cycle, collect_rollouts, for_range. intros H.
  apply bind_ok in H. destruct H as (mb & s1 & Hc & H).
  apply bind_ok in H. destruct H as (? & s2 & Hs & H).
  apply bind_ok in H. destruct H as (? & s3 & Hn & H).
  apply bind_ok in H. destruct H as (? & s4 & Hu & H).
  apply bind_ok in H. destruct H as (? & s5 & Ha & H).
  eapply for_from_calls in Hc; [|intros; eapply collect_calls; eassumption].
  destruct Hc as (l1 & E1 & K1).
  apply store_episode_run in Hs. destruct Hs as (E2 & _).
  apply update_normalizer_run in Hn.
  destruct Hn as (bt & n & og & wo & wg & _ & _ & _ & E3 & _).
  eapply for_from_calls in Hu;
    [|intros; eapply network_updating_calls; eassumption].
  destruct Hu as (l4 & E4 & K4).
  eapply silent_run in Ha; [|apply emits_soft_update].
  eapply silent_run in H; [|apply emits_soft_update].
  eexists. split.
  - rewrite H, Ha, E4, E3, E2, E1. repeat rewrite <- app_assoc. reflexivity.
  - rewrite !map_app, K1, K4. reflexivity.
Qed.

Lemma evaluation_calls_run s rate s' :
  evaluation self s = Ok (rate, s') ->
  exists l, trace s' = trace s ++ l /\ map call_of l = evaluation_calls self.
Proof.
  unfold evaluation, local_success_rate, allreduce, for_range. intros H.
  apply bind_ok in H. destruct H as (local & s1 & Hl & H).
  apply bind_ok in Hl. destruct Hl as (total & s0 & Hl & Hm).
  eapply for_from_calls in Hl;
    [|intros; eapply test_rollout_calls; eassumption].
  destruct Hl as (l & El & Kl). run.
  match goal with
  | H : trace _ = trace s0 ++ [?e] |- _ => exists (l ++ [e])
  end.
  split; [back_trace; reflexivity|].
  rewrite map_app, Kl. reflexivity.
Qed.

Lemma epoch_calls_run k to_plot s to_plot' s' :
  epoch self k to_plot s = Ok (to_plot', s') ->
  (exists l, trace s' = trace s ++ l /\ map call_of l = epoch_calls self) /\
  length to_plot' =
    (length to_plot + if (Get_rank self =? 0)%nat then 1 else 0)%nat.
Proof.
  unfold epoch, for_range, epoch_calls. intros H.
  apply bind_ok in H. destruct H as (? & s1 & Hc & H).
  apply bind_ok in H. destruct H as (rate & s2 & He & H).
  eapply for_from_calls in Hc;
    [|intros; eapply cycle_calls_run; eassumption].
  destruct Hc as (l1 & E1 & K1).
  apply evaluation_calls_run in He. destruct He as (l2 & E2 & K2).
  destruct (Get_rank self =? 0)%nat.
  - run. split.
    + exists (l1 ++ l2 ++ [EvSaveModel]).
      split; [back_trace; reflexivity|].
      rewrite !map_app, K1, K2. reflexivity.
    + rewrite length_app. reflexivity.
  - run. split.
    + exists (l1 ++ l2).
      split; [rewrite E2, E1, <- app_assoc; reflexivity|].
      rewrite !map_app, K1, K2, app_nil_r. reflexivity.
    + lia.
Qed.

Lemma epochs_run n :
  forall i to_plot s to_plot' s',
    for_from i n (epoch self) to_plot s = Ok (to_plot', s') ->
    (exists l, trace s' = trace s ++ l /\
               map call_of l = times n (epoch_calls self)) /\
    length to_plot' =
      (length to_plot + if (Get_rank self =? 0)%nat then n else 0)%nat.
Proof.
  induction n as [|n IH]; intros i p s p' s' H; simpl in H.
  - run. split; [exists []; rewrite app_nil_r; split; reflexivity|].
    destruct (Get_rank self =? 0)%nat; lia.
  - apply bind_ok in H. destruct H as (p1 & s1 & H1 & H).
    apply epoch_calls_run in H1. destruct H1 as ((l1 & E1 & K1) & L1).
    destruct (IH _ _ _ _ _ H) as ((l & El & Kl) & Ll).
    split.
    + exists (l1 ++ l). split; [rewrite El, E1, <- app_assoc; reflexivity|].
      rewrite map_app, K1, Kl. reflexivity.
    + rewrite Ll, L1. destruct (Get_rank self =? 0)%nat; lia.
Qed.

Lemma calls_app c l r : calls c (l ++ r) = (calls c l + calls c r)%nat.
Proof. unfold calls. now rewrite map_app, count_occ_app. Qed.

Lemma count_times (c : Call) k n :
  count_occ Call_eq_dec (times n k) c = (n * count_occ Call_eq_dec k c)%nat.
Proof.
  unfold times. induction n as [|n IH]; simpl; [reflexivity|].
  now rewrite count_occ_app, IH.
Qed.

Ltac count_schedule :=
  unfold training_calls, epoch_calls, evaluation_calls, cycle_calls,
    episode_calls, update_calls;
  repeat (rewrite ?count_occ_app, ?count_times; simpl).

(** X14.  The order of the calls of a training run is fixed by the
    hyperparameters alone: a worker other than the coordinator whose
    [training] returns has logged, call for call, [n_epochs] epochs of
    [n_cycles] cycles (rollouts of [max_timesteps] steps each, then
    [store_episode], the normalizer update, [n_batches] updates) followed
    by an evaluation of [n_test_rollouts] episodes and its all-reduce; no
    loop ends early, whatever the simulator's [done] flag says, and such a
    worker never saves the model. *)
Theorem training_follows_schedule s s' u :
  Get_rank self <> 0%nat ->
  training self s = Ok (u, s') ->
  exists l, trace s' = trace s ++ l /\
            map call_of l = training_calls self /\
            calls CSaveModel l = 0%nat.
Proof.
  intros Hr H. unfold training, for_range in H.
  apply bind_ok in H. destruct H as (p & s1 & He & H).
  apply Nat.eqb_neq in Hr.
  apply epochs_run in He. destruct He as ((l & El & Kl) & _).
  rewrite Hr in H. apply ret_ok in H. destruct H as [_ ->].
  exists l. split; [exact El|]. split; [exact Kl|].
  unfold calls. rewrite Kl. unfold training_calls. rewrite count_times.
  unfold epoch_calls. rewrite Hr. count_schedule. lia.
Qed.

(** X15.  The coordinator never returns from [training]: once its epochs
    are complete (every cycle, evaluation and model save done, one success
    rate collected per epoch) the plotting code refers to the name [plt],
    which the module never imports, and the call raises [NameError]. *)
Theorem training_coordinator_raises s :
  Get_rank self = 0%nat ->
  (forall u s', training self s <> Ok (u, s')) /\
  (forall to_plot s1,
      for_range (n_epochs (args self)) (epoch self) [] s = Ok (to_plot, s1) ->
      training self s = Raise NameError /\
      length to_plot = n_epochs (args self) /\
      exists l, trace s1 = trace s ++ l /\
                calls CSaveModel l = n_epochs (args self)).
Proof.
  intros Hr. apply Nat.eqb_eq in Hr. split.
  - intros u s' H. unfold training in H.
    apply bind_ok in H. destruct H as (p & s1 & _ & H).
    rewrite Hr in H. discriminate H.
  - intros p s1 He. split; [|split].
    + unfold training, bind. rewrite He, Hr. reflexivity.
    + apply epochs_run in He. destruct He as (_ & L). rewrite Hr in L.
      exact L.
    + apply epochs_run in He. destruct He as ((l & El & Kl) & _).
      exists l. split; [exact El|].
      unfold calls. rewrite Kl, count_times.
      unfold epoch_calls. rewrite Hr. count_schedule. lia.
Qed.

(** X16.  The budget of the epochs of [training], for every worker: the
    simulator is reset [n_epochs * (n_cycles * num_rollouts_per_mpi +
    n_test_rollouts)] times and stepped [max_timesteps] times per reset;
    [store_episode] runs once per cycle; [buffer.sample] is called, and
    each optimizer steps, [n_epochs * n_cycles * n_batches] times; there
    is one all-reduce per epoch. *)
Theorem epochs_call_budget to_plot s s' :
  for_range (n_epochs (args self)) (epoch self) [] s = Ok (to_plot, s') ->
  exists l,
    trace s' = trace s ++ l /\
    let E := n_epochs (args self) in
    let K := n_cycles (args self) in
    let R := num_rollouts_per_mpi (args self) in
    let B := n_batches (args self) in
    let N := n_test_rollouts (args self) in
    let T := max_timesteps (env_params self) in
    calls CReset l = (E * (K * R + N))%nat /\
    calls CStep l = (E * (K * R + N) * T)%nat /\
    calls CStoreEpisode l = (E * K)%nat /\
    calls CBufferSample l = (E * K * B)%nat /\
    calls (COptimStep Actor) l = (E * K * B)%nat /\
    calls (COptimStep Critic) l = (E * K * B)%nat /\
    calls CAllreduce l = E.
Proof.
  intros He. unfold for_range in He. apply epochs_run in He.
  destruct He as ((l & El & Kl) & _).
  exists l. split; [exact El|]. cbv zeta. unfold calls. rewrite Kl.
  repeat split; unfold epoch_calls;
    destruct (Get_rank self =? 0)%nat; count_schedule; nia.
Qed.

End Schedule.

Lemma training_follows_schedule_witness :
  let self := Toy.worker 1 (- (1)) false in
  let s' := Toy.after (training self) Toy.peer in
  exists l, trace s' = trace Toy.peer ++ l /\
            map call_of l = training_calls self /\
            calls CSaveModel l = 0%nat.
Proof.
  intros self s'.
  apply (@training_follows_schedule _ self Toy.peer s' tt).
  - vm_compute. discriminate.
  - vm_compute. reflexivity.
Defined.

Lemma training_coordinator_raises_witness :
  training (Toy.worker 0 (- (1)) false) Toy.start = Raise NameError.
Proof.
  refine (proj1
            (proj2 (@training_coordinator_raises _ (Toy.worker 0 (- (1)) false)
                      Toy.start _)
               (Toy.value []
                  (for_range 1 (epoch (Toy.worker 0 (- (1)) false)) [])
                  Toy.start)
               (Toy.after
                  (for_range 1 (epoch (Toy.worker 0 (- (1)) false)) [])
                  Toy.start)
               _)).
  - vm_compute. reflexivity.
  - vm_compute. reflexivity.
Defined.

Lemma epochs_call_budget_witness :
  let self := Toy.worker 1 (- (1)) false in
  let s' := Toy.after (for_range 1 (epoch self) []) Toy.peer in
  exists l,
    trace s' = trace Toy.peer ++ l /\
    calls CReset l = 4%nat /\
    calls CStep l = 12%nat /\
    calls CStoreEpisode l = 1%nat /\
    calls CBufferSample l = 2%nat /\
    calls (COptimStep Actor) l = 2%nat /\
    calls (COptimStep Critic) l = 2%nat /\
    calls CAllreduce l = 1%nat.
Proof.
  intros self s'.
  apply (@epochs_call_budget _ self
           (Toy.value [] (for_range 1 (epoch self) []) Toy.peer) Toy.peer s').
  vm_compute. reflexivity.
Defined.

(** ** The actions a worker executes *)

Section Executed_actions.

Context {C : Collaborators}.

Variable self : Config.

Open Scope Q_scope.
Open Scope agent_scope.

Lemma for_from_actions {S : Type} (G : Agent -> Vec -> Prop)
      (body : nat -> S -> M S) :
  (forall i v s v' s', body i v s = Ok (v', s') ->
     agent s' = agent s /\
     exists l, trace s' = trace s ++ l /\
               Forall (G (agent s)) (step_actions l)) ->
  forall n i v s v' s',
    for_from i n body v s = Ok (v', s') ->
    agent s' = agent s /\
    exists l, trace s' = trace s ++ l /\
              Forall (G (agent s)) (step_actions l).
Proof.
  intros Hb. induction n as [|n IH]; intros i v s v' s' H; simpl in H.
  - run. split; [reflexivity|]. exists []. rewrite app_nil_r.
    split; [reflexivity | constructor].
  - apply bind_ok in H. destruct H as (v1 & s1 & H1 & H).
    destruct (Hb _ _ _ _ _ H1) as (A1 & l1 & E1 & F1).
    destruct (IH _ _ _ _ _ H) as (A & l & El & Fl).
    rewrite A1 in A, Fl. split; [exact A|].
    exists (l1 ++ l). split; [rewrite El, E1, <- app_assoc; reflexivity|].
    rewrite step_actions_app. apply Forall_app. split; assumption.
Qed.

Lemma input_preprocessing_run obs g s x s' :
  input_preprocessing obs g s = Ok (x, s') ->
  x = [norm_normalize (o_norm (agent s)) obs ++
       norm_normalize (g_norm (agent s)) g] /\
  agent s' = agent s /\
  trace s' = trace s ++ [EvNormalize ONorm; EvNormalize GNorm].
Proof.
  unfold input_preprocessing, normalize1. intros H. run.
  split; [|split].
  - repeat match goal with
           | H : agent ?s = _ |- context [agent ?s] => rewrite H
           end.
    reflexivity.
  - back_agent. reflexivity.
  - back_trace. reflexivity.
Qed.

Lemma test_step_greedy i v s v' s' :
  test_step self i v s = Ok (v', s') ->
  agent s' = agent s /\
  exists l, trace s' = trace s ++ l /\
            Forall (greedy (agent s)) (step_actions l).
Proof.
  unfold test_step. cbv zeta. intros H.
  apply bind_ok in H. destruct H as (x & s1 & Hx & H).
  apply bind_ok in H. destruct H as (pi & s2 & Hpi & H).
  apply bind_ok in H. destruct H as (r & s3 & Hr & H).
  apply ret_ok in H. destruct H as [_ ->].
  apply input_preprocessing_run in Hx. destruct Hx as (-> & A1 & T1).
  unfold actor_call in Hpi. unfold step in Hr. run.
  split; [back_agent; reflexivity|].
  eexists. split; [back_trace; reflexivity|].
  simpl. constructor; [|constructor].
  unfold Np.squeeze. simpl. rewrite app_nil_r.
  exists (tv_obs v), (tv_g v). rewrite A1. reflexivity.
Qed.

Lemma test_rollout_greedy i total s total' s' :
  test_rollout self i total s = Ok (total', s') ->
  agent s' = agent s /\
  exists l, trace s' = trace s ++ l /\
            Forall (greedy (agent s)) (step_actions l).
Proof.
  unfold test_rollout, for_range. intros H.
  apply bind_ok in H. destruct H as (o & s1 & Ho & H).
  apply bind_ok in H. destruct H as (v & s2 & Hl & H).
  apply ret_ok in H. destruct H as [_ ->].
  apply (for_from_actions greedy _ test_step_greedy) in Hl.
  destruct Hl as (A & l & El & Fl).
  unfold reset in Ho. run.
  assert (A0 : agent s1 = agent s) by (back_agent; reflexivity).
  rewrite A0 in A, Fl. split; [exact A|].
  exists (EvEnvReset :: l). split; [rewrite El; back_trace; reflexivity|].
  exact Fl.
Qed.

(** X17.  [evaluation] does not explore: every action it passes to
    [env.step] is the output of the online actor, as it is when the call
    starts, on a normalized observation and goal; no noise is added and no
    random action is mixed in. *)
Theorem evaluation_acts_greedily s rate s' :
  evaluation self s = Ok (rate, s') ->
  exists l, trace s' = trace s ++ l /\
            Forall (greedy (agent s)) (step_actions l).
Proof.
  unfold evaluation, local_success_rate, allreduce, for_range. intros H.
  apply bind_ok in H. destruct H as (local & s1 & Hl & H).
  apply bind_ok in Hl. destruct Hl as (total & s0 & Hl & Hm).
  apply (for_from_actions greedy _ test_rollout_greedy) in Hl.
  destruct Hl as (_ & l & El & Fl). run.
  match goal with
  | H : trace _ = trace s0 ++ [?e] |- _ => exists (l ++ [e])
  end.
  split; [back_trace; reflexivity|].
  rewrite step_actions_app, app_nil_r. exact Fl.
Qed.

Hypothesis generator : generator_contract.
Hypothesis range : 0 <= action_max (env_params self).

Lemma choose_actions_within pi s a s' :
  _choose_actions self pi s = Ok (a, s') ->
  Forall (within (action_max (env_params self))) a.
Proof.
  destruct generator as [Hu Hb].
  intros H. unfold _choose_actions in H. cbv zeta in H.
  apply bind_ok in H. destruct H as (z & s1 & Hz & H).
  apply bind_ok in H. destruct H as (act & s2 & Hact & H).
  apply bind_ok in H. destruct H as (r & s3 & Hr & H).
  apply bind_ok in H. destruct H as (k & s4 & Hk & H).
  apply bind_ok in H. destruct H as (d & s5 & Hd & H).
  apply draws_spec in Hr. destruct Hr as [_ Hr].
  apply lift_ok in Hd. destruct Hd as [Hd _].
  apply lift_ok in H. destruct H as [H _].
  apply call_ok in Hk. destruct Hk as [Hk _].
  specialize (Hb 1%nat (random_eps (args self)) (world s3)).
  rewrite <- Hk in Hb.
  eapply (mix_within (e := inject_Z (Z.of_nat k))).
  - destruct k as [|[|k]]; [left; reflexivity | right; reflexivity | lia].
  - apply clip_within. lra.
  - eapply Forall_impl; [|exact Hr]. intros x [w ->]. apply Hu. lra.
  - exact Hd.
  - exact H.
Qed.

Lemma rollout_step_within g i v s v' s' :
  rollout_step self g i v s = Ok (v', s') ->
  agent s' = agent s /\
  exists l, trace s' = trace s ++ l /\
            Forall (Forall (within (action_max (env_params self))))
                   (step_actions l).
Proof.
  intros H. split.
  - assert (K : keeps (fun a : Agent => a) (rollout_step self g i v)).
    { unfold rollout_step. cbv zeta.
      repeat first [ apply keeps_input_preprocessing | apply keeps_actor_call
                   | apply keeps_choose_actions | apply keeps_step_call
                   | keeps_step ]. }
    exact (K _ _ _ H).
  - unfold rollout_step in H. cbv zeta in H.
    apply bind_ok in H. destruct H as (x & s1 & Hx & H).
    apply bind_ok in H. destruct H as (pi & s2 & Hpi & H).
    apply bind_ok in H. destruct H as (a & s3 & Ha & H).
    apply bind_ok in H. destruct H as (r & s4 & Hr & H).
    apply ret_ok in H. destruct H as [_ ->].
    pose proof (choose_actions_within _ _ Ha) as Hw.
    eapply silent_run in Ha; [|apply emits_choose_actions].
    unfold input_preprocessing, normalize1 in Hx.
    unfold actor_call in Hpi. unfold step in Hr. run.
    eexists. split; [back_trace; reflexivity|].
    simpl. constructor; [exact Hw | constructor].
Qed.

Lemma collect_within i mb s mb' s' :
  collect self i mb s = Ok (mb', s') ->
  agent s' = agent s /\
  exists l, trace s' = trace s ++ l /\
            Forall (Forall (within (action_max (env_params self))))
                   (step_actions l).
Proof.
  unfold collect, rollout, for_range. cbv zeta. intros H.
  apply bind_ok in H. destruct H as (ep & s3 & H & Hret).
  apply ret_ok in Hret. destruct Hret as [_ ->].
  apply bind_ok in H. destruct H as (o & s1 & Ho & H).
  apply bind_ok in H. destruct H as (v & s2 & Hl & H).
  apply ret_ok in H. destruct H as [_ ->].
  apply (for_from_actions
           (fun _ => Forall (within (action_max (env_params self)))) _
           (rollout_step_within _)) in Hl.
  destruct Hl as (A & l & El & Fl).
  unfold reset in Ho. run.
  split; [rewrite A; back_agent; reflexivity|].
  exists (EvEnvReset :: l). split; [rewrite El; back_trace; reflexivity|].
  exact Fl.
Qed.

(** X18.  Under the contract of numpy's generator and a non-negative
    [action_max], exploration never leaves the action range: every action
    a cycle's rollouts pass to [env.step], and every action of the batch
    handed to the replay buffer, lies entry by entry within
    [[-action_max, action_max]]. *)
Theorem executed_actions_within_range s mb s' :
  collect_rollouts self s = Ok (mb, s') ->
  (exists l, trace s' = trace s ++ l /\
             Forall (Forall (within (action_max (env_params self))))
                    (step_actions l)) /\
  Forall (Forall (Forall (within (action_max (env_params self)))))
         (mb_actions mb).
Proof.
  intros H. pose proof H as H'.
  unfold collect_rollouts, for_range in H, H'.
  apply (for_from_actions
           (fun _ => Forall (within (action_max (env_params self)))) _
           collect_within) in H.
  destruct H as (_ & l & El & Fl).
  apply collect_run in H'.
  destruct H' as (l' & eps & gs & El' & Al & Cl & _).
  simpl in Al. subst eps.
  rewrite El in El'. apply app_inv_head in El'. subst l'.
  split; [exists l; auto|].
  apply Forall_concat.
  exact (eq_ind_r (fun x => Forall _ x) Fl Cl).
Qed.

End Executed_actions.

Lemma evaluation_acts_greedily_witness :
  let self := Toy.worker 0 (- (1)) false in
  let s' := Toy.after (evaluation self) Toy.trained in
  exists l, trace s' = trace Toy.trained ++ l /\
            Forall (greedy (agent Toy.trained)) (step_actions l).
Proof.
  intros self s'.
  apply (@evaluation_acts_greedily _ self Toy.trained
           (Toy.value 0%Q (evaluation self) Toy.trained) s').
  vm_compute. reflexivity.
Defined.

Lemma executed_actions_within_range_witness :
  let self := Toy.worker 0 (- (1)) false in
  let mb :=
    Toy.value {| mb_obs := []; mb_ag := []; mb_g := []; mb_actions := [] |}
      (collect_rollouts self) Toy.start in
  let s' := Toy.after (collect_rollouts self) Toy.start in
  (exists l, trace s' = trace Toy.start ++ l /\
             Forall (Forall (within (action_max (env_params self))))
                    (step_actions l)) /\
  Forall (Forall (Forall (within (action_max (env_params self)))))
         (mb_actions mb).
Proof.
  intros self mb s'.
  apply (@executed_actions_within_range _ self toy_generator_contract).
  - vm_compute. discriminate.
  - vm_compute. reflexivity.
Defined.
